(** * tw-hipster: the JDL extraction pipeline of [src/cli.js]

    A shallow embedding of [parseJdl], [isCommented], [getTsType], of the
    render context assembled by [generateEntityFiles] and of the calls made
    by [run], together with the JavaScript built-ins they rely on (string
    methods, the regular expressions of the file, plain objects used as
    maps), followed by the properties of the specification that were
    checked against them and by further properties of the code. *)

From Stdlib Require Import String Ascii.
From Stdlib Require Import List NArith Arith Lia Bool Permutation.
Import ListNotations.
Open Scope string_scope.
Open Scope list_scope.
Open Scope nat_scope.

Set Implicit Arguments.

(** ** JavaScript strings

    A JavaScript string is a sequence of 16-bit code units.  A code unit is
    kept as a number; nothing below needs the bound. *)

Abbreviation cu := N (only parsing).
Abbreviation str := (list N) (only parsing).

Definition str_of (s : string) : str :=
  map N_of_ascii (list_ascii_of_string s).

Definition cu_eqb (a b : cu) : bool := N.eqb a b.

Fixpoint str_eqb (a b : str) : bool :=
  match a, b with
  | [], [] => true
  | x :: a', y :: b' => cu_eqb x y && str_eqb a' b'
  | _, _ => false
  end.

(** [\s] of a regular expression and the characters [trim] removes:
    WhiteSpace and LineTerminator of ECMAScript. *)
Definition isWhiteSpace (c : cu) : bool :=
  ((9 <=? c) && (c <=? 13) || (c =? 32) || (c =? 160) || (c =? 5760)
   || (8192 <=? c) && (c <=? 8202) || (c =? 8232) || (c =? 8233)
   || (c =? 8239) || (c =? 8287) || (c =? 12288) || (c =? 65279))%N.

(** [\w]: [A-Za-z0-9_]. *)
Definition isWordChar (c : cu) : bool :=
  ((48 <=? c) && (c <=? 57) || (65 <=? c) && (c <=? 90) || (c =? 95)
   || (97 <=? c) && (c <=? 122))%N.

(** The characters [.] does not match. *)
Definition isLineTerminator (c : cu) : bool :=
  ((c =? 10) || (c =? 13) || (c =? 8232) || (c =? 8233))%N.

Fixpoint trimStart (s : str) : str :=
  match s with
  | c :: s' => if isWhiteSpace c then trimStart s' else s
  | [] => []
  end.

Definition trimEnd (s : str) : str := rev (trimStart (rev s)).

Definition trim (s : str) : str := trimEnd (trimStart s).

(** [s.startsWith(p)] *)
Fixpoint startsWith (p s : str) : bool :=
  match p, s with
  | [], _ => true
  | x :: p', y :: s' => cu_eqb x y && startsWith p' s'
  | _ :: _, [] => false
  end.

(** [s.indexOf(p)], [None] for -1. *)
Fixpoint indexOf (p s : str) : option nat :=
  if startsWith p s then Some 0
  else match s with
       | [] => None
       | _ :: s' => option_map S (indexOf p s')
       end.

(** [s.lastIndexOf(p, pos)]: the greatest index [<= pos] at which [p]
    occurs.  [s] is the suffix of the string that starts at index [i]. *)
Fixpoint lastIndexOfFrom (p s : str) (i pos : nat) (acc : option nat) : option nat :=
  if pos <? i then acc
  else
    let acc' := if startsWith p s then Some i else acc in
    match s with
    | [] => acc'
    | _ :: s' => lastIndexOfFrom p s' (S i) pos acc'
    end.

Definition lastIndexOf (p s : str) (pos : nat) : option nat :=
  lastIndexOfFrom p s 0 pos None.

(** [s.substring(a, b)]: the arguments are swapped when [a > b] and clamped
    to the length. *)
Definition substring (s : str) (a b : nat) : str :=
  firstn (Nat.max a b - Nat.min a b) (skipn (Nat.min a b) s).

(** [s.substring(a)] *)
Definition substringFrom (s : str) (a : nat) : str := skipn a s.

(** [s.split(c)] for a separator of one code unit. *)
Fixpoint splitChar (c : cu) (s : str) : list str :=
  match s with
  | [] => [[]]
  | x :: s' =>
      if cu_eqb x c then [] :: splitChar c s'
      else match splitChar c s' with
           | piece :: rest => (x :: piece) :: rest
           | [] => [[x]]
           end
  end.

Definition isEmpty (s : str) : bool :=
  match s with [] => true | _ => false end.

(** [toLowerCase] on ASCII text, all that a name matched by [\w+] needs; the
    case mapping of the other characters is not modelled. *)
Definition toLowerCaseCu (c : cu) : cu :=
  if ((65 <=? c) && (c <=? 90))%N then (c + 32)%N else c.

Definition toLowerCaseAscii (s : str) : str := map toLowerCaseCu s.

(** ** Regular expressions

    The constructs the regular expressions of [cli.js] use.  Every
    quantifier [*], [+] of the file stands on a character class, so [Star]
    carries the class; [Opt] is the greedy [?]. *)

Inductive regex : Type :=
| Empty : regex
| Class : (cu -> bool) -> regex
| Seq : regex -> regex -> regex
| Alt : regex -> regex -> regex
| Star : bool -> (cu -> bool) -> regex
| Opt : regex -> regex
| Group : nat -> regex -> regex
| Bol : regex.

Definition Plus (greedy : bool) (p : cu -> bool) : regex :=
  Seq (Class p) (Star greedy p).

Fixpoint Lit (s : str) : regex :=
  match s with
  | [] => Empty
  | [c] => Class (cu_eqb c)
  | c :: s' => Seq (Class (cu_eqb c)) (Lit s')
  end.

Fixpoint SeqL (l : list regex) : regex :=
  match l with
  | [] => Empty
  | [r] => r
  | r :: l' => Seq r (SeqL l')
  end.

Definition captures := list (option str).

Fixpoint setCapture (n : nat) (v : str) (c : captures) : captures :=
  match n, c with
  | _, [] => []
  | 0, _ :: c' => Some v :: c'
  | S n', x :: c' => x :: setCapture n' v c'
  end.

Definition mstate : Type := (str * captures)%type.
Definition cont := str -> captures -> option mstate.

(** Greedy [p*]: one more character first, the continuation afterwards. *)
Fixpoint starGreedy (p : cu -> bool) (s : str) (c : captures) (k : cont) : option mstate :=
  match s with
  | x :: s' =>
      if p x then
        match starGreedy p s' c k with
        | Some z => Some z
        | None => k s c
        end
      else k s c
  | [] => k s c
  end.

(** Lazy [p*?]: the continuation first, one more character afterwards. *)
Fixpoint starLazy (p : cu -> bool) (s : str) (c : captures) (k : cont) : option mstate :=
  match k s c with
  | Some z => Some z
  | None =>
      match s with
      | x :: s' => if p x then starLazy p s' c k else None
      | [] => None
      end
  end.

(** The backtracking matcher of ECMAScript, in continuation-passing style.
    [s] is what is left of the input, [total] the length of the whole input
    ([Bol] holds at its start only: no regular expression of the file has
    the [m] flag).  Group [n] of the source is entry [n - 1] of the
    captures. *)
Fixpoint matcher (total : nat) (r : regex) (s : str) (c : captures) (k : cont) : option mstate :=
  match r with
  | Empty => k s c
  | Class p =>
      match s with
      | x :: s' => if p x then k s' c else None
      | [] => None
      end
  | Seq r1 r2 => matcher total r1 s c (fun s1 c1 => matcher total r2 s1 c1 k)
  | Alt r1 r2 =>
      match matcher total r1 s c k with
      | Some z => Some z
      | None => matcher total r2 s c k
      end
  | Star true p => starGreedy p s c k
  | Star false p => starLazy p s c k
  | Opt r1 =>
      match matcher total r1 s c
              (fun s1 c1 => if length s1 =? length s then None else k s1 c1) with
      | Some z => Some z
      | None => k s c
      end
  | Group n r1 =>
      matcher total r1 s c
        (fun s1 c1 => k s1 (setCapture (n - 1) (firstn (length s - length s1) s) c1))
  | Bol => if length s =? total then k s c else None
  end.

Record RegExp : Type := { pattern : regex; ngroups : nat }.

(** The result of [exec]: [index], the end of the match (the new
    [lastIndex] of a global regular expression) and the array of the whole
    match followed by the groups. *)
Record Match : Type := {
  index : nat;
  endIndex : nat;
  groups : list (option str)
}.

Definition matchAt (re : RegExp) (total i : nat) (s : str) : option Match :=
  match matcher total (pattern re) s (repeat None (ngroups re))
          (fun s1 c1 => Some (s1, c1)) with
  | Some (s1, c1) =>
      Some {| index := i;
              endIndex := i + (length s - length s1);
              groups := Some (firstn (length s - length s1) s) :: c1 |}
  | None => None
  end.

(** The search of [exec]: the first position from [i] on at which the
    pattern matches; [s] is the input from [i]. *)
Fixpoint execFrom (re : RegExp) (total i : nat) (s : str) : option Match :=
  match matchAt re total i s with
  | Some mt => Some mt
  | None =>
      match s with
      | [] => None
      | _ :: s' => execFrom re total (S i) s'
      end
  end.

(** [re.exec(content)] with [re.lastIndex = lastIndex]. *)
Definition exec (re : RegExp) (content : str) (lastIndex : nat) : option Match :=
  if length content <? lastIndex then None
  else execFrom re (length content) lastIndex (skipn lastIndex content).

(** [m[n]] of a match where group [n] takes part in every match (the other
    case does not arise, see [enumRegex_groups] and its likes). *)
Definition group (n : nat) (mt : Match) : str :=
  match nth_error (groups mt) n with
  | Some (Some s) => s
  | _ => []
  end.

(** [m[n]] of a match, [None] for [undefined]. *)
Definition groupOpt (n : nat) (mt : Match) : option str :=
  match nth_error (groups mt) n with
  | Some o => o
  | None => None
  end.

(** [content.replace(re, replacement)] for a global [re] and a replacement
    without [$]: the matches are searched one after the other, an empty
    match moves the search one code unit on. *)
Fixpoint replaceLoop (fuel : nat) (re : RegExp) (content replacement : str)
    (lastIndex nextSourcePosition : nat) : str :=
  match fuel with
  | 0 => substringFrom content nextSourcePosition
  | S fuel' =>
      match exec re content lastIndex with
      | None => substringFrom content nextSourcePosition
      | Some mt =>
          substring content nextSourcePosition (index mt) ++ replacement ++
          replaceLoop fuel' re content replacement
            (if endIndex mt =? index mt then S (endIndex mt) else endIndex mt)
            (endIndex mt)
      end
  end.

Definition replace (re : RegExp) (content replacement : str) : str :=
  replaceLoop (S (length content)) re content replacement 0 0.

(** [s.match(re)] for a regular expression without the [g] flag. *)
Definition regexMatch (re : RegExp) (s : str) : option Match := exec re s 0.

(** [s.split(re)] for a regular expression without groups. *)
Fixpoint splitLoop (fuel : nat) (re : RegExp) (s : str) (p q : nat) : list str :=
  match fuel with
  | 0 => [substringFrom s p]
  | S fuel' =>
      if length s <=? q then [substringFrom s p]
      else
        match matchAt re (length s) q (skipn q s) with
        | None => splitLoop fuel' re s p (S q)
        | Some mt =>
            if endIndex mt =? p then splitLoop fuel' re s p (S q)
            else substring s p q :: splitLoop fuel' re s (endIndex mt) (endIndex mt)
        end
  end.

Definition splitRegex (re : RegExp) (s : str) : list str :=
  match s with
  | [] => match matchAt re 0 0 [] with Some _ => [] | None => [[]] end
  | _ => splitLoop (2 * S (length s)) re s 0 0
  end.

(** ** Plain objects used as maps

    [{}] has [Object.prototype] as its prototype.  [o[k] = v] creates or
    overwrites the own property [k], except for [k = "__proto__"]: that key
    is the accessor of [Object.prototype], whose setter replaces the
    prototype of [o] by the object [v] and creates no own property.
    [proto o = None] stands for [Object.prototype] itself, [Some v] for the
    record [v] (which inherits from [Object.prototype] in turn). *)

Record JsObject (V : Type) : Type := {
  own : list (str * V);
  proto : option V
}.

Definition emptyObject (V : Type) : JsObject V :=
  {| own := []; proto := None |}.

Definition protoKey : str := str_of "__proto__".

(** The properties every plain object inherits from [Object.prototype]. *)
Definition objectPrototypeKeys : list str :=
  map str_of
    ["constructor"; "__defineGetter__"; "__defineSetter__"; "hasOwnProperty";
     "__lookupGetter__"; "__lookupSetter__"; "isPrototypeOf";
     "propertyIsEnumerable"; "toString"; "valueOf"; "__proto__";
     "toLocaleString"].

Definition inObjectPrototype (k : str) : bool :=
  existsb (str_eqb k) objectPrototypeKeys.

Fixpoint assocGet (V : Type) (l : list (str * V)) (k : str) : option V :=
  match l with
  | [] => None
  | (k', v) :: l' => if str_eqb k k' then Some v else assocGet l' k
  end.

(** An existing key keeps its place, a new key goes to the end. *)
Fixpoint assocSet (V : Type) (l : list (str * V)) (k : str) (v : V) : list (str * V) :=
  match l with
  | [] => [(k, v)]
  | (k', v') :: l' =>
      if str_eqb k k' then (k, v) :: l' else (k', v') :: assocSet l' k v
  end.

(** [o[k] = v] *)
Definition objSet (V : Type) (o : JsObject V) (k : str) (v : V) : JsObject V :=
  if str_eqb k protoKey then {| own := own o; proto := Some v |}
  else {| own := assocSet (own o) k v; proto := proto o |}.

Definition isDigit (c : cu) : bool := ((48 <=? c) && (c <=? 57))%N.

Definition digitsValue (s : str) : N :=
  fold_left (fun acc c => (10 * acc + (c - 48))%N) s 0%N.

(** An array index: the canonical decimal form of an integer below
    [2^32 - 1]. *)
Definition arrayIndex (k : str) : option N :=
  match k with
  | [] => None
  | c :: rest =>
      if forallb isDigit k && (isEmpty rest || negb (c =? 48)%N)
         && (digitsValue k <? 4294967295)%N
      then Some (digitsValue k)
      else None
  end.

Fixpoint insertByIndex (V : Type) (i : N) (e : str * V) (l : list (N * (str * V)))
    : list (N * (str * V)) :=
  match l with
  | [] => [(i, e)]
  | (j, e') :: l' =>
      if (i <? j)%N then (i, e) :: l else (j, e') :: insertByIndex i e l'
  end.

Definition isIndexed (V : Type) (e : str * V) : bool :=
  match arrayIndex (fst e) with Some _ => true | None => false end.

Definition indexedEntries (V : Type) (l : list (str * V)) : list (N * (str * V)) :=
  fold_left
    (fun acc e => match arrayIndex (fst e) with
                  | Some i => insertByIndex i e acc
                  | None => acc
                  end)
    l [].

(** The order of the own property keys: array indices in ascending order,
    then the other keys in the order of their creation. *)
Definition ownEntries (V : Type) (o : JsObject V) : list (str * V) :=
  map snd (indexedEntries (own o))
  ++ filter (fun e => negb (isIndexed e)) (own o).

(** [Object.values(o)] *)
Definition objValues (V : Type) (o : JsObject V) : list V :=
  map snd (ownEntries o).

(** [!!o[k]] for an object whose own properties hold objects; [props v k]
    is the truth value of the own property [k] of the record [v], if it has
    one.  Every property of [Object.prototype] is truthy. *)
Definition objTruthy (V : Type) (props : V -> str -> option bool)
    (o : JsObject V) (k : str) : bool :=
  match assocGet (own o) k with
  | Some _ => true
  | None =>
      if str_eqb k protoKey then true
      else
        match proto o with
        | Some p =>
            match props p k with
            | Some b => b
            | None => inObjectPrototype k
            end
        | None => inObjectPrototype k
        end
  end.

(** [k] is found on the prototype chain of [o], not among its own
    properties. *)
Definition objInherits (V : Type) (props : V -> str -> option bool)
    (o : JsObject V) (k : str) : bool :=
  match assocGet (own o) k with
  | Some _ => false
  | None =>
      str_eqb k protoKey
      || match proto o with
         | Some p => match props p k with Some _ => true | None => false end
         | None => false
         end
      || inObjectPrototype k
  end.

(** ** The data model of [cli.js]

    The objects [parseJdl] builds, as records.  The property [name] of an
    entity, an enum, an enum value and an endpoint is [entityName],
    [enumName], [valueName] and [endpointName]; [type] of a relationship is
    [relType]; a property that may be [undefined] or [null] is an option. *)

Record Field : Type := {
  fieldName : str;
  fieldType : str;
  fieldTypeIsEnum : bool;
  fieldValidateRules : list str;
  comment : option str
}.

Record Entity : Type := {
  entityName : str;
  fields : list Field
}.

Record EnumValue : Type := { valueName : str }.

Record EnumDef : Type := {
  enumName : str;
  values : list EnumValue
}.

Record Endpoint : Type := {
  endpointName : str;
  endpointFieldName : option str
}.

Record Relationship : Type := {
  relType : str;
  from : Endpoint;
  to : Endpoint
}.

Record Model : Type := {
  entities : list Entity;
  enums : list EnumDef;
  relationships : list Relationship
}.

(** [AUDIT_FIELDS] *)
Definition AUDIT_FIELDS : list Field :=
  [ {| fieldName := str_of "createdBy"; fieldType := str_of "String";
       fieldTypeIsEnum := false; fieldValidateRules := []; comment := None |};
    {| fieldName := str_of "createdDate"; fieldType := str_of "Instant";
       fieldTypeIsEnum := false; fieldValidateRules := []; comment := None |};
    {| fieldName := str_of "lastModifiedBy"; fieldType := str_of "String";
       fieldTypeIsEnum := false; fieldValidateRules := []; comment := None |};
    {| fieldName := str_of "lastModifiedDate"; fieldType := str_of "Instant";
       fieldTypeIsEnum := false; fieldValidateRules := []; comment := None |} ].

(** ** The regular expressions of [parseJdl] *)

Definition anyChar (c : cu) : bool := true.
Definition notCloseBrace (c : cu) : bool := negb (cu_eqb c 125%N).
Definition wordOrAngle (c : cu) : bool :=
  isWordChar c || cu_eqb c 60%N || cu_eqb c 62%N.
Definition dotChar (c : cu) : bool := negb (isLineTerminator c).

(** [/\/\*[\s\S]*?\*\//g] *)
Definition blockCommentRegex : RegExp :=
  {| pattern := SeqL [Lit (str_of "/*"); Star false anyChar; Lit (str_of "*/")];
     ngroups := 0 |}.

(** [/enum\s+(\w+)\s*\{([^}]+)\}/g] *)
Definition enumRegex : RegExp :=
  {| pattern :=
       SeqL [Lit (str_of "enum"); Plus true isWhiteSpace;
             Group 1 (Plus true isWordChar); Star true isWhiteSpace;
             Lit (str_of "{"); Group 2 (Plus true notCloseBrace);
             Lit (str_of "}")];
     ngroups := 2 |}.

(** [/(?:@EnableAudit\s+)?entity\s+(\w+)\s*\{([^}]+)\}/g] *)
Definition entityRegex : RegExp :=
  {| pattern :=
       SeqL [Opt (Seq (Lit (str_of "@EnableAudit")) (Plus true isWhiteSpace));
             Lit (str_of "entity"); Plus true isWhiteSpace;
             Group 1 (Plus true isWordChar); Star true isWhiteSpace;
             Lit (str_of "{"); Group 2 (Plus true notCloseBrace);
             Lit (str_of "}")];
     ngroups := 2 |}.

(** The field grammar of [fieldLines.forEach]: [^(\w+)\s+([\w<>]+)] followed
    by a third group, [.] under a greedy star. *)
Definition fieldRegex : RegExp :=
  {| pattern :=
       SeqL [Bol; Group 1 (Plus true isWordChar); Plus true isWhiteSpace;
             Group 2 (Plus true wordOrAngle); Group 3 (Star true dotChar)];
     ngroups := 3 |}.

(** [/\s+/] *)
Definition whitespaceRegex : RegExp :=
  {| pattern := Plus true isWhiteSpace; ngroups := 0 |}.

(** [/relationship\s+(OneToOne|ManyToOne|OneToMany|ManyToMany)\s*\{\s*(\w+)(?:\((\w+)\))?\s+to\s+(\w+)(?:\((\w+)\))?\s*\}/g] *)
Definition relationshipRegex : RegExp :=
  {| pattern :=
       SeqL [Lit (str_of "relationship"); Plus true isWhiteSpace;
             Group 1 (Alt (Lit (str_of "OneToOne"))
                     (Alt (Lit (str_of "ManyToOne"))
                     (Alt (Lit (str_of "OneToMany")) (Lit (str_of "ManyToMany")))));
             Star true isWhiteSpace; Lit (str_of "{"); Star true isWhiteSpace;
             Group 2 (Plus true isWordChar);
             Opt (SeqL [Lit (str_of "("); Group 3 (Plus true isWordChar);
                        Lit (str_of ")")]);
             Plus true isWhiteSpace; Lit (str_of "to"); Plus true isWhiteSpace;
             Group 4 (Plus true isWordChar);
             Opt (SeqL [Lit (str_of "("); Group 5 (Plus true isWordChar);
                        Lit (str_of ")")]);
             Star true isWhiteSpace; Lit (str_of "}")];
     ngroups := 5 |}.

(** ** [isCommented] *)

Definition isCommented (content : str) (index : nat) : bool :=
  let lineStart :=
    match lastIndexOf [10%N] content index with
    | None => 0
    | Some lastNewline => lastNewline + 1
    end in
  let line := substring content lineStart index in
  startsWith (str_of "//") (trim line).

(** ** [parseJdl] *)

(** What running a piece of the program gives: a value, a [TypeError] (a
    method called on [undefined]), or nothing yet, when a loop has not
    ended and its fuel is used up. *)
Inductive Outcome (A : Type) : Type :=
| Returned : A -> Outcome A
| Thrown : Outcome A
| Running : Outcome A.

Arguments Thrown {A}.
Arguments Running {A}.

Definition bind (A B : Type) (o : Outcome A) (f : A -> Outcome B) : Outcome B :=
  match o with
  | Returned a => f a
  | Thrown => Thrown
  | Running => Running
  end.

Notation "x <- e ;; k" := (bind e (fun x => k))
  (at level 61, e at next level, right associativity).

(** [m[n]] as the receiver of a method call: a [TypeError] when the group
    is [undefined]. *)
Definition groupObject (n : nat) (mt : Match) : Outcome str :=
  match groupOpt n mt with
  | Some s => Returned s
  | None => Thrown
  end.

(** [while ((m = re.exec(content)) !== null) { if (isCommented(content,
    m.index)) continue; body }] for a global [re], whose [lastIndex] is the
    loop's only hidden state. *)
Fixpoint execLoop (St : Type) (re : RegExp) (content : str)
    (body : Match -> St -> Outcome St) (fuel lastIndex : nat) (st : St) : Outcome St :=
  match fuel with
  | 0 => Running
  | S fuel' =>
      match exec re content lastIndex with
      | None => Returned st
      | Some mt =>
          if isCommented content (index mt)
          then execLoop re content body fuel' (endIndex mt) st
          else st' <- body mt st ;;
               execLoop re content body fuel' (endIndex mt) st'
      end
  end.

(** The own properties of an enum record, as truth values. *)
Definition enumProps (e : EnumDef) (k : str) : option bool :=
  if str_eqb k (str_of "name") then Some (negb (isEmpty (enumName e)))
  else if str_eqb k (str_of "values") then Some true
  else None.

(** [text.trim().split(',').map(v => v.trim().split('(')[0].trim())
    .filter(Boolean).map(v => ({ name: v }))] *)
Definition enumValues (text : str) : list EnumValue :=
  map (fun v => {| valueName := v |})
    (filter (fun v => negb (isEmpty v))
       (map (fun v => trim (hd [] (splitChar 40%N (trim v))))
          (splitChar 44%N (trim text)))).

(** The body of the enum loop. *)
Definition enumBody (enumMatch : Match) (enums : JsObject EnumDef)
    : Outcome (JsObject EnumDef) :=
  let enumName := group 1 enumMatch in
  text <- groupObject 2 enumMatch ;;
  Returned (objSet enums enumName
              {| enumName := enumName; values := enumValues text |}).

(** One iteration of [fieldLines.forEach]. *)
Definition fieldOfLine (enums : JsObject EnumDef) (line : str) : option Field :=
  match regexMatch fieldRegex line with
  | None => None
  | Some fieldMatch =>
      let fieldName := group 1 fieldMatch in
      let fieldType := group 2 fieldMatch in
      let restOfLine := group 3 fieldMatch in
      let '(validations, comment) :=
        match indexOf (str_of "//") restOfLine with
        | Some commentIndex =>
            (trim (substring restOfLine 0 commentIndex),
             Some (trim (substringFrom restOfLine (commentIndex + 2))))
        | None => (restOfLine, None)
        end in
      Some {| fieldName := fieldName;
              fieldType := fieldType;
              fieldTypeIsEnum := objTruthy enumProps enums fieldType;
              fieldValidateRules :=
                filter (fun v => negb (isEmpty v))
                  (splitRegex whitespaceRegex validations);
              comment := comment |}
  end.

Definition fieldLinesOf (fieldsContent : str) : list str :=
  filter (fun line => negb (isEmpty line) && negb (startsWith (str_of "//") line))
    (map trim (splitChar 10%N fieldsContent)).

Definition declaredFields (enums : JsObject EnumDef) (fieldLines : list str) : list Field :=
  fold_left
    (fun fields line =>
       match fieldOfLine enums line with
       | Some f => fields ++ [f]
       | None => fields
       end)
    fieldLines [].

Definition hasAuditAnnotation (entityMatch : Match) : bool :=
  startsWith (str_of "@EnableAudit") (trim (group 0 entityMatch)).

(** The entity the body of the entity loop stores under its name. *)
Definition entityOf (enums : JsObject EnumDef) (entityMatch : Match)
    (fieldsContent : str) : Entity :=
  let fields := declaredFields enums (fieldLinesOf fieldsContent) in
  {| entityName := group 1 entityMatch;
     fields := if hasAuditAnnotation entityMatch then fields ++ AUDIT_FIELDS
               else fields |}.

(** The body of the entity loop. *)
Definition entityBody (enums : JsObject EnumDef) (entityMatch : Match)
    (entities : JsObject Entity) : Outcome (JsObject Entity) :=
  fieldsContent <- groupObject 2 entityMatch ;;
  Returned (objSet entities (group 1 entityMatch)
              (entityOf enums entityMatch fieldsContent)).

Definition relationshipOfMatch (relMatch : Match) : Relationship :=
  {| relType := group 1 relMatch;
     from := {| endpointName := group 2 relMatch;
                endpointFieldName := groupOpt 3 relMatch |};
     to := {| endpointName := group 4 relMatch;
              endpointFieldName := groupOpt 5 relMatch |} |}.

(** The body of the relationship loop. *)
Definition relationshipBody (relMatch : Match) (relationships : list Relationship)
    : Outcome (list Relationship) :=
  Returned (relationships ++ [relationshipOfMatch relMatch]).

Definition stripBlockComments (jdlContent : str) : str :=
  replace blockCommentRegex jdlContent [].

Definition loopFuel (content : str) : nat := S (length content).

(** [parseJdl]; the line written to the console for an audited entity is
    not part of the result and is left out. *)
Definition parseJdl (jdlContent : str) : Outcome Model :=
  let cleanContent := stripBlockComments jdlContent in
  enums <- execLoop enumRegex cleanContent enumBody
             (loopFuel cleanContent) 0 (emptyObject EnumDef) ;;
  entities <- execLoop entityRegex cleanContent (entityBody enums)
                (loopFuel cleanContent) 0 (emptyObject Entity) ;;
  relationships <- execLoop relationshipRegex cleanContent relationshipBody
                     (loopFuel cleanContent) 0 [] ;;
  Returned {| entities := objValues entities;
              enums := objValues enums;
              relationships := relationships |}.

(** ** [getTsType]

    [typeMappings[jdlType] || jdlType] reads a property of an object
    literal: the twelve own properties, then [Object.prototype].  The
    values that can come back are strings, the built-in functions of
    [Object.prototype] and (for [__proto__]) [Object.prototype] itself. *)

Inductive JsValue : Type :=
| VString : str -> JsValue
| VFunction : str -> JsValue
| VObjectPrototype : JsValue.

Definition typeMappings : list (str * str) :=
  map (fun kv => (str_of (fst kv), str_of (snd kv)))
    [("String", "string"); ("Integer", "number"); ("Long", "number");
     ("BigDecimal", "number"); ("Float", "number"); ("Double", "number");
     ("Boolean", "boolean"); ("LocalDate", "dayjs.Dayjs");
     ("Instant", "dayjs.Dayjs"); ("ZonedDateTime", "dayjs.Dayjs");
     ("TextBlob", "string"); ("UUID", "string")].

(** A property read that reaches [Object.prototype]. *)
Definition objectPrototypeGet (k : str) : option JsValue :=
  if str_eqb k protoKey then Some VObjectPrototype
  else if str_eqb k (str_of "constructor") then Some (VFunction (str_of "Object"))
  else if inObjectPrototype k then Some (VFunction k)
  else None.

(** The property key a value is converted to. *)
Definition toPropertyKey (v : JsValue) : str :=
  match v with
  | VString s => s
  | VFunction name => str_of "function " ++ name ++ str_of "() { [native code] }"
  | VObjectPrototype => str_of "[object Object]"
  end.

Definition truthy (v : JsValue) : bool :=
  match v with
  | VString s => negb (isEmpty s)
  | _ => true
  end.

Definition typeMappingsGet (k : str) : option JsValue :=
  match assocGet typeMappings k with
  | Some t => Some (VString t)
  | None => objectPrototypeGet k
  end.

Definition getTsType (jdlType : JsValue) : JsValue :=
  match typeMappingsGet (toPropertyKey jdlType) with
  | Some v => if truthy v then v else jdlType
  | None => jdlType
  end.

(** ** The render context of [generateEntityFiles]

    [camelCase] and [upperFirst] are lodash's and [toLowerCase] is the
    method of strings (see [toLowerCaseAscii]): the three are parameters.
    The context is the object [entityConfig], without the helpers and the
    command line configuration it also carries.  The assignment
    [field.tsType = getTsType(field.fieldType)] writes into the field
    objects, and the audit fields of all entities are the same four
    objects; what is written depends on the type of the field alone, so
    the sharing cannot be observed and the fields are copied. *)

Record FieldWithTsType : Type := {
  field : Field;
  tsType : JsValue
}.

Record RelationshipView : Type := {
  rel : Relationship;
  otherEntityName : str;
  otherEntityNamePascalCase : str;
  otherEntityNamePlural : str
}.

Record EntityConfig : Type := {
  configEntityName : str;
  configFields : list FieldWithTsType;
  configRelationships : list RelationshipView
}.

Section Helpers.

Variable camelCase : str -> str.
Variable upperFirst : str -> str.
Variable toLowerCase : str -> str.

Definition toPascalCase (s : str) : str := upperFirst (camelCase s).

Definition relationshipView (r : Relationship) : RelationshipView :=
  {| rel := r;
     otherEntityName := endpointName (to r);
     otherEntityNamePascalCase := toPascalCase (endpointName (to r));
     otherEntityNamePlural := toLowerCase (endpointName (to r)) ++ str_of "s" |}.

Definition entityConfig (entity : Entity) (allRelationships : list Relationship)
    : EntityConfig :=
  {| configEntityName := entityName entity;
     configFields :=
       map (fun f => {| field := f; tsType := getTsType (VString (fieldType f)) |})
         (fields entity);
     configRelationships :=
       map relationshipView
         (filter (fun r => str_eqb (endpointName (from r)) (entityName entity))
            allRelationships) |}.

End Helpers.

(** ** Notions used in the statements and in the proofs *)

(** The successive matches of a global regular expression, as the [while]
    loop of [parseJdl] meets them. *)
Fixpoint matchesFrom (re : RegExp) (content : str) (fuel lastIndex : nat) : list Match :=
  match fuel with
  | 0 => []
  | S fuel' =>
      match exec re content lastIndex with
      | None => []
      | Some mt => mt :: matchesFrom re content fuel' (endIndex mt)
      end
  end.

(** The matches the loop runs its body on. *)
Definition declarationsOf (re : RegExp) (content : str) : list Match :=
  filter (fun mt => negb (isCommented content (index mt)))
    (matchesFrom re content (loopFuel content) 0).

(** The records the enum and the entity loop store for a match whose
    groups are all strings. *)
Definition enumOfMatch (enumMatch : Match) : EnumDef :=
  {| enumName := group 1 enumMatch; values := enumValues (group 2 enumMatch) |}.

Definition entityOfMatch (enums : JsObject EnumDef) (entityMatch : Match) : Entity :=
  entityOf enums entityMatch (group 2 entityMatch).

(** The object [enums] when the enum loop is over. *)
Definition enumTable (content : str) : JsObject EnumDef :=
  fold_left (fun o mt => objSet o (group 1 mt) (enumOfMatch mt))
    (declarationsOf enumRegex content) (emptyObject EnumDef).

(** The object [entities] when the entity loop is over. *)
Definition entityTable (content : str) : JsObject Entity :=
  fold_left (fun o mt => objSet o (group 1 mt) (entityOfMatch (enumTable content) mt))
    (declarationsOf entityRegex content) (emptyObject Entity).

(** A regular expression every match of which takes at least one code
    unit. *)
Fixpoint consumes (r : regex) : bool :=
  match r with
  | Empty => false
  | Class _ => true
  | Seq r1 r2 => consumes r1 || consumes r2
  | Alt r1 r2 => consumes r1 && consumes r2
  | Star _ _ => false
  | Opt _ => false
  | Group _ r1 => consumes r1
  | Bol => false
  end.

(** What is left of [s] after the first [*/]. *)
Fixpoint afterClose (s : str) : option str :=
  if startsWith (str_of "*/") s then Some (skipn 2 s)
  else match s with
       | [] => None
       | _ :: s' => afterClose s'
       end.

(** A start marker followed, after itself, by an end marker. *)
Fixpoint hasBlockComment (s : str) : bool :=
  match s with
  | [] => false
  | _ :: s' =>
      (startsWith (str_of "/*") s
       && match afterClose (skipn 2 s) with Some _ => true | None => false end)
      || hasBlockComment s'
  end.

(** The stripper the specification words: a block-comment span taken
    greedily, from a start marker to the last end marker. *)
Definition greedyBlockCommentRegex : RegExp :=
  {| pattern := SeqL [Lit (str_of "/*"); Star true anyChar; Lit (str_of "*/")];
     ngroups := 0 |}.

Definition stripGreedySpans (jdlContent : str) : str :=
  replace greedyBlockCommentRegex jdlContent [].

(** The shift of a match found in a suffix of the input. *)
Definition shiftMatch (d : nat) (mt : Match) : Match :=
  {| index := d + index mt; endIndex := d + endIndex mt; groups := groups mt |}.

(** Text made of plain stretches and complete block comments: where it
    ends, no block comment is open. *)
Inductive closedText : str -> Prop :=
| closed_plain : forall p,
    indexOf (str_of "/*") p = None -> closedText p
| closed_comment : forall p body rest,
    indexOf (str_of "/*") p = None ->
    indexOf (str_of "*/") body = None ->
    closedText rest ->
    closedText (p ++ str_of "/*" ++ body ++ str_of "*/" ++ rest).

(** [rest] does not go on with a character of the class [p]. *)
Definition stopsAt (p : cu -> bool) (rest : str) : bool :=
  match rest with
  | [] => true
  | x :: _ => negb (p x)
  end.

(** The continuation [k] gives [z] on an input at least [n] code units
    shorter than [s]. *)
Definition advances (n : nat) (s : str) (k : cont) (z : mstate) : Prop :=
  exists s1 c1, k s1 c1 = Some z /\ length s1 + n <= length s.

(** The groups every match of a pattern sets. *)
Fixpoint sets (r : regex) : list nat :=
  match r with
  | Group n r1 => n :: sets r1
  | Seq r1 r2 => sets r1 ++ sets r2
  | Alt r1 r2 => filter (fun n => existsb (Nat.eqb n) (sets r2)) (sets r1)
  | _ => []
  end.

(** Entry [i] of the captures is a string. *)
Definition defined (c : captures) (i : nat) : Prop :=
  exists v, nth_error c i = Some (Some v).

(** [c1] keeps the strings of [c] and has one for every group of [l]. *)
Definition extends (l : list nat) (c c1 : captures) : Prop :=
  length c1 = length c /\
  (forall i, defined c i -> defined c1 i) /\
  (forall n, In n l -> 0 < n <= length c -> defined c1 (n - 1)).

(** The text of an entity declaration after its annotation, and what the
    pattern asks of its parts. *)
Definition entityText (ws1 name ws2 body : str) : str :=
  str_of "entity" ++ ws1 ++ name ++ ws2 ++ str_of "{" ++ body ++ str_of "}".

Definition entityShape (ws1 name ws2 body : str) : Prop :=
  ws1 <> [] /\ forallb isWhiteSpace ws1 = true /\
  name <> [] /\ forallb isWordChar name = true /\
  forallb isWhiteSpace ws2 = true /\
  body <> [] /\ forallb notCloseBrace body = true.

(** What the annotation part of the pattern took: nothing, or the
    annotation and the white space after it. *)
Definition annotationShape (ann : str) : Prop :=
  ann = [] \/
  exists ws, ann = str_of "@EnableAudit" ++ ws /\ ws <> [] /\
             forallb isWhiteSpace ws = true.

(** ** Documents used as examples *)

Definition nl : str := [10%N].

Definition auditDoc : str :=
  str_of "@EnableAudit" ++ nl ++ str_of "entity Bar {" ++ nl
  ++ str_of " id Long" ++ nl ++ str_of "}".

Definition barEntity : Entity :=
  {| entityName := str_of "Bar";
     fields :=
       {| fieldName := str_of "id"; fieldType := str_of "Long";
          fieldTypeIsEnum := false; fieldValidateRules := []; comment := None |}
       :: AUDIT_FIELDS |}.




Definition enumAfterDoc : str :=
  str_of "entity Task { status Status }" ++ nl
  ++ str_of "enum Status { ACTIVE, INACTIVE }".

Definition taskEntity : Entity :=
  {| entityName := str_of "Task";
     fields := [ {| fieldName := str_of "status"; fieldType := str_of "Status";
                    fieldTypeIsEnum := true; fieldValidateRules := [];
                    comment := None |} ] |}.

Definition enumAfterModel : Model :=
  {| entities := [taskEntity];
     enums := [ {| enumName := str_of "Status";
                   values := [ {| valueName := str_of "ACTIVE" |};
                               {| valueName := str_of "INACTIVE" |} ] |} ];
     relationships := [] |}.

Definition enumStringDoc : str :=
  str_of "enum String { A }" ++ nl ++ str_of "@EnableAudit" ++ nl
  ++ str_of "entity E { x Long }".

Definition enumStringModel : Model :=
  {| entities :=
       [ {| entityName := str_of "E";
            fields :=
              {| fieldName := str_of "x"; fieldType := str_of "Long";
                 fieldTypeIsEnum := false; fieldValidateRules := []; comment := None |}
              :: AUDIT_FIELDS |} ];
     enums := [ {| enumName := str_of "String";
                   values := [ {| valueName := str_of "A" |} ] |} ];
     relationships := [] |}.

Definition protoDoc : str :=
  str_of "entity __proto__ { a String }" ++ nl ++ str_of "entity __proto__ { b Long }".

Definition twoCommentsDoc : str := str_of "/*a*/x/*b*/".

Definition markerEatenDoc : str := str_of "//* x */ entity B { y Long }".

(** ** [run]

    What [run] does with the model once the file is read: nothing when the
    model has no entity, otherwise one call of [generateEntityFiles] for
    every entity followed by one call of [generateEnumFile] for every enum.
    The calls are kept with their arguments (the command line
    configuration, the same for all, is left out); the files they write are
    the work of [ejs] and of the file system and are not modelled. *)

Inductive GenerationCall : Type :=
| GenerateEntityFiles : Entity -> list Relationship -> GenerationCall
| GenerateEnumFile : EnumDef -> GenerationCall.

Definition generationPromises (model : Model) : list GenerationCall :=
  match entities model with
  | [] => []
  | _ :: _ =>
      map (fun entity => GenerateEntityFiles entity (relationships model))
        (entities model)
      ++ map GenerateEnumFile (enums model)
  end.

(** [run] on the content of the file. *)
Definition run (jdlContent : str) : Outcome (list GenerationCall) :=
  model <- parseJdl jdlContent ;;
  Returned (generationPromises model).

(** ** Well-formed names and texts *)

(** A match of [\w+]. *)
Definition isWord (s : str) : bool := negb (isEmpty s) && forallb isWordChar s.

(** The number an entity or an enum is filed under when its name is an
    array index. *)
Definition nameIndex (name : str) : N :=
  match arrayIndex name with
  | Some i => i
  | None => 0%N
  end.

Definition isIndexName (name : str) : bool :=
  match arrayIndex name with Some _ => true | None => false end.

Fixpoint ascendingFrom (lo : N) (l : list N) : bool :=
  match l with
  | [] => true
  | x :: l' => (lo <=? x)%N && ascendingFrom x l'
  end.

Definition ascending (l : list N) : bool :=
  match l with
  | [] => true
  | x :: l' => ascendingFrom x l'
  end.

(** The four relationship types the pattern accepts. *)
Definition cardinalities : list str :=
  map str_of ["OneToOne"; "ManyToOne"; "OneToMany"; "ManyToMany"].

(** The text of an enum declaration; its parts are asked what
    [entityShape] asks. *)
Definition enumText (ws1 name ws2 body : str) : str :=
  str_of "enum" ++ ws1 ++ name ++ ws2 ++ str_of "{" ++ body ++ str_of "}".

(** [s.trim() === s] *)
Definition isTrimmed (s : str) : bool := str_eqb (trim s) s.

Definition optionForall (A : Type) (p : A -> bool) (o : option A) : bool :=
  match o with
  | Some a => p a
  | None => true
  end.

(** The two ends of a trimmed string are no white space. *)
Definition trimmedEnds (s : str) : Prop :=
  stopsAt isWhiteSpace s = true /\ stopsAt isWhiteSpace (rev s) = true.

(** The maximal runs of characters other than white space, in order; [cur]
    is the run being read. *)
Fixpoint wordsFrom (cur s : str) : list str :=
  match s with
  | [] => if isEmpty cur then [] else [cur]
  | x :: s' =>
      if isWhiteSpace x
      then (if isEmpty cur then wordsFrom [] s' else cur :: wordsFrom [] s')
      else wordsFrom (cur ++ [x]) s'
  end.

Definition words (s : str) : list str := wordsFrom [] s.

(** ** Well-formed fields and their text *)

Definition noLineComment (s : str) : bool :=
  match indexOf (str_of "//") s with
  | None => true
  | Some _ => false
  end.

Definition isRule (r : str) : bool :=
  negb (isEmpty r) && forallb (fun c => negb (isWhiteSpace c)) r && noLineComment r.

Definition isFieldType (t : str) : bool := negb (isEmpty t) && forallb wordOrAngle t.

Definition isComment (c : str) : bool := isTrimmed c && forallb dotChar c.

Definition wellFormedField (f : Field) : bool :=
  isWord (fieldName f) && isFieldType (fieldType f)
  && forallb isRule (fieldValidateRules f)
  && optionForall isComment (comment f).

(** The characters of the strings of a field. *)
Definition fieldChars (f : Field) : str :=
  fieldName f ++ fieldType f ++ concat (fieldValidateRules f)
  ++ match comment f with Some c => c | None => [] end.

(** A field as a line of a declaration: name, type, validation rules and
    comment, one space apart. *)
Definition commentText (c : option str) : str :=
  match c with
  | Some c => str_of " //" ++ (if isEmpty c then [] else str_of " " ++ c)
  | None => []
  end.

Definition rulesText (rules : list str) : str :=
  concat (map (fun r => str_of " " ++ r) rules).

Definition fieldLine (f : Field) : str :=
  fieldName f ++ str_of " " ++ fieldType f ++ rulesText (fieldValidateRules f)
  ++ commentText (comment f).

(** ** Declarations as text *)

Fixpoint joinWith (sep : str) (l : list str) : str :=
  match l with
  | [] => []
  | [x] => x
  | x :: l' => x ++ sep ++ joinWith sep l'
  end.

(** A value of an enum as it is written: its name, followed or not by a
    literal between parentheses. *)
Definition enumValueText (v : str * option str) : str :=
  fst v ++ match snd v with
           | Some lit => str_of " (" ++ lit ++ str_of ")"
           | None => []
           end.

Definition noComma (s : str) : bool := forallb (fun c => negb (cu_eqb c 44%N)) s.

(** The name of a value: not empty, trimmed, without comma and opening
    parenthesis. *)
Definition isEnumValue (v : str) : bool :=
  negb (isEmpty v) && isTrimmed v
  && forallb (fun c => negb (cu_eqb c 44%N || cu_eqb c 40%N)) v.

Definition isEnumItem (it : str * option str) : bool :=
  isEnumValue (fst it) && optionForall noComma (snd it).

(** The block of an entity: one line for each field. *)
Definition fieldsText (declared : list Field) : str :=
  concat (map (fun f => nl ++ str_of "  " ++ fieldLine f) declared) ++ nl.

Definition entityDeclaration (audited : bool) (name : str) (declared : list Field) : str :=
  (if audited then str_of "@EnableAudit" ++ nl else [])
  ++ str_of "entity " ++ name ++ str_of " {" ++ fieldsText declared ++ str_of "}".

Definition enumValuesText (items : list (str * option str)) : str :=
  nl ++ str_of "  "
  ++ joinWith (44%N :: nl ++ str_of "  ") (map enumValueText items) ++ nl.

Definition enumDeclaration (name : str) (items : list (str * option str)) : str :=
  str_of "enum " ++ name ++ str_of " {" ++ enumValuesText items ++ str_of "}".

Definition endpointText (e : Endpoint) : str :=
  endpointName e ++ match endpointFieldName e with
                    | Some f => str_of "(" ++ f ++ str_of ")"
                    | None => []
                    end.

Definition relationshipDeclaration (r : Relationship) : str :=
  str_of "relationship " ++ relType r ++ str_of " { " ++ endpointText (from r)
  ++ str_of " to " ++ endpointText (to r) ++ str_of " }".

Definition wellFormedEndpoint (e : Endpoint) : bool :=
  isWord (endpointName e) && optionForall isWord (endpointFieldName e).

Definition wellFormedRelationship (r : Relationship) : bool :=
  existsb (str_eqb (relType r)) cardinalities
  && wellFormedEndpoint (from r) && wellFormedEndpoint (to r).

(** A document made of declarations, one after the other, each followed by
    a line feed. *)
Definition documentOf (declarations : list str) : str :=
  concat (map (fun d => d ++ nl) declarations).

(** A block of a document is matched by a pattern from its first to its
    last character, with the given groups and whatever follows it, or no
    match of the pattern starts in it. *)
Definition blockRead (re : RegExp) (block : str * option (list (option str))) : Prop :=
  match snd block with
  | Some gs =>
      forall total i post,
        matchAt re total i (fst block ++ post) =
        Some {| index := i; endIndex := i + length (fst block); groups := gs |}
  | None =>
      forall total i post j,
        j < length (fst block) ->
        matchAt re total i (skipn j (fst block) ++ post) = None
  end.

Definition isBrace (c : cu) : bool := cu_eqb c 123%N || cu_eqb c 125%N.

Definition braceFree (s : str) : bool := forallb (fun c => negb (isBrace c)) s.

(** [s] begins with the keyword [kw], a white space character and one more
    character at least. *)
Definition keywordHeader (kw s : str) : Prop :=
  exists w c rest, s = kw ++ w :: c :: rest /\ isWhiteSpace w = true.

(** [s] reads: a header without brace that begins with one of the keywords,
    then an opening brace. *)
Definition headerOfMatch (kws : list str) (s : str) : Prop :=
  exists header rest kw,
    In kw kws /\ s = header ++ 123%N :: rest /\ braceFree header = true /\
    keywordHeader kw header.

Definition noSpace (s : str) : bool := forallb (fun c => negb (isWhiteSpace c)) s.

(** ** Documents made of declarations *)

Inductive Declaration : Type :=
| DeclareEnum : str -> list (str * option str) -> Declaration
| DeclareEntity : bool -> str -> list Field -> Declaration
| DeclareRelationship : Relationship -> Declaration.

Definition declarationText (d : Declaration) : str :=
  match d with
  | DeclareEnum name items => enumDeclaration name items
  | DeclareEntity audited name declared => entityDeclaration audited name declared
  | DeclareRelationship r => relationshipDeclaration r
  end.

(** The records declared. *)
Definition enumsOf (declarations : list Declaration) : list EnumDef :=
  flat_map
    (fun d => match d with
              | DeclareEnum name items =>
                  [ {| enumName := name;
                       values := map (fun it => {| valueName := fst it |}) items |} ]
              | _ => []
              end) declarations.

Definition entitiesOf (declarations : list Declaration) : list Entity :=
  flat_map
    (fun d => match d with
              | DeclareEntity audited name declared =>
                  [ {| entityName := name;
                       fields := declared ++ (if audited then AUDIT_FIELDS else []) |} ]
              | _ => []
              end) declarations.

Definition relationshipsOf (declarations : list Declaration) : list Relationship :=
  flat_map
    (fun d => match d with
              | DeclareRelationship r => [r]
              | _ => []
              end) declarations.

(** What [!!enums[t]] gives when the enums bear the given names, none of
    them [__proto__]: [t] is one of the names, or a key of
    [Object.prototype]. *)
Definition isEnumTypeName (names : list str) (t : str) : bool :=
  existsb (str_eqb t) names || inObjectPrototype t.

(** A name that is neither [__proto__] nor an array index. *)
Definition isPlainName (name : str) : bool :=
  isWord name && negb (str_eqb name protoKey) && negb (isIndexName name).

Definition wellFormedFieldIn (enumNames : list str) (f : Field) : bool :=
  wellFormedField f && braceFree (fieldChars f)
  && Bool.eqb (fieldTypeIsEnum f) (isEnumTypeName enumNames (fieldType f)).

Definition wellFormedDeclaration (enumNames : list str) (d : Declaration) : bool :=
  match d with
  | DeclareEnum name items =>
      isPlainName name && forallb isEnumItem items && braceFree (enumValuesText items)
  | DeclareEntity audited name declared =>
      isPlainName name && forallb (wellFormedFieldIn enumNames) declared
  | DeclareRelationship r => wellFormedRelationship r
  end.

(** The groups of the match of a pattern on a declaration of its kind. *)
Definition enumGroups (d : Declaration) : option (list (option str)) :=
  match d with
  | DeclareEnum name items =>
      Some [Some (enumDeclaration name items); Some name; Some (enumValuesText items)]
  | _ => None
  end.

Definition entityGroups (d : Declaration) : option (list (option str)) :=
  match d with
  | DeclareEntity audited name declared =>
      Some [Some (entityDeclaration audited name declared); Some name;
            Some (fieldsText declared)]
  | _ => None
  end.

Definition relationshipGroups (d : Declaration) : option (list (option str)) :=
  match d with
  | DeclareRelationship r =>
      Some [Some (relationshipDeclaration r); Some (relType r);
            Some (endpointName (from r)); endpointFieldName (from r);
            Some (endpointName (to r)); endpointFieldName (to r)]
  | _ => None
  end.

(** A declaration reads: a header, an opening brace, a block, a closing
    brace. *)
Definition declarationHeader (d : Declaration) : str :=
  match d with
  | DeclareEnum name _ => str_of "enum " ++ name ++ str_of " "
  | DeclareEntity audited name _ =>
      (if audited then str_of "@EnableAudit" ++ nl else [])
      ++ str_of "entity " ++ name ++ str_of " "
  | DeclareRelationship r => str_of "relationship " ++ relType r ++ str_of " "
  end.

Definition declarationBlock (d : Declaration) : str :=
  match d with
  | DeclareEnum _ items => enumValuesText items
  | DeclareEntity _ _ declared => fieldsText declared
  | DeclareRelationship r =>
      str_of " " ++ endpointText (from r) ++ str_of " to " ++ endpointText (to r)
      ++ str_of " "
  end.

(** The keywords a match of the pattern of a declaration begins with. *)
Definition declarationKeywords (d : Declaration) : list str :=
  match d with
  | DeclareEnum _ _ => [str_of "enum"]
  | DeclareEntity _ _ _ => [str_of "entity"; str_of "@EnableAudit"]
  | DeclareRelationship _ => [str_of "relationship"]
  end.

Definition groupOf (n : nat) (gs : list (option str)) : str :=
  match nth_error gs n with
  | Some (Some s) => s
  | _ => []
  end.

(** A match with the given groups; the records of [parseJdl] depend on
    the groups of a match only. *)
Definition matchOfGroups (gs : list (option str)) : Match :=
  {| index := 0; endIndex := 0; groups := gs |}.

(** [a] is [b] with some of its characters left out. *)
Inductive Subsequence : str -> str -> Prop :=
| subsequence_nil : Subsequence [] []
| subsequence_keep : forall x a b, Subsequence a b -> Subsequence (x :: a) (x :: b)
| subsequence_drop : forall x a b, Subsequence a b -> Subsequence a (x :: b).

(** ** More documents used as examples *)

Definition indexDoc : str := str_of "entity B { } entity 10 { } entity 9 { }".

Definition indexModel : Model :=
  {| entities := [ {| entityName := str_of "9"; fields := [] |};
                   {| entityName := str_of "10"; fields := [] |};
                   {| entityName := str_of "B"; fields := [] |} ];
     enums := []; relationships := [] |}.

Definition orderToCustomer : Relationship :=
  {| relType := str_of "ManyToOne";
     from := {| endpointName := str_of "Order";
                endpointFieldName := Some (str_of "customer") |};
     to := {| endpointName := str_of "Customer"; endpointFieldName := None |} |}.

Definition totalField : Field :=
  {| fieldName := str_of "total"; fieldType := str_of "BigDecimal";
     fieldTypeIsEnum := false;
     fieldValidateRules := [str_of "required"; str_of "min(0)"];
     comment := Some (str_of "in cents") |}.

Definition orderEntity : Entity :=
  {| entityName := str_of "Order"; fields := [totalField] |}.

Definition orderDoc : str :=
  str_of "entity Order {" ++ nl
  ++ str_of "  total BigDecimal required min(0) // in cents" ++ nl ++ str_of "}" ++ nl
  ++ str_of "relationship ManyToOne { Order(customer) to Customer }".

Definition orderModel : Model :=
  {| entities := [orderEntity]; enums := []; relationships := [orderToCustomer] |}.

Definition redeclaredDoc : str :=
  str_of "entity A { x Long } entity B { } entity A { y String }".

(** A document written from declarations. *)
Definition shopDeclarations : list Declaration :=
  [ DeclareEnum (str_of "Status")
      [ (str_of "ACTIVE", None); (str_of "CLOSED", Some (str_of "closed for good")) ];
    DeclareEntity true (str_of "Order")
      [ totalField;
        {| fieldName := str_of "status"; fieldType := str_of "Status";
           fieldTypeIsEnum := true; fieldValidateRules := []; comment := None |} ];
    DeclareRelationship orderToCustomer;
    DeclareEntity false (str_of "Customer") [] ].

Definition redeclaredModel : Model :=
  {| entities :=
       [ {| entityName := str_of "A";
            fields := [ {| fieldName := str_of "y"; fieldType := str_of "String";
                           fieldTypeIsEnum := false; fieldValidateRules := [];
                           comment := None |} ] |};
         {| entityName := str_of "B"; fields := [] |} ];
     enums := []; relationships := [] |}.

(** * Properties *)

(** ** The built-ins on small inputs *)

Example trim_both_ends :
  trim (str_of "  a b " ++ [10%N; 13%N; 160%N]) = str_of "a b".
Proof. reflexivity. Qed.

Example substring_swaps : substring (str_of "abcdef") 4 2 = str_of "cd".
Proof. reflexivity. Qed.

Example lastIndexOf_line_feed :
  lastIndexOf [10%N] (str_of "ab" ++ [10%N] ++ str_of "cd" ++ [10%N]) 4 = Some 2.
Proof. reflexivity. Qed.

Example split_comma :
  splitChar 44%N (str_of "A, B,") = [str_of "A"; str_of " B"; []].
Proof. reflexivity. Qed.

Example split_white_space :
  splitRegex whitespaceRegex (str_of " min(3)   max(5) ")
  = [[]; str_of "min(3)"; str_of "max(5)"; []].
Proof. vm_compute. reflexivity. Qed.

Example field_line_groups :
  option_map groups (regexMatch fieldRegex (str_of "age Integer min(0) // years"))
  = Some [Some (str_of "age Integer min(0) // years"); Some (str_of "age");
          Some (str_of "Integer"); Some (str_of " min(0) // years")].
Proof. vm_compute. reflexivity. Qed.

Example relationship_groups :
  option_map groups
    (exec relationshipRegex (str_of "relationship OneToMany { A to B(as) }") 0)
  = Some [Some (str_of "relationship OneToMany { A to B(as) }");
          Some (str_of "OneToMany"); Some (str_of "A"); None;
          Some (str_of "B"); Some (str_of "as")].
Proof. vm_compute. reflexivity. Qed.

(** Array indices first and in ascending order, then the other keys as
    they were created; an overwritten key keeps its place. *)
Example values_order :
  objValues
    (objSet (objSet (objSet (objSet (objSet (emptyObject nat)
       (str_of "b") 1) (str_of "10") 2) (str_of "a") 3) (str_of "9") 4) (str_of "b") 5)
  = [4; 2; 5; 3].
Proof. vm_compute. reflexivity. Qed.

(** ** Strings *)

Lemma cu_eqb_eq (a b : cu) : cu_eqb a b = true <-> a = b.
Proof. unfold cu_eqb. apply N.eqb_eq. Qed.

Lemma cu_eqb_refl (a : cu) : cu_eqb a a = true.
Proof. apply cu_eqb_eq. reflexivity. Qed.

Lemma str_eqb_eq (a b : str) : str_eqb a b = true <-> a = b.
Proof.
  revert b. induction a as [|x a IH]; intros [|y b]; simpl; split; intro H;
    try reflexivity; try discriminate.
  - apply andb_true_iff in H. destruct H as [H1 H2].
    apply cu_eqb_eq in H1. apply IH in H2. congruence.
  - inversion H; subst. rewrite cu_eqb_refl. simpl. apply IH. reflexivity.
Qed.

Lemma str_eqb_refl (a : str) : str_eqb a a = true.
Proof. apply str_eqb_eq. reflexivity. Qed.

Lemma str_eqb_neq (a b : str) : str_eqb a b = false <-> a <> b.
Proof.
  split; intro H.
  - intro E. apply str_eqb_eq in E. congruence.
  - destruct (str_eqb a b) eqn:E; [|reflexivity].
    apply str_eqb_eq in E. contradiction.
Qed.

Lemma str_eqb_sym (a b : str) : str_eqb a b = str_eqb b a.
Proof.
  destruct (str_eqb a b) eqn:E.
  - apply str_eqb_eq in E. subst. symmetry. apply str_eqb_refl.
  - symmetry. apply str_eqb_neq. apply str_eqb_neq in E. congruence.
Qed.

(** ** The matcher only moves forward *)

Lemma starGreedy_inv p s c k z :
  starGreedy p s c k = Some z -> advances 0 s k z.
Proof.
  induction s as [|x s IH]; simpl; intro H.
  - exists [], c. split; [assumption | simpl; lia].
  - destruct (p x).
    + destruct (starGreedy p s c k) eqn:E.
      * inversion H; subst. destruct (IH eq_refl) as (s1 & c1 & Hk & Hl).
        exists s1, c1. split; [assumption | simpl; lia].
      * exists (x :: s), c. split; [assumption | simpl; lia].
    + exists (x :: s), c. split; [assumption | simpl; lia].
Qed.

Lemma starLazy_inv p s c k z :
  starLazy p s c k = Some z -> advances 0 s k z.
Proof.
  induction s as [|x s IH]; simpl; intro H.
  - destruct (k [] c) eqn:E; [|discriminate].
    inversion H; subst. exists [], c. split; [assumption | simpl; lia].
  - destruct (k (x :: s) c) eqn:E.
    + inversion H; subst. exists (x :: s), c. split; [assumption | simpl; lia].
    + destruct (p x); [|discriminate].
      destruct (IH H) as (s1 & c1 & Hk & Hl).
      exists s1, c1. split; [assumption | simpl; lia].
Qed.

Lemma matcher_inv total r :
  forall s c k z,
    matcher total r s c k = Some z ->
    advances (if consumes r then 1 else 0) s k z.
Proof.
  induction r as [|p|r1 IH1 r2 IH2|r1 IH1 r2 IH2|g p|r1 IH1|n r1 IH1|];
    intros s c k z H; simpl in H.
  - exists s, c. split; [assumption | simpl; lia].
  - destruct s as [|x s]; [discriminate|].
    destruct (p x); [|discriminate].
    exists s, c. split; [assumption | simpl; lia].
  - apply IH1 in H. destruct H as (s1 & c1 & H & Hl1).
    apply IH2 in H. destruct H as (s2 & c2 & H & Hl2).
    exists s2, c2. split; [assumption|]. simpl.
    destruct (consumes r1), (consumes r2); simpl in *; lia.
  - destruct (matcher total r1 s c k) eqn:E.
    + inversion H; subst. apply IH1 in E. destruct E as (s1 & c1 & E & Hl).
      exists s1, c1. split; [assumption|]. simpl.
      destruct (consumes r1), (consumes r2); simpl in *; lia.
    + apply IH2 in H. destruct H as (s1 & c1 & H & Hl).
      exists s1, c1. split; [assumption|]. simpl.
      destruct (consumes r1), (consumes r2); simpl in *; lia.
  - destruct g; [apply starGreedy_inv in H | apply starLazy_inv in H]; exact H.
  - match type of H with
    | match ?m with _ => _ end = _ => destruct m eqn:E
    end.
    + inversion H; subst. apply IH1 in E. destruct E as (s1 & c1 & E & Hl).
      destruct (length s1 =? length s); [discriminate|].
      exists s1, c1. split; [assumption|]. simpl. lia.
    + exists s, c. split; [assumption | simpl; lia].
  - apply IH1 in H. destruct H as (s1 & c1 & H & Hl).
    eexists s1, _. split; [exact H|]. simpl. exact Hl.
  - destruct (length s =? total); [|discriminate].
    exists s, c. split; [assumption | simpl; lia].
Qed.

(** ** [exec] *)

Lemma matchAt_bounds re total i s mt :
  matchAt re total i s = Some mt ->
  index mt = i /\ i <= endIndex mt /\ endIndex mt <= i + length s /\
  (consumes (pattern re) = true -> i < endIndex mt).
Proof.
  unfold matchAt. intro H.
  destruct (matcher total (pattern re) s (repeat None (ngroups re))
              (fun s1 c1 => Some (s1, c1))) as [[s1 c1]|] eqn:E; [|discriminate].
  inversion H; subst; simpl. clear H.
  apply matcher_inv in E. destruct E as (s2 & c2 & E & Hl).
  inversion E; subst.
  split; [reflexivity|]. split; [lia|]. split; [lia|].
  intro Hc. rewrite Hc in Hl. lia.
Qed.

Lemma execFrom_bounds re total s : forall i mt,
  execFrom re total i s = Some mt ->
  i <= index mt /\ index mt <= endIndex mt /\ endIndex mt <= i + length s /\
  (consumes (pattern re) = true -> index mt < endIndex mt).
Proof.
  induction s as [|x s IH]; intros i mt H; simpl in H.
  - destruct (matchAt re total i []) eqn:E; [|discriminate].
    inversion H; subst. apply matchAt_bounds in E.
    destruct E as (E1 & E2 & E3 & E4). rewrite E1.
    split; [lia|]. split; [lia|]. split; [lia|exact E4].
  - destruct (matchAt re total i (x :: s)) eqn:E.
    + inversion H; subst. apply matchAt_bounds in E.
      destruct E as (E1 & E2 & E3 & E4). rewrite E1.
      split; [lia|]. split; [lia|]. split; [lia|exact E4].
    + apply IH in H. simpl. destruct H as (H1 & H2 & H3 & H4).
      split; [lia|]. split; [lia|]. split; [lia|exact H4].
Qed.

Lemma exec_bounds re content lastIndex mt :
  exec re content lastIndex = Some mt ->
  lastIndex <= index mt /\ index mt <= endIndex mt /\
  endIndex mt <= length content /\
  (consumes (pattern re) = true -> index mt < endIndex mt).
Proof.
  unfold exec. destruct (length content <? lastIndex) eqn:E; [discriminate|].
  apply Nat.ltb_ge in E. intro H. apply execFrom_bounds in H.
  rewrite length_skipn in H. destruct H as (H1 & H2 & H3 & H4).
  split; [lia|]. split; [lia|]. split; [lia|exact H4].
Qed.

Lemma exec_past_end re content lastIndex :
  length content < lastIndex -> exec re content lastIndex = None.
Proof.
  intro H. unfold exec. apply Nat.ltb_lt in H. now rewrite H.
Qed.


(** ** The groups that take part in every match *)

Lemma setCapture_length n v c : length (setCapture n v c) = length c.
Proof.
  revert n. induction c as [|x c IH]; intros [|n]; simpl; auto.
Qed.

Lemma setCapture_same n v c :
  n < length c -> nth_error (setCapture n v c) n = Some (Some v).
Proof.
  revert n. induction c as [|x c IH]; intros [|n] H; simpl in *; try lia.
  - reflexivity.
  - apply IH. lia.
Qed.

Lemma setCapture_other n v c i :
  i <> n -> nth_error (setCapture n v c) i = nth_error c i.
Proof.
  revert n i. induction c as [|x c IH]; intros [|n] [|i] H; simpl; auto.
  contradiction.
Qed.

Lemma extends_refl c : extends [] c c.
Proof. split; [reflexivity|]. split; [auto | intros n []]. Qed.

Lemma extends_trans l1 l2 c c1 c2 :
  extends l1 c c1 -> extends l2 c1 c2 -> extends (l1 ++ l2) c c2.
Proof.
  intros (L1 & K1 & S1) (L2 & K2 & S2). split; [congruence|]. split; [auto|].
  intros n Hn Hb. apply in_app_iff in Hn. destruct Hn as [Hn|Hn].
  - apply K2, S1; auto.
  - apply S2; [assumption | lia].
Qed.

Lemma extends_weaken l l' c c1 :
  (forall n, In n l' -> In n l) -> extends l c c1 -> extends l' c c1.
Proof. intros H (L & K & S1). split; [assumption|]. split; auto. Qed.

Lemma starGreedy_caps p s c k z :
  starGreedy p s c k = Some z -> exists s1, k s1 c = Some z.
Proof.
  induction s as [|x s IH]; simpl; intro H; [eauto|].
  destruct (p x); [|eauto].
  destruct (starGreedy p s c k) eqn:E; [|eauto].
  inversion H; subst. auto.
Qed.

Lemma starLazy_caps p s c k z :
  starLazy p s c k = Some z -> exists s1, k s1 c = Some z.
Proof.
  induction s as [|x s IH]; simpl; intro H.
  - destruct (k [] c) eqn:E; [|discriminate]. inversion H; subst. eauto.
  - destruct (k (x :: s) c) eqn:E.
    + inversion H; subst. eauto.
    + destruct (p x); [auto | discriminate].
Qed.

Lemma matcher_caps total r :
  forall s c k z,
    matcher total r s c k = Some z ->
    exists s1 c1, k s1 c1 = Some z /\ extends (sets r) c c1.
Proof.
  induction r as [|p|r1 IH1 r2 IH2|r1 IH1 r2 IH2|g p|r1 IH1|n r1 IH1|];
    intros s c k z H; simpl in H.
  - exists s, c. split; [assumption | apply extends_refl].
  - destruct s as [|x s]; [discriminate|]. destruct (p x); [|discriminate].
    exists s, c. split; [assumption | apply extends_refl].
  - apply IH1 in H. destruct H as (s1 & c1 & H & E1).
    apply IH2 in H. destruct H as (s2 & c2 & H & E2).
    exists s2, c2. split; [assumption|]. simpl. now apply extends_trans with c1.
  - destruct (matcher total r1 s c k) eqn:E.
    + inversion H; subst. apply IH1 in E. destruct E as (s1 & c1 & E & E1).
      exists s1, c1. split; [assumption|]. simpl.
      apply (extends_weaken (l := sets r1)); [|assumption].
      intros n Hn. apply filter_In in Hn. tauto.
    + apply IH2 in H. destruct H as (s1 & c1 & H & E1).
      exists s1, c1. split; [assumption|]. simpl.
      apply (extends_weaken (l := sets r2)); [|assumption].
      intros n Hn. apply filter_In in Hn. destruct Hn as [_ Hn].
      apply existsb_exists in Hn. destruct Hn as (m & Hm & Heq).
      apply Nat.eqb_eq in Heq. now subst.
  - destruct g; [apply starGreedy_caps in H | apply starLazy_caps in H];
      destruct H as [s1 H]; exists s1, c; (split; [assumption | apply extends_refl]).
  - match type of H with
    | match ?m with _ => _ end = _ => destruct m eqn:E
    end.
    + inversion H; subst. apply IH1 in E. destruct E as (s1 & c1 & E & E1).
      destruct (length s1 =? length s); [discriminate|].
      exists s1, c1. split; [assumption|]. simpl.
      apply (extends_weaken (l := sets r1)); [intros ? []|assumption].
    + exists s, c. split; [assumption | apply extends_refl].
  - apply IH1 in H. destruct H as (s1 & c1 & H & (L & K & S1)).
    eexists s1, _. split; [exact H|]. simpl sets.
    split; [now rewrite setCapture_length|]. split.
    + intros i Hi. apply K in Hi. destruct Hi as [v Hv].
      destruct (Nat.eq_dec i (n - 1)) as [->|Hne].
      * eexists. apply setCapture_same. apply nth_error_Some. congruence.
      * exists v. now rewrite setCapture_other.
    + intros m [<-|Hm] Hb.
      * eexists. apply setCapture_same. lia.
      * destruct (S1 m Hm Hb) as [v Hv].
        destruct (Nat.eq_dec (m - 1) (n - 1)) as [Heq|Hne].
        -- rewrite Heq. eexists. apply setCapture_same. lia.
        -- exists v. now rewrite setCapture_other.
  - destruct (length s =? total); [|discriminate].
    exists s, c. split; [assumption | apply extends_refl].
Qed.

(** A group that every match of the pattern sets is a string in the
    result of [exec]: [m[n]] is not [undefined]. *)
Lemma matchAt_groups re total i s mt n :
  matchAt re total i s = Some mt ->
  In n (sets (pattern re)) ->
  0 < n <= ngroups re ->
  groupOpt n mt = Some (group n mt).
Proof.
  unfold matchAt.
  destruct (matcher total (pattern re) s (repeat None (ngroups re))
              (fun s1 c1 => Some (s1, c1))) as [[s1 c1]|] eqn:E; [|discriminate].
  intros H Hn Hb. inversion H; subst; clear H.
  apply matcher_caps in E. destruct E as (s2 & c2 & E & (L & K & S1)).
  inversion E; subst. rewrite repeat_length in S1.
  destruct (S1 n Hn Hb) as [v Hv].
  unfold groupOpt, group. cbn [groups].
  destruct n as [|n]; [lia|]. cbn [nth_error].
  replace (S n - 1) with n in Hv by lia. now rewrite Hv.
Qed.

Lemma enumRegex_groups total i s mt :
  matchAt enumRegex total i s = Some mt ->
  groupOpt 1 mt = Some (group 1 mt) /\ groupOpt 2 mt = Some (group 2 mt).
Proof.
  intro H. split; apply (matchAt_groups _ _ _ _ H); simpl; auto; lia.
Qed.

Lemma entityRegex_groups total i s mt :
  matchAt entityRegex total i s = Some mt ->
  groupOpt 1 mt = Some (group 1 mt) /\ groupOpt 2 mt = Some (group 2 mt).
Proof.
  intro H. split; apply (matchAt_groups _ _ _ _ H); simpl; auto; lia.
Qed.

Lemma fieldRegex_groups total i s mt :
  matchAt fieldRegex total i s = Some mt ->
  groupOpt 1 mt = Some (group 1 mt) /\ groupOpt 2 mt = Some (group 2 mt) /\
  groupOpt 3 mt = Some (group 3 mt).
Proof.
  intro H. repeat split; apply (matchAt_groups _ _ _ _ H); simpl; auto; lia.
Qed.

Lemma relationshipRegex_groups total i s mt :
  matchAt relationshipRegex total i s = Some mt ->
  groupOpt 1 mt = Some (group 1 mt) /\ groupOpt 2 mt = Some (group 2 mt) /\
  groupOpt 4 mt = Some (group 4 mt).
Proof.
  intro H. repeat split; apply (matchAt_groups _ _ _ _ H); simpl; auto; lia.
Qed.

(** The loop of [split] on a pattern that consumes: its value does not
    depend on the fuel, once there is enough of it. *)
Lemma splitLoop_fuel re s :
  consumes (pattern re) = true ->
  forall f1 f2 p q,
    length s < f1 + q -> length s < f2 + q ->
    splitLoop f1 re s p q = splitLoop f2 re s p q.
Proof.
  intro Hc. induction f1 as [|f1 IH]; intros f2 p q H1 H2.
  - destruct f2 as [|f2]; [reflexivity|]. cbn [splitLoop].
    assert (E : (length s <=? q) = true) by (apply Nat.leb_le; lia).
    now rewrite E.
  - destruct f2 as [|f2]; cbn [splitLoop].
    + assert (E : (length s <=? q) = true) by (apply Nat.leb_le; lia).
      now rewrite E.
    + destruct (length s <=? q) eqn:E; [reflexivity|]. apply Nat.leb_gt in E.
      destruct (matchAt re (length s) q (skipn q s)) as [mt|] eqn:Em.
      * apply matchAt_bounds in Em. destruct Em as (_ & _ & _ & Hlt).
        specialize (Hlt Hc).
        destruct (endIndex mt =? p); [apply IH; lia|].
        f_equal. apply IH; lia.
      * apply IH; lia.
Qed.

(** ** The [while] loop over the matches *)

Lemma execFrom_matchAt re total s : forall i mt,
  execFrom re total i s = Some mt ->
  exists j t, matchAt re total j t = Some mt.
Proof.
  induction s as [|x s IH]; intros i mt H; cbn [execFrom] in H.
  - destruct (matchAt re total i []) eqn:E; [|discriminate].
    inversion H; subst. eauto.
  - destruct (matchAt re total i (x :: s)) eqn:E.
    + inversion H; subst. eauto.
    + eauto.
Qed.

Lemma exec_matchAt re content lastIndex mt :
  exec re content lastIndex = Some mt ->
  exists j t, matchAt re (length content) j t = Some mt.
Proof.
  unfold exec. destruct (length content <? lastIndex); [discriminate|].
  apply execFrom_matchAt.
Qed.

(** A loop on a pattern that consumes, whose body returns on every match
    of the pattern, ends and returns: its state has gone through the
    matches that are not commented, in order. *)
Lemma execLoop_fold (St : Type) re content (body : Match -> St -> Outcome St)
    (step : Match -> St -> St) :
  consumes (pattern re) = true ->
  (forall total i s mt st,
     matchAt re total i s = Some mt -> body mt st = Returned (step mt st)) ->
  forall fuel lastIndex st,
    lastIndex <= length content ->
    length content < fuel + lastIndex ->
    execLoop re content body fuel lastIndex st =
    Returned (fold_left (fun acc mt => step mt acc)
                (filter (fun mt => negb (isCommented content (index mt)))
                   (matchesFrom re content fuel lastIndex)) st).
Proof.
  intros Hc Hbody. induction fuel as [|fuel IH]; intros lastIndex st Hl Hf.
  - lia.
  - cbn [execLoop matchesFrom].
    destruct (exec re content lastIndex) as [mt|] eqn:E; [|reflexivity].
    pose proof (exec_bounds _ _ _ E) as (E1 & E2 & E3 & E4). specialize (E4 Hc).
    destruct (exec_matchAt _ _ _ E) as (j & t & Hm).
    cbn [filter]. destruct (isCommented content (index mt)); cbn [negb].
    + apply IH; lia.
    + rewrite (Hbody _ _ _ _ st Hm). cbn [bind fold_left]. apply IH; lia.
Qed.

Lemma consumes_enumRegex : consumes (pattern enumRegex) = true.
Proof. reflexivity. Qed.

Lemma consumes_entityRegex : consumes (pattern entityRegex) = true.
Proof. reflexivity. Qed.

Lemma consumes_relationshipRegex : consumes (pattern relationshipRegex) = true.
Proof. reflexivity. Qed.

Lemma fold_left_snoc (A B : Type) (f : A -> B) (l : list A) : forall acc,
  fold_left (fun acc x => acc ++ [f x]) l acc = acc ++ map f l.
Proof.
  induction l as [|x l IH]; intros acc; simpl.
  - now rewrite app_nil_r.
  - rewrite IH, <- app_assoc. reflexivity.
Qed.

Lemma enumBody_returns total i s mt enums :
  matchAt enumRegex total i s = Some mt ->
  enumBody mt enums = Returned (objSet enums (group 1 mt) (enumOfMatch mt)).
Proof.
  intro H. apply enumRegex_groups in H. destruct H as [_ H2].
  unfold enumBody, groupObject. now rewrite H2.
Qed.

Lemma entityBody_returns enums total i s mt entities :
  matchAt entityRegex total i s = Some mt ->
  entityBody enums mt entities =
  Returned (objSet entities (group 1 mt) (entityOfMatch enums mt)).
Proof.
  intro H. apply entityRegex_groups in H. destruct H as [_ H2].
  unfold entityBody, groupObject. now rewrite H2.
Qed.

(** [parseJdl] returns, and its model is made of the declarations the
    three loops accept. *)
Lemma parseJdl_tables (jdlContent : str) :
  parseJdl jdlContent =
  Returned
    {| entities := objValues (entityTable (stripBlockComments jdlContent));
       enums := objValues (enumTable (stripBlockComments jdlContent));
       relationships :=
         map relationshipOfMatch
           (declarationsOf relationshipRegex (stripBlockComments jdlContent)) |}.
Proof.
  unfold parseJdl. set (c := stripBlockComments jdlContent).
  rewrite (@execLoop_fold _ enumRegex c enumBody
             (fun mt o => objSet o (group 1 mt) (enumOfMatch mt))
             consumes_enumRegex);
    [| intros; eapply enumBody_returns; eassumption | lia | unfold loopFuel; lia].
  cbn [bind]. fold (declarationsOf enumRegex c). fold (enumTable c).
  rewrite (@execLoop_fold _ entityRegex c (entityBody (enumTable c))
             (fun mt o => objSet o (group 1 mt) (entityOfMatch (enumTable c) mt))
             consumes_entityRegex);
    [| intros; eapply entityBody_returns; eassumption | lia | unfold loopFuel; lia].
  cbn [bind]. fold (declarationsOf entityRegex c). fold (entityTable c).
  rewrite (@execLoop_fold _ relationshipRegex c relationshipBody
             (fun mt l => l ++ [relationshipOfMatch mt])
             consumes_relationshipRegex);
    [| reflexivity | lia | unfold loopFuel; lia].
  cbn [bind]. fold (declarationsOf relationshipRegex c).
  rewrite fold_left_snoc. reflexivity.
Qed.

Lemma declarationsOf_In re content mt :
  In mt (declarationsOf re content) <->
  In mt (matchesFrom re content (loopFuel content) 0) /\
  isCommented content (index mt) = false.
Proof.
  unfold declarationsOf. rewrite filter_In, negb_true_iff. reflexivity.
Qed.

(** ** Plain objects *)

Lemma assocGet_assocSet (V : Type) (l : list (str * V)) k v k' :
  assocGet (assocSet l k v) k' = if str_eqb k' k then Some v else assocGet l k'.
Proof.
  induction l as [|[k0 v0] l IH]; simpl.
  - reflexivity.
  - destruct (str_eqb k k0) eqn:E; simpl.
    + apply str_eqb_eq in E. subst k0. destruct (str_eqb k' k); reflexivity.
    + rewrite IH. destruct (str_eqb k' k0) eqn:E0; [|reflexivity].
      apply str_eqb_eq in E0. subst k0.
      rewrite str_eqb_sym, E. reflexivity.
Qed.

Lemma assocGet_In (V : Type) (l : list (str * V)) k v :
  assocGet l k = Some v -> In (k, v) l.
Proof.
  induction l as [|[k0 v0] l IH]; simpl; [discriminate|].
  destruct (str_eqb k k0) eqn:E.
  - apply str_eqb_eq in E. intro H. inversion H; subst. now left.
  - intro H. right. now apply IH.
Qed.

Lemma In_assocGet (V : Type) (l : list (str * V)) k v :
  NoDup (map fst l) -> In (k, v) l -> assocGet l k = Some v.
Proof.
  induction l as [|[k0 v0] l IH]; simpl; [contradiction|].
  intros Hnd [H|H].
  - inversion H; subst. now rewrite str_eqb_refl.
  - inversion Hnd; subst. destruct (str_eqb k k0) eqn:E.
    + apply str_eqb_eq in E. subst k0. exfalso. apply H2.
      change k with (fst (k, v)). now apply in_map.
    + now apply IH.
Qed.

Lemma assocSet_keys (V : Type) (l : list (str * V)) k v k' :
  In k' (map fst (assocSet l k v)) <-> k' = k \/ In k' (map fst l).
Proof.
  induction l as [|[k0 v0] l IH]; simpl.
  - intuition.
  - destruct (str_eqb k k0) eqn:E; simpl.
    + apply str_eqb_eq in E. subst k0. intuition.
    + rewrite IH. intuition.
Qed.

Lemma assocSet_NoDup (V : Type) (l : list (str * V)) k v :
  NoDup (map fst l) -> NoDup (map fst (assocSet l k v)).
Proof.
  induction l as [|[k0 v0] l IH]; simpl; intro H.
  - constructor; [intros []|constructor].
  - inversion H; subst. destruct (str_eqb k k0) eqn:E; simpl.
    + apply str_eqb_eq in E. subst k0. now constructor.
    + constructor; [|now apply IH].
      rewrite assocSet_keys. intros [->|Hin]; [|contradiction].
      now rewrite str_eqb_refl in E.
Qed.

Lemma find_last_split (M : Type) (f : M -> bool) l m :
  find f (rev l) = Some m <->
  exists l1 l2, l = l1 ++ m :: l2 /\ f m = true /\ forallb (fun x => negb (f x)) l2 = true.
Proof.
  induction l as [|x l IH] using rev_ind; simpl.
  - split; [discriminate|]. intros (l1 & l2 & H & _). now destruct l1.
  - rewrite rev_unit. simpl. destruct (f x) eqn:E.
    + split.
      * intro H. inversion H; subst. exists l, []. auto.
      * intros (l1 & l2 & H & Hm & Hl2).
        destruct l2 as [|y l2] using rev_ind.
        -- apply app_inj_tail in H. destruct H as [_ ->]. reflexivity.
        -- clear IHl2. rewrite app_comm_cons, app_assoc in H.
           apply app_inj_tail in H. destruct H as [_ ->].
           rewrite forallb_app in Hl2. simpl in Hl2. rewrite E in Hl2.
           simpl in Hl2. rewrite andb_false_r in Hl2. discriminate.
    + rewrite IH. split.
      * intros (l1 & l2 & H & Hm & Hl2). exists l1, (l2 ++ [x]).
        subst l. rewrite <- app_assoc. simpl. split; [reflexivity|].
        split; [assumption|]. rewrite forallb_app. simpl. now rewrite Hl2, E.
      * intros (l1 & l2 & H & Hm & Hl2).
        destruct l2 as [|y l2] using rev_ind.
        -- apply app_inj_tail in H. destruct H as [_ ->]. congruence.
        -- clear IHl2. rewrite app_comm_cons, app_assoc in H.
           apply app_inj_tail in H. destruct H as [-> ->].
           rewrite forallb_app in Hl2. apply andb_true_iff in Hl2.
           exists l1, l2. tauto.
Qed.

Lemma find_none_iff (M : Type) (f : M -> bool) l :
  find f (rev l) = None <-> forall m, In m l -> f m = false.
Proof.
  split.
  - intros H m Hin. apply (find_none _ _ H). now apply in_rev in Hin.
  - intro H. destruct (find f (rev l)) eqn:E; [|reflexivity].
    apply find_some in E. destruct E as [Hin Hf].
    apply in_rev in Hin. rewrite (H _ Hin) in Hf. discriminate.
Qed.


Section Table.

Variables (M V : Type) (key : M -> str) (val : M -> V).

Local Abbreviation assign := (fun (o : JsObject V) (m : M) => objSet o (key m) (val m)).

Lemma table_snoc l m o :
  fold_left assign (l ++ [m]) o = assign (fold_left assign l o) m.
Proof. now rewrite fold_left_app. Qed.

Lemma table_NoDup l o :
  NoDup (map fst (own o)) -> NoDup (map fst (own (fold_left assign l o))).
Proof.
  revert o. induction l as [|m l IH]; intros o H; simpl; [assumption|].
  apply IH. unfold objSet.
  destruct (str_eqb (key m) protoKey); simpl; [assumption|].
  now apply assocSet_NoDup.
Qed.

(** An assignment to [__proto__] never creates an own property. *)
Lemma table_no_proto_key l o :
  assocGet (own o) protoKey = None ->
  assocGet (own (fold_left assign l o)) protoKey = None.
Proof.
  revert o. induction l as [|m l IH]; intros o H; simpl; [assumption|].
  apply IH. unfold objSet.
  destruct (str_eqb (key m) protoKey) eqn:E; simpl; [assumption|].
  rewrite assocGet_assocSet, str_eqb_sym, E. assumption.
Qed.

(** Last writer wins: the own property [k] holds the value of the last
    assignment to [k]. *)
Lemma table_get l o k :
  str_eqb k protoKey = false ->
  assocGet (own (fold_left assign l o)) k =
  match find (fun m => str_eqb k (key m)) (rev l) with
  | Some m => Some (val m)
  | None => assocGet (own o) k
  end.
Proof.
  intro Hk. induction l as [|m l IH] using rev_ind; simpl; [reflexivity|].
  rewrite table_snoc, rev_unit. simpl.
  unfold objSet at 1.
  destruct (str_eqb (key m) protoKey) eqn:E; simpl.
  - destruct (str_eqb k (key m)) eqn:E1; [|exact IH].
    apply str_eqb_eq in E1. subst k. congruence.
  - rewrite assocGet_assocSet. destruct (str_eqb k (key m)); [reflexivity|exact IH].
Qed.

End Table.

(** ** [Object.values] *)

Lemma insertByIndex_perm (V : Type) i (e : str * V) l :
  Permutation (map snd (insertByIndex i e l)) (e :: map snd l).
Proof.
  induction l as [|[j e'] l IH]; simpl; [reflexivity|].
  destruct (i <? j)%N; simpl; [reflexivity|].
  rewrite IH. apply perm_swap.
Qed.

Lemma indexedEntries_perm (V : Type) (l : list (str * V)) :
  Permutation (map snd (indexedEntries l)) (filter (@isIndexed V) l).
Proof.
  unfold indexedEntries.
  assert (G : forall acc,
    Permutation
      (map snd (fold_left
         (fun acc e => match arrayIndex (fst e) with
                       | Some i => insertByIndex i e acc
                       | None => acc
                       end) l acc))
      (map snd acc ++ filter (@isIndexed V) l)).
  { induction l as [|e l IH]; intros acc; simpl.
    - now rewrite app_nil_r.
    - rewrite IH. unfold isIndexed at 2. destruct (arrayIndex (fst e)); simpl.
      + rewrite insertByIndex_perm. simpl. apply Permutation_middle.
      + reflexivity. }
  exact (G []).
Qed.

Lemma filter_partition_perm (A : Type) (f : A -> bool) (l : list A) :
  Permutation (filter f l ++ filter (fun x => negb (f x)) l) l.
Proof.
  induction l as [|x l IH]; simpl; [reflexivity|].
  destruct (f x); simpl.
  - now constructor.
  - rewrite <- Permutation_middle. now constructor.
Qed.

Lemma ownEntries_perm (V : Type) (o : JsObject V) :
  Permutation (ownEntries o) (own o).
Proof.
  unfold ownEntries. rewrite indexedEntries_perm.
  rewrite <- (filter_partition_perm (@isIndexed V) (own o)) at 3.
  reflexivity.
Qed.

Lemma objValues_perm (V : Type) (o : JsObject V) :
  Permutation (objValues o) (map snd (own o)).
Proof. unfold objValues. apply Permutation_map, ownEntries_perm. Qed.

Lemma objValues_In (V : Type) (o : JsObject V) v :
  In v (objValues o) <-> exists k, In (k, v) (own o).
Proof.
  split.
  - intro H. apply (Permutation_in _ (objValues_perm o)) in H.
    apply in_map_iff in H. destruct H as [[k v'] [E H]]. simpl in E. subst.
    now exists k.
  - intros [k H]. apply (Permutation_in _ (Permutation_sym (objValues_perm o))).
    apply in_map_iff. now exists (k, v).
Qed.

Lemma filter_perm (A : Type) (f : A -> bool) (l l' : list A) :
  Permutation l l' -> Permutation (filter f l) (filter f l').
Proof.
  induction 1 as [|x l l' H IH|x y l|l l' l'' H1 IH1 H2 IH2]; simpl.
  - constructor.
  - destruct (f x); [now constructor | assumption].
  - destruct (f x), (f y); try reflexivity. apply perm_swap.
  - now transitivity (filter f l').
Qed.

Section TableValues.

Variables (M V : Type) (key : M -> str) (val : M -> V).

Local Abbreviation table l :=
  (fold_left (fun o m => objSet o (key m) (val m)) l (emptyObject V)).

Local Abbreviation lastFor m l2 := (forall m', In m' l2 -> key m' <> key m).

Lemma table_own_iff l k v :
  In (k, v) (own (table l)) <->
  k <> protoKey /\
  exists l1 m l2, l = l1 ++ m :: l2 /\ key m = k /\ val m = v /\ lastFor m l2.
Proof.
  assert (Hnd : NoDup (map fst (own (table l)))).
  { apply table_NoDup. simpl. constructor. }
  assert (Hnp : assocGet (own (table l)) protoKey = None).
  { apply table_no_proto_key. reflexivity. }
  split.
  - intro H. apply (In_assocGet _ _ _ Hnd) in H.
    assert (Hk : str_eqb k protoKey = false).
    { destruct (str_eqb k protoKey) eqn:E; [|reflexivity].
      apply str_eqb_eq in E. subst k. congruence. }
    split; [now apply str_eqb_neq|].
    rewrite (table_get key val l (emptyObject V) _ Hk) in H.
    destruct (find (fun m => str_eqb k (key m)) (rev l)) as [m|] eqn:E;
      [|discriminate].
    inversion H; subst. apply find_last_split in E.
    destruct E as (l1 & l2 & -> & Hm & Hl2).
    apply str_eqb_eq in Hm. exists l1, m, l2. repeat split; auto.
    intros m' Hin Heq. rewrite forallb_forall in Hl2. specialize (Hl2 _ Hin).
    rewrite Hm, Heq, str_eqb_refl in Hl2. discriminate.
  - intros (Hk & l1 & m & l2 & -> & <- & <- & Hlast).
    apply assocGet_In. apply str_eqb_neq in Hk.
    rewrite (table_get key val _ (emptyObject V) _ Hk).
    assert (E : find (fun m0 => str_eqb (key m) (key m0)) (rev (l1 ++ m :: l2)) = Some m).
    { apply find_last_split. exists l1, l2. split; [reflexivity|].
      split; [apply str_eqb_refl|]. apply forallb_forall. intros m' Hin.
      apply negb_true_iff, str_eqb_neq. intro Heq. now apply (Hlast _ Hin). }
    now rewrite E.
Qed.

Lemma table_values_iff l v :
  In v (objValues (table l)) <->
  exists l1 m l2,
    l = l1 ++ m :: l2 /\ key m <> protoKey /\ val m = v /\ lastFor m l2.
Proof.
  rewrite objValues_In. split.
  - intros [k H]. apply table_own_iff in H.
    destruct H as (Hk & l1 & m & l2 & Hl & Hkey & Hv & Hlast).
    exists l1, m, l2. subst k. auto.
  - intros (l1 & m & l2 & Hl & Hk & Hv & Hlast). exists (key m).
    apply table_own_iff. split; [assumption|]. now exists l1, m, l2.
Qed.

Lemma table_owns l k :
  (exists v, assocGet (own (table l)) k = Some v) <->
  k <> protoKey /\ exists m, In m l /\ key m = k.
Proof.
  assert (Hnp : assocGet (own (table l)) protoKey = None).
  { apply table_no_proto_key. reflexivity. }
  split.
  - intros [v H].
    assert (Hk : str_eqb k protoKey = false).
    { destruct (str_eqb k protoKey) eqn:E; [|reflexivity].
      apply str_eqb_eq in E. subst k. congruence. }
    split; [now apply str_eqb_neq|].
    rewrite (table_get key val l (emptyObject V) _ Hk) in H.
    destruct (find (fun m => str_eqb k (key m)) (rev l)) as [m|] eqn:E;
      [|discriminate].
    apply find_some in E. destruct E as [Hin Hm]. apply in_rev in Hin.
    apply str_eqb_eq in Hm. now exists m.
  - intros (Hk & m & Hin & Hm). apply str_eqb_neq in Hk.
    rewrite (table_get key val l (emptyObject V) _ Hk).
    destruct (find (fun m => str_eqb k (key m)) (rev l)) as [m0|] eqn:E.
    + now exists (val m0).
    + exfalso. rewrite find_none_iff in E. specialize (E _ Hin).
      subst k. now rewrite str_eqb_refl in E.
Qed.

(** The values of the table whose key is [k]: one if [k] was assigned
    and is not [__proto__], none otherwise. *)
Lemma table_values_count l (name : V -> str) k :
  (forall m, name (val m) = key m) ->
  k <> protoKey ->
  (exists m, In m l /\ key m = k) ->
  length (filter (fun v => str_eqb (name v) k) (objValues (table l))) = 1.
Proof.
  intros Hname Hk Hex.
  assert (Hnd : NoDup (map fst (own (table l)))).
  { apply table_NoDup. simpl. constructor. }
  assert (Hown : forall k' v, In (k', v) (own (table l)) -> name v = k').
  { intros k' v H. apply table_own_iff in H.
    destruct H as (_ & l1 & m & l2 & _ & <- & <- & _). apply Hname. }
  destruct (proj2 (table_owns l k) (conj Hk Hex)) as [v Hv].
  apply assocGet_In in Hv.
  rewrite (Permutation_length
             (filter_perm _ (objValues_perm (table l)))).
  revert Hnd Hown Hv. generalize (own (table l)). intros ol.
  induction ol as [|[k0 v0] ol IH]; simpl; intros Hnd Hown Hv; [contradiction|].
  inversion Hnd as [|? ? Hnin Hnd']; subst.
  assert (E0 : name v0 = k0) by (apply Hown; now left).
  destruct Hv as [Hv|Hv].
  - inversion Hv as [[Ek Ev]]. rewrite Ev, Ek in E0. rewrite E0, str_eqb_refl.
    simpl. f_equal. rewrite Ek in Hnin. clear Ek Ev E0.
    apply length_zero_iff_nil.
    destruct (filter (fun v1 => str_eqb (name v1) k) (map snd ol)) as [|w ws] eqn:E;
      [reflexivity|].
    exfalso. assert (Hw : In w (filter (fun v1 => str_eqb (name v1) k) (map snd ol))).
    { rewrite E. now left. }
    apply filter_In in Hw. destruct Hw as [Hw1 Hw2].
    apply in_map_iff in Hw1. destruct Hw1 as [[k1 v1] [Es Hin1]]. simpl in Es. subst v1.
    apply str_eqb_eq in Hw2.
    assert (k1 = k). { rewrite <- Hw2. symmetry. apply Hown. now right. }
    subst k1. apply Hnin. change k with (fst (k, w)). now apply in_map.
  - assert (k0 <> k).
    { intros ->. apply Hnin. change k with (fst (k, v)). now apply in_map. }
    rewrite E0. apply str_eqb_neq in H. rewrite H. apply IH; auto.
Qed.

End TableValues.

(** ** The fields of an entity *)

Lemma declaredFields_flat_map enums fieldLines :
  declaredFields enums fieldLines =
  flat_map (fun line => match fieldOfLine enums line with
                        | Some f => [f]
                        | None => []
                        end) fieldLines.
Proof.
  unfold declaredFields.
  assert (G : forall acc,
    fold_left (fun fields line => match fieldOfLine enums line with
                                  | Some f => fields ++ [f]
                                  | None => fields
                                  end) fieldLines acc =
    acc ++ flat_map (fun line => match fieldOfLine enums line with
                                 | Some f => [f]
                                 | None => []
                                 end) fieldLines).
  { induction fieldLines as [|line ls IH]; intros acc; simpl.
    - now rewrite app_nil_r.
    - rewrite IH. destruct (fieldOfLine enums line); simpl.
      + now rewrite <- app_assoc.
      + reflexivity. }
  exact (G []).
Qed.


Lemma declaredFields_In enums fieldLines f :
  In f (declaredFields enums fieldLines) ->
  exists line, In line fieldLines /\ fieldOfLine enums line = Some f.
Proof.
  rewrite declaredFields_flat_map, in_flat_map. intros (line & Hin & Hf).
  exists line. split; [assumption|].
  destruct (fieldOfLine enums line) as [f'|]; [|contradiction].
  destruct Hf as [->|[]]. reflexivity.
Qed.

Lemma fieldOfLine_flag enums line f :
  fieldOfLine enums line = Some f ->
  fieldTypeIsEnum f = objTruthy enumProps enums (fieldType f).
Proof.
  unfold fieldOfLine. destruct (regexMatch fieldRegex line) as [fm|]; [|discriminate].
  destruct (indexOf (str_of "//") (group 3 fm)); intro H; inversion H; reflexivity.
Qed.

(** The entities of the model are the records of the accepted entity
    declarations, each built from the last declaration of its name. *)
Lemma entities_of_model jdlContent model e :
  parseJdl jdlContent = Returned model ->
  In e (entities model) ->
  exists l1 mt l2,
    declarationsOf entityRegex (stripBlockComments jdlContent) = l1 ++ mt :: l2 /\
    group 1 mt <> protoKey /\
    e = entityOfMatch (enumTable (stripBlockComments jdlContent)) mt /\
    (forall mt', In mt' l2 -> group 1 mt' <> group 1 mt).
Proof.
  rewrite parseJdl_tables. intro H. inversion H; subst model; clear H. simpl.
  unfold entityTable. intro Hin.
  apply (table_values_iff (group 1)
           (entityOfMatch (enumTable (stripBlockComments jdlContent)))) in Hin.
  destruct Hin as (l1 & mt & l2 & Hl & Hk & Hv & Hlast).
  exists l1, mt, l2. auto.
Qed.

(** C1, amended.  The fields of every entity of the model are its declared
    fields followed by no audit field or by the four of [AUDIT_FIELDS];
    an audit field has [fieldTypeIsEnum] false whatever enums the document
    declares; for a declared field whose type name is not a key the enum
    table inherits from its prototype, [fieldTypeIsEnum] is true if and
    only if the type name is the name of an enum declaration accepted
    anywhere in the comment-stripped document, before or after the
    entity. *)
Theorem enum_flag_of_declared_fields jdlContent model e :
  parseJdl jdlContent = Returned model ->
  In e (entities model) ->
  exists declared audit,
    fields e = declared ++ audit /\
    (audit = [] \/ audit = AUDIT_FIELDS) /\
    (forall f, In f audit -> fieldTypeIsEnum f = false) /\
    forall f,
      In f declared ->
      objInherits enumProps (enumTable (stripBlockComments jdlContent))
        (fieldType f) = false ->
      (fieldTypeIsEnum f = true <->
       exists mt,
         In mt (declarationsOf enumRegex (stripBlockComments jdlContent)) /\
         group 1 mt = fieldType f).
Proof.
  intros Hp Hin.
  destruct (@entities_of_model _ _ _ Hp Hin) as (l1 & mt & l2 & Hl & Hk & He & Hlast).
  set (c := stripBlockComments jdlContent) in *.
  exists (declaredFields (enumTable c) (fieldLinesOf (group 2 mt))),
         (if hasAuditAnnotation mt then AUDIT_FIELDS else []).
  split; [|split; [|split]].
  - subst e. unfold entityOfMatch. simpl.
    destruct (hasAuditAnnotation mt); [reflexivity | now rewrite app_nil_r].
  - destruct (hasAuditAnnotation mt); auto.
  - intros f Hf. destruct (hasAuditAnnotation mt); [|contradiction].
    simpl in Hf. decompose [or] Hf; subst; try reflexivity; contradiction.
  - intros f Hf Hinh. apply declaredFields_In in Hf.
    destruct Hf as (line & _ & Hf). rewrite (fieldOfLine_flag _ _ Hf).
    pose proof (table_owns (group 1) enumOfMatch
                  (declarationsOf enumRegex c) (fieldType f)) as Hown.
    change (fold_left _ (declarationsOf enumRegex c) (emptyObject EnumDef))
      with (enumTable c) in Hown.
    unfold objTruthy. unfold objInherits in Hinh.
    destruct (assocGet (own (enumTable c)) (fieldType f)) as [v|] eqn:E.
    + split; [intros _|reflexivity].
      destruct (proj1 Hown (ex_intro _ v eq_refl)) as (_ & m & Hm1 & Hm2).
      now exists m.
    + apply orb_false_iff in Hinh. destruct Hinh as [Hinh Hp3].
      apply orb_false_iff in Hinh. destruct Hinh as [Hp1 Hp2].
      rewrite Hp1.
      assert (Hfalse :
        match proto (enumTable c) with
        | Some p => match enumProps p (fieldType f) with
                    | Some b => b
                    | None => inObjectPrototype (fieldType f)
                    end
        | None => inObjectPrototype (fieldType f)
        end = false).
      { destruct (proto (enumTable c)) as [p|]; [|exact Hp3].
        destruct (enumProps p (fieldType f)); [discriminate|exact Hp3]. }
      rewrite Hfalse. split; [discriminate|].
      intros (m & Hm1 & Hm2). exfalso.
      destruct (proj2 Hown) as [v Hv]; [|congruence].
      split; [now apply str_eqb_neq | now exists m].
Qed.

(** Last writer wins, for every name but [__proto__]. *)
Lemma last_entity_declaration_wins jdlContent model l1 mt l2 :
  parseJdl jdlContent = Returned model ->
  declarationsOf entityRegex (stripBlockComments jdlContent) = l1 ++ mt :: l2 ->
  (forall mt', In mt' l2 -> group 1 mt' <> group 1 mt) ->
  group 1 mt <> protoKey ->
  length (filter (fun e => str_eqb (entityName e) (group 1 mt)) (entities model)) = 1 /\
  In (entityOfMatch (enumTable (stripBlockComments jdlContent)) mt) (entities model).
Proof.
  rewrite parseJdl_tables. intros H Hl Hlast Hk.
  inversion H; subst model; clear H. simpl. unfold entityTable. split.
  - apply (table_values_count (group 1)
             (entityOfMatch (enumTable (stripBlockComments jdlContent)))
             (declarationsOf entityRegex (stripBlockComments jdlContent))
             entityName); auto.
    exists mt. split; [rewrite Hl; apply in_elt | reflexivity].
  - apply (table_values_iff (group 1)
             (entityOfMatch (enumTable (stripBlockComments jdlContent)))).
    exists l1, mt, l2. auto.
Qed.

Lemma last_enum_declaration_wins jdlContent model l1 mt l2 :
  parseJdl jdlContent = Returned model ->
  declarationsOf enumRegex (stripBlockComments jdlContent) = l1 ++ mt :: l2 ->
  (forall mt', In mt' l2 -> group 1 mt' <> group 1 mt) ->
  group 1 mt <> protoKey ->
  length (filter (fun e => str_eqb (enumName e) (group 1 mt)) (enums model)) = 1 /\
  In (enumOfMatch mt) (enums model).
Proof.
  rewrite parseJdl_tables. intros H Hl Hlast Hk.
  inversion H; subst model; clear H. simpl. unfold enumTable. split.
  - apply (table_values_count (group 1) enumOfMatch
             (declarationsOf enumRegex (stripBlockComments jdlContent))
             enumName); auto.
    exists mt. split; [rewrite Hl; apply in_elt | reflexivity].
  - apply (table_values_iff (group 1) enumOfMatch).
    exists l1, mt, l2. auto.
Qed.

(** C8.  Two uncommented declarations of an entity named [__proto__]: the
    loop accepts both, and the model holds no entity at all, where the last
    declaration should have won. *)
Theorem duplicate_proto_entity_lost :
  map (group 1) (declarationsOf entityRegex (stripBlockComments protoDoc))
  = [str_of "__proto__"; str_of "__proto__"] /\
  parseJdl protoDoc = Returned {| entities := []; enums := []; relationships := [] |}.
Proof. split; vm_compute; reflexivity. Qed.

(** ** [split] and the field lines *)

Lemma splitChar_app c a b :
  splitChar c (a ++ c :: b) = splitChar c a ++ splitChar c b.
Proof.
  induction a as [|x a IH]; simpl.
  - now rewrite cu_eqb_refl.
  - destruct (cu_eqb x c); [now rewrite IH|].
    rewrite IH. destruct (splitChar c a) as [|piece rest] eqn:E; [|reflexivity].
    exfalso. destruct a as [|y a]; simpl in E; [discriminate|].
    destruct (cu_eqb y c); [discriminate|]. now destruct (splitChar c a).
Qed.

Lemma splitChar_single c s : ~ In c s -> splitChar c s = [s].
Proof.
  induction s as [|x s IH]; simpl; intro H; [reflexivity|].
  destruct (cu_eqb x c) eqn:E.
  - apply cu_eqb_eq in E. subst. exfalso. apply H. now left.
  - rewrite IH; [reflexivity|]. intro Hin. apply H. now right.
Qed.






(** ** [getTsType] *)

Lemma inObjectPrototype_In k :
  inObjectPrototype k = true -> In k objectPrototypeKeys.
Proof.
  unfold inObjectPrototype. rewrite existsb_exists.
  intros (k' & Hin & E). apply str_eqb_eq in E. now subst.
Qed.

(** C6.  [constructor] is not a key of the table, and the mapper does not
    return it unchanged: the property read finds [Object.prototype.constructor]
    and the mapper returns that function. *)
Theorem getTsType_inherited_key :
  getTsType (VString (str_of "constructor")) = VFunction (str_of "Object") /\
  getTsType (VString (str_of "constructor")) <> VString (str_of "constructor") /\
  assocGet typeMappings (str_of "constructor") = None.
Proof. split; [|split]; vm_compute; [reflexivity | discriminate | reflexivity]. Qed.

(** Outside the keys of [Object.prototype] the mapper is the table with
    the identity as fallback. *)
Lemma getTsType_table (t : str) :
  inObjectPrototype t = false ->
  getTsType (VString t) =
  match assocGet typeMappings t with
  | Some ts => VString ts
  | None => VString t
  end.
Proof.
  intro H. unfold getTsType, typeMappingsGet. simpl toPropertyKey.
  destruct (assocGet typeMappings t) as [ts|] eqn:E.
  - apply assocGet_In in E. simpl in E.
    decompose [or] E; try contradiction;
      match goal with Heq : _ = (t, ts) |- _ => inversion Heq; subst; reflexivity end.
  - unfold objectPrototypeGet. rewrite H.
    assert (E1 : str_eqb t protoKey = false).
    { destruct (str_eqb t protoKey) eqn:E1; [|reflexivity].
      apply str_eqb_eq in E1. subst. discriminate. }
    assert (E2 : str_eqb t (str_of "constructor") = false).
    { destruct (str_eqb t (str_of "constructor")) eqn:E2; [|reflexivity].
      apply str_eqb_eq in E2. subst. discriminate. }
    now rewrite E1, E2.
Qed.

Lemma getTsType_function name :
  In name (str_of "Object" :: objectPrototypeKeys) ->
  getTsType (VFunction name) = VFunction name.
Proof.
  intro H. simpl in H.
  decompose [or] H; try contradiction; subst; vm_compute; reflexivity.
Qed.

(** C7.  The type mapper is idempotent: every value it returns for a type
    name is mapped to itself. *)
Theorem getTsType_idempotent (t : str) :
  getTsType (getTsType (VString t)) = getTsType (VString t).
Proof.
  unfold getTsType at 2 3. unfold typeMappingsGet. simpl toPropertyKey.
  destruct (assocGet typeMappings t) as [ts|] eqn:E.
  - apply assocGet_In in E. simpl in E.
    decompose [or] E; try contradiction;
      match goal with Heq : _ = (t, ts) |- _ => inversion Heq; subst; reflexivity end.
  - unfold objectPrototypeGet.
    destruct (str_eqb t protoKey); [reflexivity|].
    destruct (str_eqb t (str_of "constructor")); [reflexivity|].
    destruct (inObjectPrototype t) eqn:E3.
    + simpl truthy. cbv iota. apply getTsType_function. right.
      now apply inObjectPrototype_In.
    + rewrite (getTsType_table t E3), E. reflexivity.
Qed.

(** ** The relationships of a render context *)

Section RenderContext.

Variable camelCase : str -> str.
Variable upperFirst : str -> str.
Variable toLowerCase : str -> str.

(** C3.  The relationships of the render context of an entity are, in
    the order of their declaration, exactly the relationships whose
    [from] endpoint bears the name of the entity; each carries the name
    of the target entity, its Pascal-case form and a plural made of the
    lower-cased name with the suffix [s]. *)
Theorem context_relationships (entity : Entity) (allRelationships : list Relationship) :
  let ctx := entityConfig camelCase upperFirst toLowerCase entity allRelationships in
  map rel (configRelationships ctx) =
    filter (fun r => str_eqb (endpointName (from r)) (entityName entity))
      allRelationships
  /\ (forall r, In r (map rel (configRelationships ctx)) <->
                In r allRelationships /\ endpointName (from r) = entityName entity)
  /\ (forall v, In v (configRelationships ctx) ->
        otherEntityName v = endpointName (to (rel v)) /\
        otherEntityNamePascalCase v =
          upperFirst (camelCase (endpointName (to (rel v)))) /\
        otherEntityNamePlural v =
          toLowerCase (endpointName (to (rel v))) ++ str_of "s").
Proof.
  simpl. split; [|split].
  - rewrite map_map. simpl. apply map_id.
  - intro r. rewrite map_map. simpl. rewrite map_id, filter_In, str_eqb_eq.
    reflexivity.
  - intros v Hv. apply in_map_iff in Hv. destruct Hv as (r & <- & _).
    simpl. auto.
Qed.

End RenderContext.

Lemma context_relationships_witness :
  let orderToCustomer :=
    {| relType := str_of "ManyToOne";
       from := {| endpointName := str_of "Order"; endpointFieldName := None |};
       to := {| endpointName := str_of "Customer"; endpointFieldName := None |} |} in
  let customerToOrder :=
    {| relType := str_of "OneToMany";
       from := {| endpointName := str_of "Customer"; endpointFieldName := None |};
       to := {| endpointName := str_of "Order"; endpointFieldName := None |} |} in
  let ctx :=
    entityConfig (fun s => s) (fun s => s) toLowerCaseAscii
      {| entityName := str_of "Order"; fields := [] |}
      [orderToCustomer; customerToOrder; orderToCustomer] in
  map rel (configRelationships ctx) = [orderToCustomer; orderToCustomer] /\
  map otherEntityNamePlural (configRelationships ctx)
  = [str_of "customers"; str_of "customers"].
Proof.
  intros orderToCustomer customerToOrder ctx. subst ctx. split.
  - rewrite (proj1 (context_relationships (fun s => s) (fun s => s) toLowerCaseAscii
                      {| entityName := str_of "Order"; fields := [] |}
                      [orderToCustomer; customerToOrder; orderToCustomer])).
    reflexivity.
  - reflexivity.
Defined.

(** ** The block comment stripper *)

Lemma starLazy_close total s c :
  starLazy anyChar s c
    (fun s1 c1 => matcher total (Lit (str_of "*/")) s1 c1 (fun s2 c2 => Some (s2, c2)))
  = option_map (fun post => (post, c)) (afterClose s).
Proof.
  induction s as [|x s IH].
  - reflexivity.
  - cbn [starLazy afterClose]. rewrite IH. clear IH.
    change (str_of "*/") with [42%N; 47%N].
    cbn [Lit matcher startsWith anyChar skipn].
    destruct (cu_eqb 42%N x) eqn:E1; [|reflexivity].
    destruct s as [|y s]; [reflexivity|].
    destruct (cu_eqb 47%N y) eqn:E2; reflexivity.
Qed.

Lemma blockComment_matchAt total i s :
  matchAt blockCommentRegex total i s =
  if startsWith (str_of "/*") s then
    match afterClose (skipn 2 s) with
    | Some post =>
        Some {| index := i;
                endIndex := i + (length s - length post);
                groups := [Some (firstn (length s - length post) s)] |}
    | None => None
    end
  else None.
Proof.
  unfold matchAt. cbn [blockCommentRegex pattern ngroups SeqL repeat].
  change (str_of "/*") with [47%N; 42%N].
  cbn [Lit matcher startsWith].
  destruct s as [|x s]; [reflexivity|].
  destruct (cu_eqb 47%N x); [|reflexivity].
  destruct s as [|y s]; [reflexivity|].
  destruct (cu_eqb 42%N y); [|reflexivity].
  cbn [andb skipn]. rewrite starLazy_close.
  destruct (afterClose s); reflexivity.
Qed.

Lemma blockComment_matchAt_shift total total' d i s :
  matchAt blockCommentRegex total (d + i) s =
  option_map (shiftMatch d) (matchAt blockCommentRegex total' i s).
Proof.
  rewrite !blockComment_matchAt.
  destruct (startsWith (str_of "/*") s); [|reflexivity].
  destruct (afterClose (skipn 2 s)); [|reflexivity].
  unfold shiftMatch. cbn [option_map index endIndex groups].
  now rewrite Nat.add_assoc.
Qed.

Lemma blockComment_execFrom_shift total total' d s : forall i,
  execFrom blockCommentRegex total (d + i) s =
  option_map (shiftMatch d) (execFrom blockCommentRegex total' i s).
Proof.
  induction s as [|x s IH]; intro i; cbn [execFrom];
    rewrite (blockComment_matchAt_shift total total' d i);
    destruct (matchAt blockCommentRegex total' i _); try reflexivity.
  rewrite <- IH. replace (d + S i) with (S (d + i)) by lia. reflexivity.
Qed.

Lemma skipn_app_length (A : Type) (a s : list A) n :
  skipn (length a + n) (a ++ s) = skipn n s.
Proof.
  induction a as [|x a IH]; simpl; [reflexivity | exact IH].
Qed.

Lemma blockComment_exec_shift a s p :
  exec blockCommentRegex (a ++ s) (length a + p) =
  option_map (shiftMatch (length a)) (exec blockCommentRegex s p).
Proof.
  unfold exec. rewrite length_app.
  destruct (length s <? p) eqn:E.
  - apply Nat.ltb_lt in E.
    assert (E' : (length a + length s <? length a + p) = true) by (apply Nat.ltb_lt; lia).
    now rewrite E'.
  - apply Nat.ltb_ge in E.
    assert (E' : (length a + length s <? length a + p) = false) by (apply Nat.ltb_ge; lia).
    rewrite E', skipn_app_length. apply blockComment_execFrom_shift.
Qed.

Lemma substring_shift (a s : str) p q :
  substring (a ++ s) (length a + p) (length a + q) = substring s p q.
Proof.
  unfold substring.
  rewrite Nat.add_min_distr_l, Nat.add_max_distr_l, skipn_app_length.
  f_equal. lia.
Qed.

(** The loop of [replace] on a suffix of the input. *)
Lemma blockComment_replaceLoop_shift a s : forall fuel p q,
  replaceLoop fuel blockCommentRegex (a ++ s) [] (length a + p) (length a + q) =
  replaceLoop fuel blockCommentRegex s [] p q.
Proof.
  induction fuel as [|fuel IH]; intros p q; cbn [replaceLoop].
  - unfold substringFrom. apply skipn_app_length.
  - rewrite blockComment_exec_shift.
    destruct (exec blockCommentRegex s p) as [mt|]; cbn [option_map].
    + cbn [shiftMatch index endIndex]. rewrite substring_shift. f_equal.
      assert (E : (length a + endIndex mt =? length a + index mt)
                  = (endIndex mt =? index mt)).
      { destruct (endIndex mt =? index mt) eqn:E.
        - apply Nat.eqb_eq in E. apply Nat.eqb_eq. lia.
        - apply Nat.eqb_neq in E. apply Nat.eqb_neq. lia. }
      rewrite E. destruct (endIndex mt =? index mt).
      * rewrite <- IH.
        replace (length a + S (endIndex mt)) with (S (length a + endIndex mt)) by lia.
        reflexivity.
      * apply IH.
    + unfold substringFrom. apply skipn_app_length.
Qed.

(** Enough fuel: the value of the loop does not depend on it. *)
Lemma replaceLoop_fuel re content replacement : forall f1 f2 p q,
  length content < f1 + p -> length content < f2 + p ->
  replaceLoop f1 re content replacement p q =
  replaceLoop f2 re content replacement p q.
Proof.
  induction f1 as [|f1 IH]; intros f2 p q H1 H2.
  - destruct f2 as [|f2]; [reflexivity|]. cbn [replaceLoop].
    rewrite exec_past_end by lia. reflexivity.
  - destruct f2 as [|f2]; cbn [replaceLoop].
    + rewrite exec_past_end by lia. reflexivity.
    + destruct (exec re content p) as [mt|] eqn:E; [|reflexivity].
      apply exec_bounds in E. destruct E as (E1 & E2 & E3 & _).
      f_equal. f_equal.
      destruct (Nat.eqb_spec (endIndex mt) (index mt)); apply IH; lia.
Qed.

Lemma indexOf_None_startsWith p s : indexOf p s = None -> startsWith p s = false.
Proof.
  destruct s; simpl; destruct (startsWith p _); congruence.
Qed.

Lemma indexOf_None_tail p x s : indexOf p (x :: s) = None -> indexOf p s = None.
Proof.
  cbn [indexOf]. destruct (startsWith p (x :: s)); [discriminate|].
  destruct (indexOf p s); [discriminate | reflexivity].
Qed.

Lemma startsWith2_app a b x s rest :
  startsWith [a; b] (x :: s ++ rest) =
  match s with
  | [] => cu_eqb a x && startsWith [b] rest
  | _ :: _ => startsWith [a; b] (x :: s)
  end.
Proof.
  destruct s as [|y s]; simpl.
  - destruct rest; simpl; now rewrite ?andb_true_r.
  - reflexivity.
Qed.

Lemma afterClose_body body post :
  indexOf (str_of "*/") body = None ->
  afterClose (body ++ str_of "*/" ++ post) = Some post.
Proof.
  change (str_of "*/") with [42%N; 47%N].
  induction body as [|x body IH]; intro H.
  - reflexivity.
  - cbn [app afterClose]. change (str_of "*/") with [42%N; 47%N].
    change (x :: body ++ 42%N :: 47%N :: post)
      with (x :: body ++ [42%N; 47%N] ++ post).
    rewrite startsWith2_app.
    pose proof (indexOf_None_startsWith _ _ H) as Hs.
    apply indexOf_None_tail in H.
    destruct body as [|y body].
    + cbn [startsWith app]. change (cu_eqb 47%N 42%N) with false.
      cbn [andb]. rewrite andb_false_r. apply (IH H).
    + cbv beta iota. rewrite Hs. apply (IH H).
Qed.

Lemma blockComment_execFrom_plain total pre rest : forall i,
  indexOf (str_of "/*") pre = None ->
  startsWith [42%N] rest = false ->
  execFrom blockCommentRegex total i (pre ++ rest) =
  execFrom blockCommentRegex total (i + length pre) rest.
Proof.
  change (str_of "/*") with [47%N; 42%N].
  induction pre as [|x pre IH]; intros i H Hrest.
  - simpl. now rewrite Nat.add_0_r.
  - cbn [app execFrom]. rewrite blockComment_matchAt.
    change (str_of "/*") with [47%N; 42%N]. rewrite startsWith2_app.
    pose proof (indexOf_None_startsWith _ _ H) as Hs.
    apply indexOf_None_tail in H.
    assert (E : match pre with
                | [] => cu_eqb 47%N x && startsWith [42%N] rest
                | _ :: _ => startsWith [47%N; 42%N] (x :: pre)
                end = false).
    { destruct pre; [now rewrite Hrest, andb_false_r | exact Hs]. }
    rewrite E, (IH (S i) H Hrest). f_equal. simpl. lia.
Qed.

Lemma firstn_app_length (A : Type) (a s : list A) : firstn (length a) (a ++ s) = a.
Proof.
  induction a as [|x a IH]; simpl; [now destruct s | now rewrite IH].
Qed.

(** A complete comment after comment-free text is the first match. *)
Lemma blockComment_exec_first pre body post :
  indexOf (str_of "/*") pre = None ->
  indexOf (str_of "*/") body = None ->
  exists g,
    exec blockCommentRegex (pre ++ str_of "/*" ++ body ++ str_of "*/" ++ post) 0 =
    Some {| index := length pre;
            endIndex := length (pre ++ str_of "/*" ++ body ++ str_of "*/");
            groups := g |}.
Proof.
  intros Hpre Hbody. unfold exec. cbn [Nat.ltb Nat.leb skipn].
  rewrite blockComment_execFrom_plain; [|assumption|reflexivity].
  set (s := str_of "/*" ++ body ++ str_of "*/" ++ post).
  assert (E : matchAt blockCommentRegex
                (length (pre ++ s)) (0 + length pre) s =
              Some {| index := length pre;
                      endIndex := length pre + (length s - length post);
                      groups := [Some (firstn (length s - length post) s)] |}).
  { rewrite blockComment_matchAt. subst s.
    change (str_of "/*" ++ body ++ str_of "*/" ++ post)
      with (47%N :: 42%N :: body ++ str_of "*/" ++ post) at 1 2.
    cbn [startsWith skipn]. change (str_of "/*") with [47%N; 42%N].
    cbn [startsWith cu_eqb]. rewrite !N.eqb_refl. cbn [andb].
    rewrite (afterClose_body _ _ Hbody). reflexivity. }
  assert (Hend : length pre + (length s - length post)
                 = length (pre ++ str_of "/*" ++ body ++ str_of "*/")).
  { subst s. rewrite !length_app. lia. }
  rewrite Hend in E. cbn [Nat.add] in E.
  exists [Some (firstn (length s - length post) s)].
  destruct s as [|x s'] eqn:Es; [discriminate|].
  cbn [execFrom Nat.add]. now rewrite E.
Qed.

Lemma substring_prefix (a s : str) : substring (a ++ s) 0 (length a) = a.
Proof.
  unfold substring. rewrite Nat.max_r, Nat.min_l by lia.
  rewrite Nat.sub_0_r. simpl. apply firstn_app_length.
Qed.

(** The first comment of a document goes, what follows is stripped in
    turn. *)
Lemma strip_first_comment pre body post :
  indexOf (str_of "/*") pre = None ->
  indexOf (str_of "*/") body = None ->
  stripBlockComments (pre ++ str_of "/*" ++ body ++ str_of "*/" ++ post) =
  pre ++ stripBlockComments post.
Proof.
  intros Hpre Hbody. unfold stripBlockComments, replace.
  destruct (blockComment_exec_first pre body post Hpre Hbody) as [g E].
  set (rhs := replaceLoop (S (length post)) blockCommentRegex post [] 0 0).
  cbn [replaceLoop]. rewrite E. cbn [index endIndex app].
  rewrite substring_prefix. f_equal. subst rhs.
  assert (Hne : (length (pre ++ str_of "/*" ++ body ++ str_of "*/") =? length pre) = false).
  { apply Nat.eqb_neq. rewrite !length_app. simpl. lia. }
  rewrite Hne.
  set (a := pre ++ str_of "/*" ++ body ++ str_of "*/").
  replace (pre ++ str_of "/*" ++ body ++ str_of "*/" ++ post) with (a ++ post)
    by (subst a; now rewrite <- !app_assoc).
  pose proof (blockComment_replaceLoop_shift a post (length (a ++ post)) 0 0) as Hs.
  rewrite !Nat.add_0_r in Hs. rewrite Hs.
  apply replaceLoop_fuel; subst a; rewrite ?length_app; simpl; lia.
Qed.

Lemma hasBlockComment_execFrom total s : forall i,
  hasBlockComment s = false -> execFrom blockCommentRegex total i s = None.
Proof.
  induction s as [|x s IH]; intros i H.
  - reflexivity.
  - cbn [hasBlockComment] in H. apply orb_false_iff in H. destruct H as [H1 H2].
    cbn [execFrom]. rewrite blockComment_matchAt, (IH _ H2).
    destruct (startsWith (str_of "/*") (x :: s)); [|reflexivity].
    destruct (afterClose (skipn 2 (x :: s))); [discriminate | reflexivity].
Qed.

(** Nothing to strip. *)
Lemma strip_no_comment s :
  hasBlockComment s = false -> stripBlockComments s = s.
Proof.
  intro H. unfold stripBlockComments, replace. cbn [replaceLoop].
  unfold exec. cbn [Nat.ltb Nat.leb skipn].
  now rewrite hasBlockComment_execFrom.
Qed.

Lemma indexOf_None_hasBlockComment s :
  indexOf (str_of "/*") s = None -> hasBlockComment s = false.
Proof.
  induction s as [|x s IH]; intro H; [reflexivity|].
  cbn [hasBlockComment]. rewrite (indexOf_None_startsWith _ _ H).
  apply indexOf_None_tail in H. now rewrite IH.
Qed.

Lemma strip_comment_after pre body post :
  closedText pre ->
  indexOf (str_of "*/") body = None ->
  stripBlockComments (pre ++ str_of "/*" ++ body ++ str_of "*/" ++ post) =
  stripBlockComments pre ++ stripBlockComments post.
Proof.
  intros Hpre Hbody. induction Hpre as [p Hp|p b rest Hp Hb Hrest IH].
  - rewrite (strip_first_comment _ _ post Hp Hbody).
    now rewrite (strip_no_comment _ (indexOf_None_hasBlockComment _ Hp)).
  - rewrite (strip_first_comment _ _ rest Hp Hb).
    replace ((p ++ str_of "/*" ++ b ++ str_of "*/" ++ rest)
             ++ str_of "/*" ++ body ++ str_of "*/" ++ post)
      with (p ++ str_of "/*" ++ b ++ str_of "*/"
              ++ (rest ++ str_of "/*" ++ body ++ str_of "*/" ++ post))
      by now rewrite <- !app_assoc.
    rewrite (strip_first_comment _ _ _ Hp Hb), IH. now rewrite app_assoc.
Qed.

Lemma startsWith_split p s :
  startsWith p s = true -> s = p ++ skipn (length p) s.
Proof.
  revert s. induction p as [|x p IH]; intros s H; [reflexivity|].
  destruct s as [|y s]; [discriminate|]. cbn [startsWith] in H.
  apply andb_true_iff in H. destruct H as [H1 H2].
  apply cu_eqb_eq in H1. subst y. cbn [length skipn app]. f_equal. now apply IH.
Qed.

Lemma afterClose_Some t post :
  afterClose t = Some post -> exists body, t = body ++ str_of "*/" ++ post.
Proof.
  induction t as [|x t IH]; cbn [afterClose].
  - discriminate.
  - destruct (startsWith (str_of "*/") (x :: t)) eqn:E.
    + intro H. inversion H; subst. exists []. now apply startsWith_split in E.
    + intro H. destruct (IH H) as [body ->]. now exists (x :: body).
Qed.

Lemma afterClose_app a b : afterClose (a ++ str_of "*/" ++ b) <> None.
Proof.
  induction a as [|x a IH].
  - discriminate.
  - cbn [app afterClose].
    destruct (startsWith (str_of "*/") (x :: a ++ str_of "*/" ++ b)); [discriminate|].
    exact IH.
Qed.

(** [hasBlockComment]: the document holds a start marker and, after it,
    an end marker. *)
Lemma hasBlockComment_spec s :
  hasBlockComment s = true <->
  exists pre body post, s = pre ++ str_of "/*" ++ body ++ str_of "*/" ++ post.
Proof.
  split.
  - induction s as [|x s IH]; cbn [hasBlockComment]; [discriminate|].
    intro H. apply orb_true_iff in H. destruct H as [H|H].
    + apply andb_true_iff in H. destruct H as [H1 H2].
      apply startsWith_split in H1.
      destruct (afterClose (skipn 2 (x :: s))) as [post|] eqn:E; [|discriminate].
      apply afterClose_Some in E. destruct E as [body E].
      exists [], body, post. cbn [app]. rewrite H1.
      change (length (str_of "/*")) with 2. now rewrite E.
    + destruct (IH H) as (pre & body & post & ->). now exists (x :: pre), body, post.
  - intros (pre & body & post & ->). induction pre as [|x pre IH].
    + change (hasBlockComment ([] ++ str_of "/*" ++ body ++ str_of "*/" ++ post))
        with ((true && match afterClose (body ++ str_of "*/" ++ post) with
                       | Some _ => true
                       | None => false
                       end)
              || hasBlockComment (42%N :: body ++ str_of "*/" ++ post)).
      pose proof (afterClose_app body post) as H.
      destruct (afterClose (body ++ str_of "*/" ++ post)); [reflexivity | contradiction].
    + cbn [app hasBlockComment]. rewrite IH. apply orb_true_r.
Qed.

(** ** [isCommented] *)

Lemma lastIndexOf_plain line rest : forall i acc,
  ~ In 10%N line ->
  startsWith [10%N] rest = false ->
  lastIndexOfFrom [10%N] (line ++ rest) i (i + length line) acc = acc.
Proof.
  induction line as [|x line IH]; intros i acc Hl Hr.
  - cbn [app length]. rewrite Nat.add_0_r.
    destruct rest as [|y rest]; cbn [lastIndexOfFrom]; rewrite Nat.ltb_irrefl.
    + reflexivity.
    + rewrite Hr.
      destruct rest; cbn [lastIndexOfFrom];
        rewrite (proj2 (Nat.ltb_lt i (S i)) (Nat.lt_succ_diag_r i)); reflexivity.
  - cbn [app length lastIndexOfFrom].
    assert (E : (i + S (length line) <? i) = false) by (apply Nat.ltb_ge; lia).
    rewrite E. cbn [startsWith].
    assert (Ex : cu_eqb 10%N x = false).
    { destruct (cu_eqb 10%N x) eqn:Ex; [|reflexivity].
      apply cu_eqb_eq in Ex. subst. exfalso. apply Hl. now left. }
    rewrite Ex. cbn [andb].
    replace (i + S (length line)) with (S i + length line) by lia.
    apply IH; [|assumption]. intro Hin. apply Hl. now right.
Qed.

Lemma lastIndexOf_newline b s pos : forall i acc,
  i + length b <= pos ->
  lastIndexOfFrom [10%N] (b ++ 10%N :: s) i pos acc =
  lastIndexOfFrom [10%N] s (S (i + length b)) pos (Some (i + length b)).
Proof.
  induction b as [|x b IH]; intros i acc H.
  - cbn [app length lastIndexOfFrom] in *.
    assert (E : (pos <? i) = false) by (apply Nat.ltb_ge; lia).
    rewrite E, Nat.add_0_r. reflexivity.
  - cbn [app length lastIndexOfFrom] in *.
    assert (E : (pos <? i) = false) by (apply Nat.ltb_ge; lia).
    rewrite E, IH by lia. f_equal; [|f_equal]; lia.
Qed.

Lemma substring_middle (a l r : str) :
  substring (a ++ l ++ r) (length a) (length a + length l) = l.
Proof.
  unfold substring. rewrite Nat.min_l, Nat.max_r by lia.
  rewrite skipn_app, skipn_all, Nat.sub_diag. cbn [skipn app].
  replace (length a + length l - length a) with (length l) by lia.
  apply firstn_app_length.
Qed.

(** The text between the last line feed before [index] and [index] is
    what [isCommented] trims and tests. *)
Lemma isCommented_line before line rest :
  before = [] \/ (exists b, before = b ++ [10%N]) ->
  ~ In 10%N line ->
  startsWith [10%N] rest = false ->
  isCommented (before ++ line ++ rest) (length before + length line) =
  startsWith (str_of "//") (trim line).
Proof.
  intros Hb Hl Hr. unfold isCommented, lastIndexOf.
  assert (E : match lastIndexOfFrom [10%N] (before ++ line ++ rest) 0
                      (length before + length line) None with
              | Some lastNewline => lastNewline + 1
              | None => 0
              end = length before).
  { destruct Hb as [->|[b ->]].
    - pose proof (lastIndexOf_plain line rest 0 None Hl Hr) as P.
      cbn [app length Nat.add] in *. now rewrite P.
    - rewrite <- app_assoc. cbn [app].
      rewrite lastIndexOf_newline by (rewrite length_app; simpl; lia).
      rewrite length_app. cbn [length Nat.add].
      replace (length b + 1 + length line) with (S (length b) + length line) by lia.
      rewrite (lastIndexOf_plain line rest (S (length b)) _ Hl Hr). lia. }
  rewrite E, substring_middle. reflexivity.
Qed.

Lemma trimStart_indent indent s :
  forallb isWhiteSpace indent = true ->
  trimStart (indent ++ s) = trimStart s.
Proof.
  induction indent as [|x indent IH]; cbn [forallb app trimStart]; intro H.
  - reflexivity.
  - apply andb_true_iff in H. destruct H as [H1 H2]. now rewrite H1, IH.
Qed.

Lemma trimStart_keeps_marker t :
  exists t', trimStart (t ++ [47%N; 47%N]) = t' ++ [47%N; 47%N].
Proof.
  induction t as [|x t IH]; cbn [app trimStart].
  - now exists [].
  - destruct (isWhiteSpace x); [exact IH | now exists (x :: t)].
Qed.

Lemma trim_line_comment indent text :
  forallb isWhiteSpace indent = true ->
  startsWith (str_of "//") (trim (indent ++ str_of "//" ++ text)) = true.
Proof.
  intro H. unfold trim, trimEnd. rewrite (@trimStart_indent indent _ H).
  change (str_of "//") with [47%N; 47%N]. cbn [app trimStart].
  change (isWhiteSpace 47%N) with false. cbv iota.
  cbn [rev]. rewrite <- app_assoc. cbn [app].
  destruct (trimStart_keeps_marker (rev text)) as [t' ->].
  rewrite rev_app_distr. reflexivity.
Qed.

(** A position after a line-comment marker on its line is commented. *)
Lemma isCommented_after_marker before indent text rest :
  before = [] \/ (exists b, before = b ++ [10%N]) ->
  forallb isWhiteSpace indent = true ->
  ~ In 10%N indent ->
  ~ In 10%N text ->
  startsWith [10%N] rest = false ->
  isCommented (before ++ (indent ++ str_of "//" ++ text) ++ rest)
    (length before + length (indent ++ str_of "//" ++ text)) = true.
Proof.
  intros Hb Hi Hni Hnt Hr. rewrite isCommented_line; auto.
  - now apply trim_line_comment.
  - rewrite !in_app_iff. intros [H|[H|H]]; auto.
    simpl in H. decompose [or] H; discriminate || contradiction.
Qed.

(** ** Matching a declaration *)

Lemma matcher_Lit total l s c k :
  matcher total (Lit l) (l ++ s) c k = k s c.
Proof.
  revert s. induction l as [|x l IH]; intro s.
  - reflexivity.
  - destruct l as [|y l].
    + cbn [Lit matcher app]. now rewrite cu_eqb_refl.
    + change (Lit (x :: y :: l)) with (Seq (Class (cu_eqb x)) (Lit (y :: l))).
      cbn [matcher]. change ((x :: y :: l) ++ s) with (x :: (y :: l) ++ s).
      cbv beta iota. rewrite cu_eqb_refl. apply IH.
Qed.

Lemma starGreedy_run p w rest c k z :
  forallb p w = true ->
  stopsAt p rest = true ->
  k rest c = Some z ->
  starGreedy p (w ++ rest) c k = Some z.
Proof.
  intros Hw Hr Hk. induction w as [|x w IH].
  - cbn [app]. destruct rest as [|y rest]; cbn [starGreedy]; [assumption|].
    cbn [stopsAt] in Hr. apply negb_true_iff in Hr. now rewrite Hr.
  - cbn [forallb] in Hw. apply andb_true_iff in Hw. destruct Hw as [H1 H2].
    cbn [app starGreedy]. now rewrite H1, (IH H2).
Qed.

Lemma matcher_Plus_run total p w rest c k z :
  w <> [] ->
  forallb p w = true ->
  stopsAt p rest = true ->
  k rest c = Some z ->
  matcher total (Plus true p) (w ++ rest) c k = Some z.
Proof.
  intros Hne Hw Hr Hk. destruct w as [|x w]; [contradiction|].
  cbn [forallb] in Hw. apply andb_true_iff in Hw. destruct Hw as [H1 H2].
  unfold Plus. cbn [matcher app]. rewrite H1. now apply starGreedy_run.
Qed.

Lemma firstn_consumed (w rest : str) :
  firstn (length (w ++ rest) - length rest) (w ++ rest) = w.
Proof.
  rewrite length_app. replace (length w + length rest - length rest) with (length w) by lia.
  apply firstn_app_length.
Qed.

Lemma isWhiteSpace_not_word x : isWhiteSpace x = true -> isWordChar x = false.
Proof.
  unfold isWhiteSpace, isWordChar. intro H.
  destruct ((48 <=? x)%N && (x <=? 57)%N || (65 <=? x)%N && (x <=? 90)%N
            || (x =? 95)%N || (97 <=? x)%N && (x <=? 122)%N) eqn:E; [|reflexivity].
  exfalso.
  repeat rewrite ?orb_true_iff, ?andb_true_iff, ?N.leb_le, ?N.eqb_eq in H.
  repeat rewrite ?orb_true_iff, ?andb_true_iff, ?N.leb_le, ?N.eqb_eq in E.
  lia.
Qed.

Lemma stopsAt_word_space ws2 s :
  forallb isWhiteSpace ws2 = true ->
  stopsAt isWordChar (ws2 ++ str_of "{" ++ s) = true.
Proof.
  destruct ws2 as [|x ws2]; cbn [forallb app stopsAt]; intro H.
  - reflexivity.
  - apply andb_true_iff in H. destruct H as [H _].
    now rewrite (isWhiteSpace_not_word _ H).
Qed.

Lemma stopsAt_space_word name s :
  name <> [] ->
  forallb isWordChar name = true ->
  stopsAt isWhiteSpace (name ++ s) = true.
Proof.
  destruct name as [|x name]; [contradiction|]. cbn [forallb app stopsAt].
  intros _ H. apply andb_true_iff in H. destruct H as [H _].
  destruct (isWhiteSpace x) eqn:E; [|reflexivity].
  apply isWhiteSpace_not_word in E. congruence.
Qed.

Lemma matcher_Seq_Opt total r rest s c k z :
  matcher total r s c
    (fun s1 c1 => if length s1 =? length s then None
                  else matcher total rest s1 c1 k) = Some z ->
  matcher total (Seq (Opt r) rest) s c k = Some z.
Proof. cbn [matcher]. now intros ->. Qed.

Section AuditedDeclaration.

Variables ws ws1 name ws2 body : str.

Hypothesis ws_nonempty : ws <> [].
Hypothesis ws_space : forallb isWhiteSpace ws = true.
Hypothesis ws1_nonempty : ws1 <> [].
Hypothesis ws1_space : forallb isWhiteSpace ws1 = true.
Hypothesis name_nonempty : name <> [].
Hypothesis name_word : forallb isWordChar name = true.
Hypothesis ws2_space : forallb isWhiteSpace ws2 = true.
Hypothesis body_nonempty : body <> [].
Hypothesis body_inside : forallb notCloseBrace body = true.

Local Abbreviation entityPart post :=
  (str_of "entity" ++ ws1 ++ name ++ ws2 ++ str_of "{" ++ body ++ str_of "}" ++ post).

Lemma entity_tail_matches total post c k z :
  k post (setCapture 1 body (setCapture 0 name c)) = Some z ->
  matcher total
    (SeqL [Lit (str_of "entity"); Plus true isWhiteSpace;
           Group 1 (Plus true isWordChar); Star true isWhiteSpace;
           Lit (str_of "{"); Group 2 (Plus true notCloseBrace);
           Lit (str_of "}")])
    (entityPart post) c k = Some z.
Proof.
  intro Hk. cbn [SeqL]. cbn [matcher]. rewrite matcher_Lit.
  apply matcher_Plus_run; auto.
  { apply stopsAt_space_word; auto. }
  cbv beta. apply matcher_Plus_run; auto.
  { apply stopsAt_word_space; auto. }
  cbv beta. apply starGreedy_run; auto.
  cbv beta. rewrite matcher_Lit.
  apply matcher_Plus_run; auto.
  cbv beta. rewrite matcher_Lit.
  cbn [Nat.sub].
  rewrite (firstn_consumed body (str_of "}" ++ post)).
  rewrite (firstn_consumed name (ws2 ++ str_of "{" ++ body ++ str_of "}" ++ post)).
  exact Hk.
Qed.

Lemma audited_entity_matchAt total i post :
  exists whole,
    matchAt entityRegex total i (str_of "@EnableAudit" ++ ws ++ entityPart post) =
    Some {| index := i;
            endIndex := i + length (str_of "@EnableAudit" ++ ws ++ entityPart []);
            groups := [Some whole; Some name; Some body] |}.
Proof.
  set (s := str_of "@EnableAudit" ++ ws ++ entityPart post).
  assert (E : matcher total (pattern entityRegex) s (repeat None (ngroups entityRegex))
                (fun s1 c1 => Some (s1, c1)) = Some (post, [Some name; Some body])).
  { cbn [entityRegex pattern ngroups repeat].
    apply matcher_Seq_Opt. cbn [matcher]. subst s. rewrite matcher_Lit.
    apply matcher_Plus_run; auto.
    assert (Hlen : (length (entityPart post)
                    =? length (str_of "@EnableAudit" ++ ws ++ entityPart post)) = false).
    { apply Nat.eqb_neq.
      rewrite (length_app (str_of "@EnableAudit")), (length_app ws).
      destruct ws; [contradiction | simpl length; lia]. }
    rewrite Hlen. apply entity_tail_matches. reflexivity. }
  unfold matchAt. rewrite E. eexists. f_equal. f_equal.
  subst s. rewrite !length_app. simpl length. lia.
Qed.

End AuditedDeclaration.

(** ** The text of a match of the entity pattern *)

Lemma matcher_Lit_inv total l : forall s c k z,
  matcher total (Lit l) s c k = Some z ->
  exists s', s = l ++ s' /\ k s' c = Some z.
Proof.
  induction l as [|x l IH]; intros s c k z H.
  - exists s. auto.
  - destruct l as [|y l].
    + cbn [Lit matcher] in H. destruct s as [|x' s]; [discriminate|].
      destruct (cu_eqb x x') eqn:E; [|discriminate].
      apply cu_eqb_eq in E. subst x'. exists s. auto.
    + change (Lit (x :: y :: l)) with (Seq (Class (cu_eqb x)) (Lit (y :: l))) in H.
      cbn [matcher] in H. destruct s as [|x' s]; [discriminate|].
      destruct (cu_eqb x x') eqn:E; [|discriminate].
      apply cu_eqb_eq in E. subst x'.
      apply IH in H. destruct H as (s' & -> & H). exists s'. auto.
Qed.

Lemma starGreedy_run_inv p s c k z :
  starGreedy p s c k = Some z ->
  exists w s', s = w ++ s' /\ forallb p w = true /\ k s' c = Some z.
Proof.
  induction s as [|x s IH]; cbn [starGreedy]; intro H.
  - exists [], []. auto.
  - destruct (p x) eqn:E.
    + destruct (starGreedy p s c k) eqn:E1.
      * inversion H; subst. destruct (IH eq_refl) as (w & s' & -> & Hw & Hk).
        exists (x :: w), s'. cbn [forallb app]. rewrite E, Hw. auto.
      * exists [], (x :: s). auto.
    + exists [], (x :: s). auto.
Qed.

Lemma matcher_Plus_inv total p s c k z :
  matcher total (Plus true p) s c k = Some z ->
  exists w s', s = w ++ s' /\ w <> [] /\ forallb p w = true /\ k s' c = Some z.
Proof.
  unfold Plus. cbn [matcher]. destruct s as [|x s]; [discriminate|].
  destruct (p x) eqn:E; [|discriminate]. intro H.
  apply starGreedy_run_inv in H. destruct H as (w & s' & -> & Hw & Hk).
  exists (x :: w), s'. cbn [forallb app]. rewrite E, Hw.
  split; [reflexivity|]. split; [discriminate|]. auto.
Qed.

Lemma entity_tail_inv total s c k z :
  matcher total
    (SeqL [Lit (str_of "entity"); Plus true isWhiteSpace;
           Group 1 (Plus true isWordChar); Star true isWhiteSpace;
           Lit (str_of "{"); Group 2 (Plus true notCloseBrace);
           Lit (str_of "}")]) s c k = Some z ->
  exists ws1 name ws2 body post,
    s = entityText ws1 name ws2 body ++ post /\
    entityShape ws1 name ws2 body /\
    k post (setCapture 1 body (setCapture 0 name c)) = Some z.
Proof.
  cbn [SeqL]. cbn [matcher]. intro H.
  apply matcher_Lit_inv in H. destruct H as (s1 & -> & H).
  apply matcher_Plus_inv in H. destruct H as (ws1 & s2 & -> & Hw1 & Hw1' & H).
  apply matcher_Plus_inv in H. destruct H as (name & s3 & -> & Hn & Hn' & H).
  apply starGreedy_run_inv in H. destruct H as (ws2 & s4 & -> & Hw2 & H).
  apply matcher_Lit_inv in H. destruct H as (s5 & -> & H).
  apply matcher_Plus_inv in H. destruct H as (body & s6 & -> & Hb & Hb' & H).
  apply matcher_Lit_inv in H. destruct H as (post & -> & H).
  cbn [Nat.sub] in H.
  rewrite (firstn_consumed body (str_of "}" ++ post)) in H.
  rewrite (firstn_consumed name (ws2 ++ str_of "{" ++ body ++ str_of "}" ++ post)) in H.
  exists ws1, name, ws2, body, post. split.
  { unfold entityText. now rewrite <- !app_assoc. }
  split; [|exact H]. unfold entityShape. auto 10.
Qed.

(** Every match of the entity pattern reads: an optional annotation with
    white space, [entity], white space, a name, optional white space, and a
    block without closing brace between braces; groups 1 and 2 are the name
    and the block. *)
Lemma entityRegex_shape total i s mt :
  matchAt entityRegex total i s = Some mt ->
  exists ann ws1 name ws2 body post,
    s = (ann ++ entityText ws1 name ws2 body) ++ post /\
    annotationShape ann /\
    entityShape ws1 name ws2 body /\
    index mt = i /\
    endIndex mt = i + length (ann ++ entityText ws1 name ws2 body) /\
    groups mt = [Some (ann ++ entityText ws1 name ws2 body); Some name; Some body].
Proof.
  unfold matchAt.
  destruct (matcher total (pattern entityRegex) s (repeat None (ngroups entityRegex))
              (fun s1 c1 => Some (s1, c1))) as [[s1 c1]|] eqn:E; [|discriminate].
  intro H. inversion H; subst; clear H. cbn [index endIndex groups].
  cbn [entityRegex pattern ngroups repeat] in E.
  change (SeqL (Opt (Seq (Lit (str_of "@EnableAudit")) (Plus true isWhiteSpace))
                :: ?l))
    with (Seq (Opt (Seq (Lit (str_of "@EnableAudit")) (Plus true isWhiteSpace)))
              (SeqL l)) in E.
  cbn [matcher] in E.
  match type of E with
  | match ?m with _ => _ end = _ => destruct m as [z|] eqn:Eo
  end.
  - inversion E; subst z; clear E.
    apply matcher_Lit_inv in Eo. destruct Eo as (s2 & -> & Eo).
    apply matcher_Plus_inv in Eo. destruct Eo as (ws & s3 & -> & Hws & Hws' & Eo).
    match type of Eo with
    | (if ?b then _ else _) = _ => destruct b; [discriminate|]
    end.
    apply entity_tail_inv in Eo.
    destruct Eo as (ws1 & name & ws2 & body & post & -> & Hshape & Hk).
    inversion Hk; subst; clear Hk.
    exists (str_of "@EnableAudit" ++ ws), ws1, name, ws2, body, s1.
    assert (Hs : str_of "@EnableAudit" ++ ws ++ entityText ws1 name ws2 body ++ s1
                 = ((str_of "@EnableAudit" ++ ws) ++ entityText ws1 name ws2 body) ++ s1)
      by now rewrite <- !app_assoc.
    rewrite Hs, firstn_consumed.
    replace (length (((str_of "@EnableAudit" ++ ws) ++ entityText ws1 name ws2 body) ++ s1)
             - length s1)
      with (length ((str_of "@EnableAudit" ++ ws) ++ entityText ws1 name ws2 body))
      by (rewrite (length_app _ s1); lia).
    split; [reflexivity|]. split; [right; now exists ws|].
    split; [assumption|]. auto.
  - apply entity_tail_inv in E.
    destruct E as (ws1 & name & ws2 & body & post & -> & Hshape & Hk).
    inversion Hk; subst; clear Hk.
    exists [], ws1, name, ws2, body, s1. cbn [app].
    rewrite firstn_consumed.
    replace (length (entityText ws1 name ws2 body ++ s1) - length s1)
      with (length (entityText ws1 name ws2 body))
      by (rewrite length_app; lia).
    split; [reflexivity|]. split; [now left|]. split; [assumption|]. auto.
Qed.

Lemma trimEnd_last t y :
  isWhiteSpace y = false -> trimEnd (t ++ [y]) = t ++ [y].
Proof.
  intro H. unfold trimEnd. rewrite rev_app_distr. cbn [rev app trimStart].
  rewrite H. cbn [rev]. now rewrite rev_involutive.
Qed.

Lemma startsWith_prefix p s : startsWith p (p ++ s) = true.
Proof. induction p as [|x p IH]; simpl; [reflexivity|]. now rewrite cu_eqb_refl. Qed.

(** [hasAuditAnnotation] tells whether the annotation part is there. *)
Lemma hasAuditAnnotation_shape mt ann ws1 name ws2 body :
  annotationShape ann ->
  groups mt = [Some (ann ++ entityText ws1 name ws2 body); Some name; Some body] ->
  hasAuditAnnotation mt = negb (isEmpty ann).
Proof.
  intros Ha Hg. unfold hasAuditAnnotation, group. rewrite Hg. cbn [nth_error].
  assert (Hend : forall t,
            trimEnd (t ++ entityText ws1 name ws2 body) = t ++ entityText ws1 name ws2 body).
  { intro t. unfold entityText.
    replace (t ++ str_of "entity" ++ ws1 ++ name ++ ws2 ++ str_of "{" ++ body ++ str_of "}")
      with ((t ++ str_of "entity" ++ ws1 ++ name ++ ws2 ++ str_of "{" ++ body) ++ [125%N])
      by now rewrite <- !app_assoc.
    now apply trimEnd_last. }
  unfold trim. destruct Ha as [->|(ws & -> & Hne & Hws)].
  - cbn [app isEmpty negb]. unfold entityText at 1.
    change (str_of "entity" ++ ws1 ++ name ++ ws2 ++ str_of "{" ++ body ++ str_of "}")
      with (101%N :: str_of "ntity" ++ ws1 ++ name ++ ws2 ++ str_of "{" ++ body
                     ++ str_of "}") at 1.
    cbn [trimStart]. change (isWhiteSpace 101%N) with false. cbv iota.
    change (101%N :: str_of "ntity" ++ ws1 ++ name ++ ws2 ++ str_of "{" ++ body
                     ++ str_of "}")
      with ([] ++ entityText ws1 name ws2 body).
    rewrite Hend. reflexivity.
  - change ((str_of "@EnableAudit" ++ ws) ++ entityText ws1 name ws2 body)
      with (64%N :: (str_of "EnableAudit" ++ ws) ++ entityText ws1 name ws2 body).
    cbn [trimStart]. change (isWhiteSpace 64%N) with false. cbv iota.
    change (64%N :: (str_of "EnableAudit" ++ ws) ++ entityText ws1 name ws2 body)
      with ((str_of "@EnableAudit" ++ ws) ++ entityText ws1 name ws2 body).
    rewrite Hend, <- app_assoc, startsWith_prefix. reflexivity.
Qed.

Lemma skipn_step (A : Type) (l : list A) : forall n x t,
  skipn n l = x :: t -> skipn (S n) l = t.
Proof.
  induction l as [|y l IH]; intros n x t H.
  - destruct n; discriminate.
  - destruct n as [|n]; cbn [skipn] in *.
    + now inversion H.
    + now apply IH with x.
Qed.

(** [exec] returns the match at the first position, from [lastIndex] on,
    at which the pattern matches. *)
Lemma exec_first_match re content i mt : forall d lastIndex,
  lastIndex + d = i ->
  i <= length content ->
  (forall j, lastIndex <= j < i ->
             matchAt re (length content) j (skipn j content) = None) ->
  matchAt re (length content) i (skipn i content) = Some mt ->
  exec re content lastIndex = Some mt.
Proof.
  intros d lastIndex Hd Hi Hnone Hm. unfold exec.
  assert (E : (length content <? lastIndex) = false) by (apply Nat.ltb_ge; lia).
  rewrite E. clear E. revert lastIndex Hd Hnone.
  induction d as [|d IH]; intros lastIndex Hd Hnone.
  - rewrite Nat.add_0_r in Hd. subst lastIndex.
    destruct (skipn i content); cbn [execFrom]; now rewrite Hm.
  - assert (Hn : matchAt re (length content) lastIndex (skipn lastIndex content) = None)
      by (apply Hnone; lia).
    destruct (skipn lastIndex content) as [|x t] eqn:Es.
    + exfalso. apply (f_equal (@length _)) in Es. rewrite length_skipn in Es.
      simpl in Es. lia.
    + cbn [execFrom]. rewrite Hn, <- (skipn_step _ _ Es).
      apply IH; [lia|]. intros j Hj. apply Hnone. lia.
Qed.

(** ** The matches of a loop in the text *)

Lemma execFrom_at re total s : forall i mt,
  execFrom re total i s = Some mt ->
  matchAt re total (index mt) (skipn (index mt - i) s) = Some mt.
Proof.
  induction s as [|x s IH]; intros i mt H; cbn [execFrom] in H.
  - destruct (matchAt re total i []) eqn:E; [|discriminate].
    inversion H; subst. pose proof (matchAt_bounds _ _ _ _ E) as (E1 & _).
    now rewrite E1, skipn_nil.
  - destruct (matchAt re total i (x :: s)) eqn:E.
    + inversion H; subst. pose proof (matchAt_bounds _ _ _ _ E) as (E1 & _).
      now rewrite E1, Nat.sub_diag.
    + pose proof (execFrom_bounds _ _ _ _ H) as (Hi & _).
      apply IH in H.
      replace (index mt - i) with (S (index mt - S i)) by lia. exact H.
Qed.

Lemma exec_at re content lastIndex mt :
  exec re content lastIndex = Some mt ->
  matchAt re (length content) (index mt) (skipn (index mt) content) = Some mt.
Proof.
  intro H. pose proof (exec_bounds _ _ _ H) as (Hi & _). unfold exec in H.
  destruct (length content <? lastIndex); [discriminate|].
  apply execFrom_at in H. rewrite skipn_skipn in H.
  replace (index mt - lastIndex + lastIndex) with (index mt) in H by lia. exact H.
Qed.

Lemma matchesFrom_at re content mt : forall fuel lastIndex,
  In mt (matchesFrom re content fuel lastIndex) ->
  matchAt re (length content) (index mt) (skipn (index mt) content) = Some mt.
Proof.
  induction fuel as [|fuel IH]; intros lastIndex H; cbn [matchesFrom] in H.
  - contradiction.
  - destruct (exec re content lastIndex) as [m|] eqn:E; [|contradiction].
    destruct H as [->|H]; [now apply exec_at with lastIndex | now apply IH with (endIndex m)].
Qed.

(** C2.  Every entity of the model is the record of an accepted match of
    the entity pattern, whose text in the comment-stripped document is an
    optional audit annotation followed by [entity], the name and the block
    of field lines between braces.  When the annotation is there, the
    fields of the entity are its declared fields (there may be none)
    followed by exactly [createdBy : String], [createdDate : Instant],
    [lastModifiedBy : String] and [lastModifiedDate : Instant], in that
    order, each with [fieldTypeIsEnum] false, no validation rule and no
    comment; when it is not, the fields are the declared fields and nothing
    else. *)
Theorem audit_fields_appended jdlContent model e :
  parseJdl jdlContent = Returned model ->
  In e (entities model) ->
  exists mt ann ws1 name ws2 body post,
    In mt (declarationsOf entityRegex (stripBlockComments jdlContent)) /\
    skipn (index mt) (stripBlockComments jdlContent)
    = (ann ++ entityText ws1 name ws2 body) ++ post /\
    annotationShape ann /\
    entityShape ws1 name ws2 body /\
    entityName e = name /\
    let declared :=
      declaredFields (enumTable (stripBlockComments jdlContent)) (fieldLinesOf body) in
    (ann <> [] ->
     fields e =
     declared ++
     [ {| fieldName := str_of "createdBy"; fieldType := str_of "String";
          fieldTypeIsEnum := false; fieldValidateRules := []; comment := None |};
       {| fieldName := str_of "createdDate"; fieldType := str_of "Instant";
          fieldTypeIsEnum := false; fieldValidateRules := []; comment := None |};
       {| fieldName := str_of "lastModifiedBy"; fieldType := str_of "String";
          fieldTypeIsEnum := false; fieldValidateRules := []; comment := None |};
       {| fieldName := str_of "lastModifiedDate"; fieldType := str_of "Instant";
          fieldTypeIsEnum := false; fieldValidateRules := []; comment := None |} ]) /\
    (ann = [] -> fields e = declared).
Proof.
  intros Hp Hin.
  destruct (@entities_of_model _ _ _ Hp Hin) as (l1 & mt & l2 & Hl & Hk & He & Hlast).
  set (c := stripBlockComments jdlContent) in *.
  assert (Hd : In mt (declarationsOf entityRegex c)) by (rewrite Hl; apply in_elt).
  pose proof (proj1 (declarationsOf_In _ _ _) Hd) as [Hm _].
  apply matchesFrom_at in Hm. apply entityRegex_shape in Hm.
  destruct Hm as (ann & ws1 & name & ws2 & body & post & Hs & Ha & Hshape & _ & _ & Hg).
  exists mt, ann, ws1, name, ws2, body, post.
  split; [exact Hd|]. split; [exact Hs|]. split; [exact Ha|]. split; [exact Hshape|].
  pose proof (@hasAuditAnnotation_shape mt ann ws1 name ws2 body Ha Hg) as Haudit.
  assert (H1 : group 1 mt = name) by (unfold group; now rewrite Hg).
  assert (H2 : group 2 mt = body) by (unfold group; now rewrite Hg).
  subst e. unfold entityOfMatch, entityOf. cbn [entityName fields].
  rewrite H1, H2, Haudit. split; [reflexivity|]. split.
  - intro Hne. destruct ann; [contradiction | reflexivity].
  - intros ->. reflexivity.
Qed.

Lemma audit_fields_appended_witness :
  exists mt ann ws1 name ws2 body post,
    In mt (declarationsOf entityRegex (stripBlockComments auditDoc)) /\
    skipn (index mt) (stripBlockComments auditDoc)
    = (ann ++ entityText ws1 name ws2 body) ++ post /\
    annotationShape ann /\
    entityShape ws1 name ws2 body /\
    entityName barEntity = name /\
    let declared :=
      declaredFields (enumTable (stripBlockComments auditDoc)) (fieldLinesOf body) in
    (ann <> [] ->
     fields barEntity =
     declared ++
     [ {| fieldName := str_of "createdBy"; fieldType := str_of "String";
          fieldTypeIsEnum := false; fieldValidateRules := []; comment := None |};
       {| fieldName := str_of "createdDate"; fieldType := str_of "Instant";
          fieldTypeIsEnum := false; fieldValidateRules := []; comment := None |};
       {| fieldName := str_of "lastModifiedBy"; fieldType := str_of "String";
          fieldTypeIsEnum := false; fieldValidateRules := []; comment := None |};
       {| fieldName := str_of "lastModifiedDate"; fieldType := str_of "Instant";
          fieldTypeIsEnum := false; fieldValidateRules := []; comment := None |} ]) /\
    (ann = [] -> fields barEntity = declared).
Proof.
  apply (@audit_fields_appended auditDoc
           {| entities := [barEntity]; enums := []; relationships := [] |} barEntity).
  - vm_compute. reflexivity.
  - left. reflexivity.
Defined.

(** ** The claims on comments *)

(** C4, counterexample.  With two block comments in a document, a greedy
    span runs from the first start marker to the last end marker and takes
    the text between the comments with it; the stripper of [parseJdl] keeps
    that text. *)
Lemma greedy_span_differs :
  stripGreedySpans twoCommentsDoc = [] /\
  stripBlockComments twoCommentsDoc = str_of "x" /\
  stripBlockComments twoCommentsDoc <> stripGreedySpans twoCommentsDoc.
Proof. split; [|split]; vm_compute; [reflexivity | reflexivity | discriminate]. Qed.

(** C4, amended.  A document in which no start marker is followed by an
    end marker is returned unchanged.  Otherwise the text before the first
    start marker is kept as it is, the span from that marker to the nearest
    end marker after it (line feeds included) is replaced by nothing, and
    what follows the span is stripped in the same way. *)
Theorem strip_nearest_end_marker :
  (forall jdlContent,
     hasBlockComment jdlContent = false ->
     stripBlockComments jdlContent = jdlContent) /\
  (forall pre body post,
     indexOf (str_of "/*") pre = None ->
     indexOf (str_of "*/") body = None ->
     stripBlockComments (pre ++ str_of "/*" ++ body ++ str_of "*/" ++ post) =
     pre ++ stripBlockComments post).
Proof.
  split.
  - exact strip_no_comment.
  - exact strip_first_comment.
Qed.

Lemma strip_nearest_end_marker_witness :
  stripBlockComments
    (str_of "a " ++ str_of "/*" ++ str_of " b * c " ++ str_of "*/" ++ str_of " d */ e")
  = str_of "a " ++ stripBlockComments (str_of " d */ e")
  /\ stripBlockComments (str_of " d */ e") = str_of " d */ e".
Proof.
  split.
  - apply (proj2 strip_nearest_end_marker); reflexivity.
  - apply (proj1 strip_nearest_end_marker); reflexivity.
Defined.

(** C5, counterexample.  A well-formed entity declaration that begins,
    after the marker, on a line starting with the line-comment marker is
    extracted all the same: the block comment that follows the first slash
    is stripped first and takes the second slash of the marker with it. *)
Lemma block_strip_uncomments_line :
  isCommented markerEatenDoc 9 = true /\
  substringFrom markerEatenDoc 9 = str_of "entity B { y Long }" /\
  (exists mt,
     matchAt entityRegex (length markerEatenDoc) 9 (skipn 9 markerEatenDoc) = Some mt /\
     endIndex mt = length markerEatenDoc) /\
  parseJdl markerEatenDoc =
  Returned {| entities :=
                [ {| entityName := str_of "B";
                     fields := [ {| fieldName := str_of "y"; fieldType := str_of "Long";
                                    fieldTypeIsEnum := false; fieldValidateRules := [];
                                    comment := None |} ] |} ];
              enums := []; relationships := [] |}.
Proof.
  split; [|split; [|split]]; try (vm_compute; reflexivity).
  eexists. split; vm_compute; reflexivity.
Qed.

Lemma enums_of_model jdlContent model en :
  parseJdl jdlContent = Returned model ->
  In en (enums model) ->
  exists l1 mt l2,
    declarationsOf enumRegex (stripBlockComments jdlContent) = l1 ++ mt :: l2 /\
    group 1 mt <> protoKey /\
    en = enumOfMatch mt /\
    (forall mt', In mt' l2 -> group 1 mt' <> group 1 mt).
Proof.
  rewrite parseJdl_tables. intro H. inversion H; subst model; clear H. simpl.
  unfold enumTable. intro Hin.
  apply (table_values_iff (group 1) enumOfMatch) in Hin.
  destruct Hin as (l1 & mt & l2 & Hl & Hk & Hv & Hlast).
  exists l1, mt, l2. auto.
Qed.

(** C5, amended.  What stands inside a block comment that opens where no
    other is open has no influence on the model.  Every entity and enum of
    the model is the record of a match of its pattern in the
    comment-stripped text that [isCommented] does not flag, and the
    relationships are the records of the unflagged matches in order: a
    match flagged by [isCommented] yields nothing, each of the three loops
    goes on after its end with its state unchanged.  [isCommented] flags
    every position that follows, on its line of the comment-stripped text,
    leading white space and the line-comment marker. *)
Theorem comments_yield_no_declaration :
  (forall pre body body' post,
     closedText pre ->
     indexOf (str_of "*/") body = None ->
     indexOf (str_of "*/") body' = None ->
     parseJdl (pre ++ str_of "/*" ++ body ++ str_of "*/" ++ post) =
     parseJdl (pre ++ str_of "/*" ++ body' ++ str_of "*/" ++ post)) /\
  (forall jdlContent model,
     parseJdl jdlContent = Returned model ->
     let c := stripBlockComments jdlContent in
     (forall e, In e (entities model) ->
        exists mt, In mt (matchesFrom entityRegex c (loopFuel c) 0) /\
                   isCommented c (index mt) = false /\
                   e = entityOfMatch (enumTable c) mt) /\
     (forall en, In en (enums model) ->
        exists mt, In mt (matchesFrom enumRegex c (loopFuel c) 0) /\
                   isCommented c (index mt) = false /\
                   en = enumOfMatch mt) /\
     relationships model =
       map relationshipOfMatch
         (filter (fun mt => negb (isCommented c (index mt)))
            (matchesFrom relationshipRegex c (loopFuel c) 0))) /\
  (forall (St : Type) re content (body : Match -> St -> Outcome St) fuel lastIndex st mt,
     exec re content lastIndex = Some mt ->
     isCommented content (index mt) = true ->
     execLoop re content body (S fuel) lastIndex st =
     execLoop re content body fuel (endIndex mt) st) /\
  (forall before indent text rest,
     before = [] \/ (exists b, before = b ++ [10%N]) ->
     forallb isWhiteSpace indent = true ->
     ~ In 10%N indent ->
     ~ In 10%N text ->
     startsWith [10%N] rest = false ->
     isCommented (before ++ (indent ++ str_of "//" ++ text) ++ rest)
       (length before + length (indent ++ str_of "//" ++ text)) = true).
Proof.
  split; [|split; [|split]].
  - intros pre body body' post Hpre Hb Hb'. unfold parseJdl.
    now rewrite !strip_comment_after.
  - intros jdlContent model Hp c. split; [|split].
    + intros e He.
      destruct (@entities_of_model _ _ _ Hp He) as (l1 & mt & l2 & Hl & _ & Hv & _).
      exists mt. fold c in Hl, Hv.
      assert (Hin : In mt (declarationsOf entityRegex c)) by (rewrite Hl; apply in_elt).
      apply declarationsOf_In in Hin. tauto.
    + intros en Hen.
      destruct (@enums_of_model _ _ _ Hp Hen) as (l1 & mt & l2 & Hl & _ & Hv & _).
      exists mt. fold c in Hl.
      assert (Hin : In mt (declarationsOf enumRegex c)) by (rewrite Hl; apply in_elt).
      apply declarationsOf_In in Hin. tauto.
    + rewrite parseJdl_tables in Hp. inversion Hp. reflexivity.
  - intros St re content body fuel lastIndex st mt He Hc.
    cbn [execLoop]. now rewrite He, Hc.
  - exact isCommented_after_marker.
Qed.

Lemma comments_yield_no_declaration_witness :
  parseJdl (str_of "enum E { A } /* x */ " ++ str_of "/*"
            ++ str_of " entity Ghost { x String } " ++ str_of "*/"
            ++ str_of " entity B { y Long }")
  = parseJdl (str_of "enum E { A } /* x */ " ++ str_of "/*" ++ [] ++ str_of "*/"
              ++ str_of " entity B { y Long }")
  /\ isCommented
       ([] ++ (str_of "  " ++ str_of "//" ++ str_of " ") ++ str_of "entity Ghost { x String }")
       (length (@nil N) + length (str_of "  " ++ str_of "//" ++ str_of " ")) = true.
Proof.
  split.
  - apply (proj1 comments_yield_no_declaration); try reflexivity.
    apply (@closed_comment (str_of "enum E { A } ") (str_of " x ") (str_of " "));
      try reflexivity.
    apply closed_plain. reflexivity.
  - apply (proj2 (proj2 (proj2 comments_yield_no_declaration))); try reflexivity.
    + now left.
    + simpl. intros [H|[H|[]]]; discriminate.
    + simpl. intros [H|[]]; discriminate.
Defined.

(** C10.  The audit annotation stands after a line-comment marker on its
    line and is followed, after white space only, by an entity declaration.
    When the scan of the entity pattern reaches the annotation (no match
    starts between [lastIndex] and it), the match starts at the annotation,
    spans the whole declaration up to its closing brace, is flagged by
    [isCommented], and the loop goes on after the declaration with the
    table of entities unchanged: the entity is not extracted.  When the
    scan starts at the beginning of a document without block comment, the
    entities of the model are those of the matches found after the
    declaration. *)
Theorem commented_annotation_hides_entity
    (before indent gap ws ws1 name ws2 body post : str) (lastIndex : nat) :
  let pre := before ++ indent ++ str_of "//" ++ gap in
  let decl := str_of "@EnableAudit" ++ ws ++ str_of "entity" ++ ws1 ++ name ++ ws2
              ++ str_of "{" ++ body ++ str_of "}" in
  let content := pre ++ decl ++ post in
  before = [] \/ (exists b, before = b ++ [10%N]) ->
  forallb isWhiteSpace indent = true ->
  ~ In 10%N indent ->
  ~ In 10%N gap ->
  ws <> [] -> forallb isWhiteSpace ws = true ->
  ws1 <> [] -> forallb isWhiteSpace ws1 = true ->
  name <> [] -> forallb isWordChar name = true ->
  forallb isWhiteSpace ws2 = true ->
  body <> [] -> forallb notCloseBrace body = true ->
  lastIndex <= length pre ->
  (forall j, lastIndex <= j < length pre ->
     matchAt entityRegex (length content) j (skipn j content) = None) ->
  exists mt,
    exec entityRegex content lastIndex = Some mt /\
    index mt = length pre /\
    endIndex mt = length (pre ++ decl) /\
    group 1 mt = name /\
    group 2 mt = body /\
    isCommented content (index mt) = true /\
    (forall enums entities fuel,
       execLoop entityRegex content (entityBody enums) (S fuel) lastIndex entities =
       execLoop entityRegex content (entityBody enums) fuel (endIndex mt) entities) /\
    (lastIndex = 0 ->
     hasBlockComment content = false ->
     forall model,
       parseJdl content = Returned model ->
       entities model =
       objValues
         (fold_left
            (fun o m => objSet o (group 1 m) (entityOfMatch (enumTable content) m))
            (filter (fun m => negb (isCommented content (index m)))
               (matchesFrom entityRegex content (length content) (endIndex mt)))
            (emptyObject Entity))).
Proof.
  intros pre decl content Hb Hi Hni Hng Hws1 Hws2 Hw11 Hw12 Hn1 Hn2 Hw2 Hb1 Hb2 Hl Hnone.
  destruct (@audited_entity_matchAt ws ws1 name ws2 body
              Hws1 Hws2 Hw11 Hw12 Hn1 Hn2 Hw2 Hb1 Hb2
              (length content) (length pre) post) as [whole Hm].
  set (mt := {| index := length pre;
                endIndex := length pre
                            + length (str_of "@EnableAudit" ++ ws ++ str_of "entity" ++ ws1
                                      ++ name ++ ws2 ++ str_of "{" ++ body ++ str_of "}" ++ []);
                groups := [Some whole; Some name; Some body] |}) in Hm.
  assert (Hskip : skipn (length pre) content
                  = str_of "@EnableAudit" ++ ws ++ str_of "entity" ++ ws1 ++ name ++ ws2
                    ++ str_of "{" ++ body ++ str_of "}" ++ post).
  { subst content decl. rewrite skipn_app, skipn_all, Nat.sub_diag. cbn [skipn app].
    now rewrite <- !app_assoc. }
  assert (He : exec entityRegex content lastIndex = Some mt).
  { apply (@exec_first_match entityRegex content (length pre) mt
             (length pre - lastIndex) lastIndex).
    - lia.
    - subst content. rewrite length_app. lia.
    - exact Hnone.
    - rewrite Hskip. exact Hm. }
  assert (Hc : isCommented content (length pre) = true).
  { subst content pre.
    replace (length (before ++ indent ++ str_of "//" ++ gap))
      with (length before + length (indent ++ str_of "//" ++ gap))
      by (symmetry; apply length_app).
    replace ((before ++ indent ++ str_of "//" ++ gap) ++ decl ++ post)
      with (before ++ (indent ++ str_of "//" ++ gap) ++ decl ++ post)
      by now rewrite <- !app_assoc.
    apply isCommented_after_marker; auto. }
  exists mt. split; [exact He|]. split; [reflexivity|]. split.
  { subst mt decl. cbn [endIndex]. rewrite app_nil_r. symmetry. apply length_app. }
  split; [reflexivity|]. split; [reflexivity|]. split; [exact Hc|]. split.
  - intros enums entities fuel. cbn [execLoop]. rewrite He.
    change (index mt) with (length pre). now rewrite Hc.
  - intros H0 Hnc model Hp. rewrite parseJdl_tables in Hp.
    inversion Hp; subst model; clear Hp. cbn [entities].
    rewrite (strip_no_comment _ Hnc). unfold entityTable, declarationsOf, loopFuel.
    cbn [matchesFrom]. rewrite <- H0, He. cbn [filter].
    change (index mt) with (length pre). rewrite Hc. reflexivity.
Qed.

Lemma commented_annotation_hides_entity_witness :
  exists mt,
    exec entityRegex
      (([] ++ [] ++ str_of "//" ++ str_of " ")
       ++ (str_of "@EnableAudit" ++ [10%N] ++ str_of "entity" ++ str_of " "
           ++ str_of "Bar" ++ str_of " " ++ str_of "{"
           ++ ([10%N] ++ str_of " id Long" ++ [10%N]) ++ str_of "}")
       ++ []) 0 = Some mt /\
    index mt = 3 /\
    group 1 mt = str_of "Bar".
Proof.
  destruct (@commented_annotation_hides_entity [] [] (str_of " ") [10%N] (str_of " ")
              (str_of "Bar") (str_of " ") ([10%N] ++ str_of " id Long" ++ [10%N]) [] 0)
    as (mt & H1 & H2 & _ & H4 & _); try reflexivity; try discriminate.
  - now left.
  - intros [].
  - simpl. intros [H|[]]; discriminate.
  - simpl. lia.
  - intros j Hj. simpl in Hj.
    destruct j as [|[|[|j]]]; [vm_compute; reflexivity ..| lia].
  - exists mt. auto.
Defined.

(** ** Concrete documents *)

(** C1, counterexample.  The document declares an enum named [String]; the
    audit field [createdBy] of its entity has that type name and
    [fieldTypeIsEnum] false. *)
Lemma audit_field_of_enum_type_not_flagged :
  parseJdl enumStringDoc = Returned enumStringModel /\
  exists e f en,
    In e (entities enumStringModel) /\ In f (fields e) /\
    In en (enums enumStringModel) /\
    enumName en = fieldType f /\ fieldTypeIsEnum f = false.
Proof.
  split; [vm_compute; reflexivity|].
  unfold enumStringModel. cbn [entities enums]. do 3 eexists.
  split; [left; reflexivity|]. cbn [fields].
  split; [right; left; reflexivity|].
  split; [left; reflexivity|].
  split; reflexivity.
Qed.

(** An inherited key is flagged as an enum although no enum has that
    name. *)
Lemma inherited_key_flagged :
  parseJdl (str_of "entity A { x constructor }") =
  Returned {| entities :=
                [ {| entityName := str_of "A";
                     fields := [ {| fieldName := str_of "x";
                                    fieldType := str_of "constructor";
                                    fieldTypeIsEnum := true; fieldValidateRules := [];
                                    comment := None |} ] |} ];
              enums := []; relationships := [] |}.
Proof. vm_compute. reflexivity. Qed.

(** The enum is declared after the entity that uses it. *)
Lemma enum_declared_after_entity :
  parseJdl enumAfterDoc = Returned enumAfterModel.
Proof. vm_compute. reflexivity. Qed.

Lemma enum_flag_of_declared_fields_witness :
  exists declared audit,
    fields taskEntity = declared ++ audit /\
    (audit = [] \/ audit = AUDIT_FIELDS) /\
    (forall f, In f audit -> fieldTypeIsEnum f = false) /\
    forall f,
      In f declared ->
      objInherits enumProps (enumTable (stripBlockComments enumAfterDoc))
        (fieldType f) = false ->
      (fieldTypeIsEnum f = true <->
       exists mt,
         In mt (declarationsOf enumRegex (stripBlockComments enumAfterDoc)) /\
         group 1 mt = fieldType f).
Proof.
  apply (@enum_flag_of_declared_fields enumAfterDoc enumAfterModel taskEntity).
  - vm_compute. reflexivity.
  - left. reflexivity.
Defined.

(** An audited entity without declared fields has the four audit fields. *)
Lemma audit_fields_alone :
  parseJdl (str_of "@EnableAudit entity Z { }") =
  Returned {| entities := [ {| entityName := str_of "Z"; fields := AUDIT_FIELDS |} ];
              enums := []; relationships := [] |}.
Proof. vm_compute. reflexivity. Qed.


(** The scenarios of the specification. *)
Lemma scenario_A :
  parseJdl (str_of "entity Foo { name String required }") =
  Returned {| entities :=
                [ {| entityName := str_of "Foo";
                     fields := [ {| fieldName := str_of "name"; fieldType := str_of "String";
                                    fieldTypeIsEnum := false;
                                    fieldValidateRules := [str_of "required"];
                                    comment := None |} ] |} ];
              enums := []; relationships := [] |}.
Proof. vm_compute. reflexivity. Qed.

Lemma scenario_B :
  parseJdl auditDoc =
  Returned {| entities := [barEntity]; enums := []; relationships := [] |}.
Proof. vm_compute. reflexivity. Qed.

Lemma scenario_D :
  parseJdl (str_of "// entity Ghost { x String }") =
  Returned {| entities := []; enums := []; relationships := [] |}.
Proof. vm_compute. reflexivity. Qed.

Lemma scenario_E :
  parseJdl (str_of "relationship ManyToOne { Order(customer) to Customer(orders) }") =
  Returned {| entities := []; enums := [];
              relationships :=
                [ {| relType := str_of "ManyToOne";
                     from := {| endpointName := str_of "Order";
                                endpointFieldName := Some (str_of "customer") |};
                     to := {| endpointName := str_of "Customer";
                              endpointFieldName := Some (str_of "orders") |} |} ] |}.
Proof. vm_compute. reflexivity. Qed.

(** The annotation alone is commented out: the entity is gone. *)
Lemma commented_annotation_example :
  parseJdl (str_of "// @EnableAudit" ++ nl ++ str_of "entity Bar {" ++ nl
            ++ str_of " id Long" ++ nl ++ str_of "}") =
  Returned {| entities := []; enums := []; relationships := [] |}.
Proof. vm_compute. reflexivity. Qed.

(** * More of [cli.js] *)

(** ** The tables of [parseJdl] and the calls of [run] *)

Lemma table_own_name (M V : Type) (key : M -> str) (val : M -> V) (name : V -> str) l k v :
  (forall m, name (val m) = key m) ->
  In (k, v) (own (fold_left (fun o m => objSet o (key m) (val m)) l (emptyObject V))) ->
  name v = k.
Proof.
  intros Hn Hin. apply (table_own_iff key val) in Hin.
  destruct Hin as (_ & l1 & m & l2 & _ & Hk & Hv & _). now rewrite <- Hv, <- Hk.
Qed.

Lemma table_names_NoDup (M V : Type) (key : M -> str) (val : M -> V) (name : V -> str) l :
  (forall m, name (val m) = key m) ->
  NoDup (map name
           (objValues (fold_left (fun o m => objSet o (key m) (val m)) l (emptyObject V)))).
Proof.
  intro Hn.
  set (o := fold_left (fun o m => objSet o (key m) (val m)) l (emptyObject V)).
  apply Permutation_NoDup with (map fst (own o)).
  - replace (map fst (own o)) with (map name (map snd (own o))).
    + apply Permutation_map. symmetry. apply objValues_perm.
    + rewrite map_map. apply map_ext_in. intros [k v] Hin. cbn [fst snd].
      now apply (@table_own_name M V key val name l k v).
  - apply table_NoDup. constructor.
Qed.

Lemma table_value_unique (M V : Type) (key : M -> str) (val : M -> V) (name : V -> str)
    l v1 v2 :
  (forall m, name (val m) = key m) ->
  In v1 (objValues (fold_left (fun o m => objSet o (key m) (val m)) l (emptyObject V))) ->
  In v2 (objValues (fold_left (fun o m => objSet o (key m) (val m)) l (emptyObject V))) ->
  name v1 = name v2 ->
  v1 = v2.
Proof.
  intros Hn H1 H2 He.
  set (o := fold_left (fun o m => objSet o (key m) (val m)) l (emptyObject V)) in *.
  apply objValues_In in H1. destruct H1 as [k1 H1].
  apply objValues_In in H2. destruct H2 as [k2 H2].
  pose proof (@table_own_name M V key val name l k1 v1 Hn H1) as E1.
  pose proof (@table_own_name M V key val name l k2 v2 Hn H2) as E2.
  assert (Hnd : NoDup (map fst (own o))) by (apply table_NoDup; constructor).
  assert (Hk : k2 = k1) by congruence. subst k2.
  pose proof (In_assocGet _ _ _ Hnd H1) as G1.
  pose proof (In_assocGet _ _ _ Hnd H2) as G2.
  congruence.
Qed.

(** X1.  The entities of the model bear pairwise distinct names, and so do
    its enums: whatever the document declares twice, the model holds
    once. *)
Theorem model_names_unique jdlContent model :
  parseJdl jdlContent = Returned model ->
  NoDup (map entityName (entities model)) /\ NoDup (map enumName (enums model)).
Proof.
  rewrite parseJdl_tables. intro H. inversion H; subst model; clear H.
  cbn [entities enums]. split.
  - unfold entityTable. now apply table_names_NoDup.
  - unfold enumTable. now apply table_names_NoDup.
Qed.

Lemma model_names_unique_witness :
  NoDup (map entityName (entities enumAfterModel))
  /\ NoDup (map enumName (enums enumAfterModel)).
Proof. apply (@model_names_unique enumAfterDoc). vm_compute. reflexivity. Defined.

(** X2.  [run] makes no generation call at all exactly when no entity
    declaration of the comment-stripped document is accepted under a name
    other than [__proto__]: a document that declares enums and
    relationships only generates nothing.  In every other case it calls
    [generateEntityFiles] once for every entity of the model, with all the
    relationships, and then [generateEnumFile] once for every enum. *)
Theorem nothing_generated_without_entity jdlContent :
  (run jdlContent = Returned [] <->
   forall mt,
     In mt (declarationsOf entityRegex (stripBlockComments jdlContent)) ->
     group 1 mt = protoKey) /\
  (forall model,
     parseJdl jdlContent = Returned model ->
     entities model <> [] ->
     run jdlContent =
     Returned (map (fun entity => GenerateEntityFiles entity (relationships model))
                 (entities model)
               ++ map GenerateEnumFile (enums model))).
Proof.
  split.
  - unfold run. rewrite parseJdl_tables. cbn [bind]. unfold generationPromises.
    cbn [entities enums relationships].
    set (c := stripBlockComments jdlContent).
    destruct (objValues (entityTable c)) as [|e es] eqn:E.
    + split; [|reflexivity]. intros _ mt Hin.
      destruct (str_eqb (group 1 mt) protoKey) eqn:Ek; [now apply str_eqb_eq|].
      exfalso. apply str_eqb_neq in Ek.
      assert (Ho : exists v, assocGet (own (entityTable c)) (group 1 mt) = Some v).
      { unfold entityTable.
        apply (table_owns (group 1) (entityOfMatch (enumTable c))).
        split; [exact Ek|]. now exists mt. }
      destruct Ho as [v Hv]. apply assocGet_In in Hv.
      assert (Hin' : In v (objValues (entityTable c)))
        by (apply objValues_In; now exists (group 1 mt)).
      rewrite E in Hin'. contradiction.
    + split; [intro H; inversion H|]. intro Hall. exfalso.
      assert (Hin : In e (objValues (entityTable c))) by (rewrite E; now left).
      unfold entityTable in Hin.
      apply (table_values_iff (group 1) (entityOfMatch (enumTable c))) in Hin.
      destruct Hin as (l1 & m & l2 & Hl & Hk & _).
      apply Hk, Hall. rewrite Hl. apply in_elt.
  - intros model Hp Hne. unfold run. rewrite Hp. cbn [bind].
    unfold generationPromises. destruct (entities model); [contradiction|reflexivity].
Qed.

Lemma nothing_generated_without_entity_witness :
  run enumAfterDoc =
  Returned [ GenerateEntityFiles taskEntity [];
             GenerateEnumFile {| enumName := str_of "Status";
                                 values := [ {| valueName := str_of "ACTIVE" |};
                                             {| valueName := str_of "INACTIVE" |} ] |} ].
Proof.
  apply (proj2 (nothing_generated_without_entity enumAfterDoc) enumAfterModel).
  - vm_compute. reflexivity.
  - discriminate.
Defined.

Section ContextOfModel.

Variable camelCase : str -> str.
Variable upperFirst : str -> str.
Variable toLowerCase : str -> str.

(** X3.  A relationship of the model is part of the render context of at
    most one entity of the model, the entity its [from] endpoint names;
    a relationship whose [from] endpoint names no entity of the model is
    part of no context. *)
Theorem relationship_in_one_context jdlContent model r :
  parseJdl jdlContent = Returned model ->
  (forall e1 e2,
     In e1 (entities model) -> In e2 (entities model) ->
     In r (map rel (configRelationships
                      (entityConfig camelCase upperFirst toLowerCase e1
                         (relationships model)))) ->
     In r (map rel (configRelationships
                      (entityConfig camelCase upperFirst toLowerCase e2
                         (relationships model)))) ->
     e1 = e2) /\
  (forall e,
     In e (entities model) ->
     (In r (map rel (configRelationships
                       (entityConfig camelCase upperFirst toLowerCase e
                          (relationships model))))
      <-> In r (relationships model) /\ endpointName (from r) = entityName e)).
Proof.
  intro Hp.
  assert (Hctx : forall e,
            In r (map rel (configRelationships
                             (entityConfig camelCase upperFirst toLowerCase e
                                (relationships model))))
            <-> In r (relationships model) /\ endpointName (from r) = entityName e).
  { intro e. unfold entityConfig. cbn [configRelationships].
    rewrite map_map. cbn [relationshipView rel]. rewrite map_id, filter_In.
    now rewrite str_eqb_eq. }
  split; [|intros e _; apply Hctx].
  intros e1 e2 H1 H2 R1 R2.
  apply Hctx in R1. apply Hctx in R2.
  rewrite parseJdl_tables in Hp. inversion Hp; subst model; clear Hp.
  cbn [entities] in H1, H2. unfold entityTable in H1, H2.
  destruct R1 as [_ R1]. destruct R2 as [_ R2].
  apply (@table_value_unique _ _ (group 1)
           (entityOfMatch (enumTable (stripBlockComments jdlContent))) entityName
           (declarationsOf entityRegex (stripBlockComments jdlContent)) e1 e2); auto.
  congruence.
Qed.

End ContextOfModel.

Lemma relationship_in_one_context_witness :
  (forall e1 e2,
     In e1 (entities orderModel) -> In e2 (entities orderModel) ->
     In orderToCustomer
       (map rel (configRelationships
                   (entityConfig (fun s => s) (fun s => s) toLowerCaseAscii e1
                      (relationships orderModel)))) ->
     In orderToCustomer
       (map rel (configRelationships
                   (entityConfig (fun s => s) (fun s => s) toLowerCaseAscii e2
                      (relationships orderModel)))) ->
     e1 = e2) /\
  (forall e,
     In e (entities orderModel) ->
     (In orderToCustomer
        (map rel (configRelationships
                    (entityConfig (fun s => s) (fun s => s) toLowerCaseAscii e
                       (relationships orderModel))))
      <-> In orderToCustomer (relationships orderModel)
          /\ endpointName (from orderToCustomer) = entityName e)).
Proof.
  apply (@relationship_in_one_context (fun s => s) (fun s => s) toLowerCaseAscii orderDoc).
  vm_compute. reflexivity.
Defined.


(** ** The order of [Object.values] *)

Lemma assocSet_fresh (V : Type) (l : list (str * V)) k v :
  ~ In k (map fst l) -> assocSet l k v = l ++ [(k, v)].
Proof.
  induction l as [|[k' v'] l IH]; cbn [assocSet map fst In app]; intro H.
  - reflexivity.
  - destruct (str_eqb k k') eqn:E.
    + apply str_eqb_eq in E. subst. exfalso. apply H. now left.
    + rewrite IH; [reflexivity|]. intro Hin. apply H. now right.
Qed.

Lemma table_own_distinct (M V : Type) (key : M -> str) (val : M -> V) l :
  NoDup (map key l) ->
  (forall m, In m l -> key m <> protoKey) ->
  own (fold_left (fun o m => objSet o (key m) (val m)) l (emptyObject V))
  = map (fun m => (key m, val m)) l.
Proof.
  induction l as [|m l IH] using rev_ind; intros Hnd Hk.
  - reflexivity.
  - rewrite map_app in Hnd. cbn [map] in Hnd.
    pose proof (NoDup_remove_1 _ _ _ Hnd) as Hnd1.
    pose proof (NoDup_remove_2 _ _ _ Hnd) as Hnd2.
    rewrite app_nil_r in Hnd1, Hnd2.
    rewrite fold_left_app. cbn [fold_left]. unfold objSet at 1.
    assert (E : str_eqb (key m) protoKey = false).
    { apply str_eqb_neq, Hk, in_or_app. right. now left. }
    rewrite E. cbn [own].
    rewrite IH; [|assumption | intros; apply Hk, in_or_app; now left].
    rewrite assocSet_fresh.
    + now rewrite map_app.
    + rewrite map_map. cbn [fst]. exact Hnd2.
Qed.

Lemma indexedEntries_fold_none (V : Type) (l : list (str * V)) : forall acc,
  (forall e, In e l -> arrayIndex (fst e) = None) ->
  fold_left
    (fun acc e => match arrayIndex (fst e) with
                  | Some i => insertByIndex i e acc
                  | None => acc
                  end) l acc = acc.
Proof.
  induction l as [|e l IH]; intros acc H; cbn [fold_left].
  - reflexivity.
  - rewrite (H e) by now left. apply IH. intros e' He'. apply H. now right.
Qed.

Lemma filter_all (A : Type) (f : A -> bool) (l : list A) :
  (forall x, In x l -> f x = true) -> filter f l = l.
Proof.
  induction l as [|x l IH]; intro H; cbn [filter]; [reflexivity|].
  rewrite (H x) by now left. f_equal. apply IH. intros y Hy. apply H. now right.
Qed.

Lemma objValues_plain (V : Type) (o : JsObject V) :
  (forall e, In e (own o) -> arrayIndex (fst e) = None) ->
  objValues o = map snd (own o).
Proof.
  intro H. unfold objValues, ownEntries, indexedEntries.
  rewrite indexedEntries_fold_none by assumption. cbn [map app].
  rewrite filter_all; [reflexivity|].
  intros e He. unfold isIndexed. now rewrite (H e He).
Qed.

Lemma table_values_distinct (M V : Type) (key : M -> str) (val : M -> V) l :
  NoDup (map key l) ->
  (forall m, In m l -> key m <> protoKey /\ arrayIndex (key m) = None) ->
  objValues (fold_left (fun o m => objSet o (key m) (val m)) l (emptyObject V))
  = map val l.
Proof.
  intros Hnd Hk.
  assert (Ho := @table_own_distinct M V key val l Hnd (fun m Hm => proj1 (Hk m Hm))).
  rewrite objValues_plain; rewrite Ho.
  - rewrite map_map. reflexivity.
  - intros e He. apply in_map_iff in He. destruct He as (m & <- & Hm). apply Hk, Hm.
Qed.

(** X4.  When the accepted entity declarations bear pairwise distinct
    names, none of which is [__proto__] or an array index, the model lists
    one entity for each of them in the order of the document; the same
    holds for the enums. *)
Theorem model_in_declaration_order jdlContent model :
  parseJdl jdlContent = Returned model ->
  let c := stripBlockComments jdlContent in
  (NoDup (map (group 1) (declarationsOf entityRegex c)) ->
   (forall mt, In mt (declarationsOf entityRegex c) ->
      group 1 mt <> protoKey /\ arrayIndex (group 1 mt) = None) ->
   entities model = map (entityOfMatch (enumTable c)) (declarationsOf entityRegex c)) /\
  (NoDup (map (group 1) (declarationsOf enumRegex c)) ->
   (forall mt, In mt (declarationsOf enumRegex c) ->
      group 1 mt <> protoKey /\ arrayIndex (group 1 mt) = None) ->
   enums model = map enumOfMatch (declarationsOf enumRegex c)).
Proof.
  rewrite parseJdl_tables. intro H. inversion H; subst model; clear H.
  intro c. cbn [entities enums]. fold c. split; intros Hnd Hk.
  - unfold entityTable. now apply table_values_distinct.
  - unfold enumTable. now apply table_values_distinct.
Qed.

Lemma model_in_declaration_order_witness :
  entities enumAfterModel
  = map (entityOfMatch (enumTable (stripBlockComments enumAfterDoc)))
      (declarationsOf entityRegex (stripBlockComments enumAfterDoc))
  /\ enums enumAfterModel
     = map enumOfMatch (declarationsOf enumRegex (stripBlockComments enumAfterDoc)).
Proof.
  assert (Hp : parseJdl enumAfterDoc = Returned enumAfterModel) by (vm_compute; reflexivity).
  assert (E1 : map (group 1) (declarationsOf entityRegex (stripBlockComments enumAfterDoc))
               = [str_of "Task"]) by (vm_compute; reflexivity).
  assert (E2 : map (group 1) (declarationsOf enumRegex (stripBlockComments enumAfterDoc))
               = [str_of "Status"]) by (vm_compute; reflexivity).
  split.
  - apply (proj1 (@model_in_declaration_order enumAfterDoc enumAfterModel Hp)).
    + rewrite E1. constructor; [intros [] | constructor].
    + intros mt Hin. apply (in_map (group 1)) in Hin. rewrite E1 in Hin.
      destruct Hin as [<-|[]]. split; [discriminate | reflexivity].
  - apply (proj2 (@model_in_declaration_order enumAfterDoc enumAfterModel Hp)).
    + rewrite E2. constructor; [intros [] | constructor].
    + intros mt Hin. apply (in_map (group 1)) in Hin. rewrite E2 in Hin.
      destruct Hin as [<-|[]]. split; [discriminate | reflexivity].
Defined.


(** Array indices first, in ascending order. *)

Lemma insertByIndex_In (V : Type) i (e : str * V) l x :
  In x (insertByIndex i e l) <-> x = (i, e) \/ In x l.
Proof.
  induction l as [|[j e'] l IH]; cbn [insertByIndex In].
  - intuition.
  - destruct (i <? j)%N; cbn [In]; [intuition|]. rewrite IH. intuition.
Qed.

Lemma insertByIndex_ascendingFrom (V : Type) i (e : str * V) l : forall lo,
  (lo <= i)%N ->
  ascendingFrom lo (map fst l) = true ->
  ascendingFrom lo (map fst (insertByIndex i e l)) = true.
Proof.
  induction l as [|[j e'] l IH]; intros lo Hlo H; cbn [insertByIndex map fst ascendingFrom] in *.
  - rewrite andb_true_r. now apply N.leb_le.
  - apply andb_true_iff in H. destruct H as [H1 H2].
    destruct (i <? j)%N eqn:E; cbn [map fst ascendingFrom].
    + apply N.ltb_lt in E. rewrite H2, andb_true_r.
      apply andb_true_iff. split; apply N.leb_le; lia.
    + apply N.ltb_ge in E. rewrite H1. cbn [andb]. now apply IH.
Qed.

Lemma insertByIndex_ascending (V : Type) i (e : str * V) l :
  ascending (map fst l) = true ->
  ascending (map fst (insertByIndex i e l)) = true.
Proof.
  destruct l as [|[j e'] l]; cbn [insertByIndex map fst ascending]; intro H.
  - reflexivity.
  - destruct (i <? j)%N eqn:E; cbn [map fst ascending ascendingFrom].
    + apply N.ltb_lt in E. rewrite H, andb_true_r. apply N.leb_le. lia.
    + apply N.ltb_ge in E. now apply insertByIndex_ascendingFrom.
Qed.

Lemma indexedEntries_sorted (V : Type) (l : list (str * V)) :
  ascending (map fst (indexedEntries l)) = true
  /\ forall x, In x (indexedEntries l) -> arrayIndex (fst (snd x)) = Some (fst x).
Proof.
  unfold indexedEntries.
  assert (G : forall acc : list (N * (str * V)),
            ascending (map fst acc) = true ->
            (forall x, In x acc -> arrayIndex (fst (snd x)) = Some (fst x)) ->
            let r := fold_left
                       (fun acc e => match arrayIndex (fst e) with
                                     | Some i => insertByIndex i e acc
                                     | None => acc
                                     end) l acc in
            ascending (map fst r) = true
            /\ forall x, In x r -> arrayIndex (fst (snd x)) = Some (fst x)).
  { induction l as [|e l IH]; intros acc Hs Hi; cbn [fold_left].
    - split; assumption.
    - destruct (arrayIndex (fst e)) as [i|] eqn:E.
      + apply IH; [now apply insertByIndex_ascending|].
        intros x Hx. apply insertByIndex_In in Hx.
        destruct Hx as [->|Hx]; [exact E | now apply Hi].
      + now apply IH. }
  apply G; [reflexivity | intros x []].
Qed.

Lemma table_values_index_first (M V : Type) (key : M -> str) (val : M -> V)
    (name : V -> str) l :
  (forall m, name (val m) = key m) ->
  exists ix rest,
    objValues (fold_left (fun o m => objSet o (key m) (val m)) l (emptyObject V))
    = ix ++ rest /\
    forallb (fun v => isIndexName (name v)) ix = true /\
    forallb (fun v => negb (isIndexName (name v))) rest = true /\
    ascending (map (fun v => nameIndex (name v)) ix) = true.
Proof.
  intro Hn.
  set (o := fold_left (fun o m => objSet o (key m) (val m)) l (emptyObject V)).
  assert (Hown : forall k v, In (k, v) (own o) -> name v = k)
    by (intros k v; now apply (@table_own_name M V key val name l k v)).
  destruct (indexedEntries_sorted (own o)) as [Hs Hi].
  assert (Hsub : forall x, In x (indexedEntries (own o)) -> In (snd x) (own o)).
  { intros x Hx.
    assert (Hp : In (snd x) (filter (@isIndexed V) (own o))).
    { apply (Permutation_in (snd x) (indexedEntries_perm (own o))). now apply in_map. }
    apply filter_In in Hp. tauto. }
  assert (Hname : forall x, In x (indexedEntries (own o)) ->
                            arrayIndex (name (snd (snd x))) = Some (fst x)).
  { intros [i [k v]] Hx. cbn [fst snd]. pose proof (Hi _ Hx) as E.
    pose proof (Hsub _ Hx) as Ho. cbn [fst snd] in E, Ho. now rewrite (Hown k v Ho). }
  exists (map snd (map snd (indexedEntries (own o)))),
         (map snd (filter (fun e => negb (isIndexed e)) (own o))).
  split; [|split; [|split]].
  - unfold objValues, ownEntries. now rewrite map_app.
  - apply forallb_forall. intros v Hv. rewrite map_map in Hv.
    apply in_map_iff in Hv. destruct Hv as (x & <- & Hx).
    unfold isIndexName. now rewrite (Hname x Hx).
  - apply forallb_forall. intros v Hv. apply in_map_iff in Hv.
    destruct Hv as ([k v'] & <- & Hx). apply filter_In in Hx.
    destruct Hx as [Ho Hx]. cbn [snd]. rewrite (Hown k v' Ho).
    unfold isIndexed in Hx. cbn [fst] in Hx. unfold isIndexName.
    destruct (arrayIndex k); [discriminate|reflexivity].
  - rewrite !map_map.
    replace (map (fun x => nameIndex (name (snd (snd x)))) (indexedEntries (own o)))
      with (map fst (indexedEntries (own o))); [exact Hs|].
    apply map_ext_in. intros x Hx. unfold nameIndex. now rewrite (Hname x Hx).
Qed.

(** X5.  [Object.values] lists the properties whose keys are array indices
    first, in ascending numeric order: the entities of the model whose
    names are array indices (the canonical decimal form of an integer
    below [2^32 - 1]) come before all the others, ordered by number and
    not by place in the document, and so do the enums.  A name that is a
    decimal number but no array index ([4294967295], [007]) is among the
    others. *)
Theorem index_named_declarations_first jdlContent model :
  parseJdl jdlContent = Returned model ->
  (exists ix rest,
     entities model = ix ++ rest /\
     forallb (fun e => isIndexName (entityName e)) ix = true /\
     forallb (fun e => negb (isIndexName (entityName e))) rest = true /\
     ascending (map (fun e => nameIndex (entityName e)) ix) = true) /\
  (exists ix rest,
     enums model = ix ++ rest /\
     forallb (fun e => isIndexName (enumName e)) ix = true /\
     forallb (fun e => negb (isIndexName (enumName e))) rest = true /\
     ascending (map (fun e => nameIndex (enumName e)) ix) = true).
Proof.
  rewrite parseJdl_tables. intro H. inversion H; subst model; clear H.
  cbn [entities enums]. split.
  - unfold entityTable. now apply table_values_index_first.
  - unfold enumTable. now apply table_values_index_first.
Qed.

Lemma index_named_declarations_first_witness :
  (exists ix rest,
     entities indexModel = ix ++ rest /\
     forallb (fun e => isIndexName (entityName e)) ix = true /\
     forallb (fun e => negb (isIndexName (entityName e))) rest = true /\
     ascending (map (fun e => nameIndex (entityName e)) ix) = true) /\
  (exists ix rest,
     enums indexModel = ix ++ rest /\
     forallb (fun e => isIndexName (enumName e)) ix = true /\
     forallb (fun e => negb (isIndexName (enumName e))) rest = true /\
     ascending (map (fun e => nameIndex (enumName e)) ix) = true).
Proof. apply (@index_named_declarations_first indexDoc). vm_compute. reflexivity. Defined.


(** Three entities declared as [B], [10] and [9] come out as [9], [10],
    [B]. *)
Lemma index_named_example :
  option_map (fun m => map entityName (entities m))
    (match parseJdl (str_of "entity B { x Long } entity 10 { y Long } entity 9 { z Long }")
     with Returned m => Some m | _ => None end)
  = Some [str_of "9"; str_of "10"; str_of "B"].
Proof. vm_compute. reflexivity. Qed.

(** [4294967294] is the largest array index: an entity of that name comes
    first, one named [4294967295] or [007] keeps its place. *)
Lemma index_bound_example :
  option_map (fun m => map entityName (entities m))
    (match parseJdl (str_of
       "entity 4294967295 { x Long } entity B { y Long } entity 007 { v Long } entity 4294967294 { z Long }")
     with Returned m => Some m | _ => None end)
  = Some [str_of "4294967294"; str_of "4294967295"; str_of "B"; str_of "007"].
Proof. vm_compute. reflexivity. Qed.

(** ** The text of a match of the enum and relationship patterns *)

Lemma keyword_block_inv total kw s c k z :
  matcher total
    (SeqL [Lit kw; Plus true isWhiteSpace;
           Group 1 (Plus true isWordChar); Star true isWhiteSpace;
           Lit (str_of "{"); Group 2 (Plus true notCloseBrace);
           Lit (str_of "}")]) s c k = Some z ->
  exists ws1 name ws2 body post,
    s = kw ++ ws1 ++ name ++ ws2 ++ str_of "{" ++ body ++ str_of "}" ++ post /\
    entityShape ws1 name ws2 body /\
    k post (setCapture 1 body (setCapture 0 name c)) = Some z.
Proof.
  cbn [SeqL]. cbn [matcher]. intro H.
  apply matcher_Lit_inv in H. destruct H as (s1 & -> & H).
  apply matcher_Plus_inv in H. destruct H as (ws1 & s2 & -> & Hw1 & Hw1' & H).
  apply matcher_Plus_inv in H. destruct H as (name & s3 & -> & Hn & Hn' & H).
  apply starGreedy_run_inv in H. destruct H as (ws2 & s4 & -> & Hw2 & H).
  apply matcher_Lit_inv in H. destruct H as (s5 & -> & H).
  apply matcher_Plus_inv in H. destruct H as (body & s6 & -> & Hb & Hb' & H).
  apply matcher_Lit_inv in H. destruct H as (post & -> & H).
  cbn [Nat.sub] in H.
  rewrite (firstn_consumed body (str_of "}" ++ post)) in H.
  rewrite (firstn_consumed name (ws2 ++ str_of "{" ++ body ++ str_of "}" ++ post)) in H.
  exists ws1, name, ws2, body, post. split; [reflexivity|].
  split; [|exact H]. unfold entityShape. auto 10.
Qed.

Lemma enumRegex_shape total i s mt :
  matchAt enumRegex total i s = Some mt ->
  exists ws1 name ws2 body post,
    s = enumText ws1 name ws2 body ++ post /\
    entityShape ws1 name ws2 body /\
    index mt = i /\
    endIndex mt = i + length (enumText ws1 name ws2 body) /\
    groups mt = [Some (enumText ws1 name ws2 body); Some name; Some body].
Proof.
  unfold matchAt.
  destruct (matcher total (pattern enumRegex) s (repeat None (ngroups enumRegex))
              (fun s1 c1 => Some (s1, c1))) as [[s1 c1]|] eqn:E; [|discriminate].
  intro H. inversion H; subst; clear H. cbn [index endIndex groups].
  cbn [enumRegex pattern ngroups repeat] in E.
  apply keyword_block_inv in E.
  destruct E as (ws1 & name & ws2 & body & post & -> & Hshape & Hk).
  inversion Hk; subst; clear Hk.
  exists ws1, name, ws2, body, s1.
  assert (Hs : str_of "enum" ++ ws1 ++ name ++ ws2 ++ str_of "{" ++ body ++ str_of "}" ++ s1
               = enumText ws1 name ws2 body ++ s1)
    by (unfold enumText; now rewrite <- !app_assoc).
  rewrite Hs, firstn_consumed.
  replace (length (enumText ws1 name ws2 body ++ s1) - length s1)
    with (length (enumText ws1 name ws2 body))
    by (rewrite length_app; lia).
  auto.
Qed.

Lemma isWord_iff s : isWord s = true <-> s <> [] /\ forallb isWordChar s = true.
Proof.
  unfold isWord. rewrite andb_true_iff, negb_true_iff.
  destruct s; cbn [isEmpty]; intuition congruence.
Qed.

(** X6.  The name of every entity and of every enum of the model is a
    non-empty run of the characters [A-Za-z0-9_], and is not
    [__proto__]. *)
Theorem declared_names_are_words jdlContent model :
  parseJdl jdlContent = Returned model ->
  (forall e, In e (entities model) ->
     isWord (entityName e) = true /\ entityName e <> protoKey) /\
  (forall en, In en (enums model) ->
     isWord (enumName en) = true /\ enumName en <> protoKey).
Proof.
  intro Hp. split.
  - intros e He.
    destruct (@entities_of_model _ _ _ Hp He) as (l1 & mt & l2 & Hl & Hk & Hv & _).
    assert (Hd : In mt (declarationsOf entityRegex (stripBlockComments jdlContent)))
      by (rewrite Hl; apply in_elt).
    apply declarationsOf_In in Hd. destruct Hd as [Hm _].
    apply matchesFrom_at in Hm. apply entityRegex_shape in Hm.
    destruct Hm as (ann & ws1 & name & ws2 & body & post & _ & _ & Hshape & _ & _ & Hg).
    assert (H1 : group 1 mt = name) by (unfold group; now rewrite Hg).
    subst e. unfold entityOfMatch, entityOf. cbn [entityName].
    split; [|exact Hk]. rewrite H1. apply isWord_iff. unfold entityShape in Hshape. tauto.
  - intros en Hen.
    destruct (@enums_of_model _ _ _ Hp Hen) as (l1 & mt & l2 & Hl & Hk & Hv & _).
    assert (Hd : In mt (declarationsOf enumRegex (stripBlockComments jdlContent)))
      by (rewrite Hl; apply in_elt).
    apply declarationsOf_In in Hd. destruct Hd as [Hm _].
    apply matchesFrom_at in Hm. apply enumRegex_shape in Hm.
    destruct Hm as (ws1 & name & ws2 & body & post & _ & Hshape & _ & _ & Hg).
    assert (H1 : group 1 mt = name) by (unfold group; now rewrite Hg).
    subst en. unfold enumOfMatch. cbn [enumName].
    split; [|exact Hk]. rewrite H1. apply isWord_iff. unfold entityShape in Hshape. tauto.
Qed.

Lemma declared_names_are_words_witness :
  (forall e, In e (entities enumAfterModel) ->
     isWord (entityName e) = true /\ entityName e <> protoKey) /\
  (forall en, In en (enums enumAfterModel) ->
     isWord (enumName en) = true /\ enumName en <> protoKey).
Proof. apply (@declared_names_are_words enumAfterDoc). vm_compute. reflexivity. Defined.


(** The relationship pattern *)

Lemma cardinality_inv total s c k z :
  matcher total
    (Alt (Lit (str_of "OneToOne"))
       (Alt (Lit (str_of "ManyToOne"))
          (Alt (Lit (str_of "OneToMany")) (Lit (str_of "ManyToMany"))))) s c k = Some z ->
  exists t s', In t cardinalities /\ s = t ++ s' /\ k s' c = Some z.
Proof.
  cbn [matcher]. intro H.
  destruct (matcher total (Lit (str_of "OneToOne")) s c k) eqn:E1.
  { inversion H; subst. apply matcher_Lit_inv in E1. destruct E1 as (s' & -> & Hk).
    exists (str_of "OneToOne"), s'. split; [now left | auto]. }
  destruct (matcher total (Lit (str_of "ManyToOne")) s c k) eqn:E2.
  { inversion H; subst. apply matcher_Lit_inv in E2. destruct E2 as (s' & -> & Hk).
    exists (str_of "ManyToOne"), s'. split; [right; now left | auto]. }
  destruct (matcher total (Lit (str_of "OneToMany")) s c k) eqn:E3.
  { inversion H; subst. apply matcher_Lit_inv in E3. destruct E3 as (s' & -> & Hk).
    exists (str_of "OneToMany"), s'. split; [right; right; now left | auto]. }
  apply matcher_Lit_inv in H. destruct H as (s' & -> & Hk).
  exists (str_of "ManyToMany"), s'. split; [right; right; right; now left | auto].
Qed.

(** The optional field name of an endpoint: [(name)] or nothing. *)
Lemma endpoint_field_inv total n s c k z :
  matcher total
    (Opt (SeqL [Lit (str_of "("); Group n (Plus true isWordChar); Lit (str_of ")")]))
    s c k = Some z ->
  (exists f s', s = str_of "(" ++ f ++ str_of ")" ++ s' /\ isWord f = true /\
                k s' (setCapture (n - 1) f c) = Some z)
  \/ k s c = Some z.
Proof.
  cbn [SeqL]. cbn [matcher]. intro H.
  match type of H with
  | match ?m with _ => _ end = _ => destruct m as [z'|] eqn:E
  end; [|now right].
  inversion H; subst z'; clear H. left.
  apply matcher_Lit_inv in E. destruct E as (s1 & -> & E).
  apply matcher_Plus_inv in E. destruct E as (f & s2 & -> & Hf & Hf' & E).
  apply matcher_Lit_inv in E. destruct E as (s' & -> & E).
  match type of E with
  | (if ?b then _ else _) = _ => destruct b; [discriminate|]
  end.
  rewrite (firstn_consumed f (str_of ")" ++ s')) in E.
  exists f, s'. split; [reflexivity|]. split; [|exact E].
  apply isWord_iff. auto.
Qed.

Lemma relationshipRegex_shape total i s mt :
  matchAt relationshipRegex total i s = Some mt ->
  exists whole t a fa b fb,
    groups mt = [Some whole; Some t; Some a; fa; Some b; fb] /\
    In t cardinalities /\
    isWord a = true /\ optionForall isWord fa = true /\
    isWord b = true /\ optionForall isWord fb = true.
Proof.
  unfold matchAt.
  destruct (matcher total (pattern relationshipRegex) s
              (repeat None (ngroups relationshipRegex))
              (fun s1 c1 => Some (s1, c1))) as [[s1 c1]|] eqn:E; [|discriminate].
  intro H. inversion H; subst; clear H. cbn [index endIndex groups].
  cbn [relationshipRegex pattern ngroups repeat] in E.
  remember (Alt (Lit (str_of "OneToOne"))
              (Alt (Lit (str_of "ManyToOne"))
                 (Alt (Lit (str_of "OneToMany")) (Lit (str_of "ManyToMany"))))) as card.
  remember (Opt (SeqL [Lit (str_of "("); Group 3 (Plus true isWordChar);
                       Lit (str_of ")")])) as opt3.
  remember (Opt (SeqL [Lit (str_of "("); Group 5 (Plus true isWordChar);
                       Lit (str_of ")")])) as opt5.
  cbn [SeqL] in E. cbn [matcher] in E.
  apply matcher_Lit_inv in E. destruct E as (s2 & -> & E).
  apply matcher_Plus_inv in E. destruct E as (w1 & s3 & -> & _ & _ & E).
  subst card. apply cardinality_inv in E. destruct E as (t & s4 & Ht & -> & E).
  apply starGreedy_run_inv in E. destruct E as (w2 & s5 & -> & _ & E).
  apply matcher_Lit_inv in E. destruct E as (s6 & -> & E).
  apply starGreedy_run_inv in E. destruct E as (w3 & s7 & -> & _ & E).
  apply matcher_Plus_inv in E. destruct E as (a & s8 & -> & Ha & Ha' & E).
  rewrite (firstn_consumed a s8), (firstn_consumed t) in E.
  cbn [Nat.sub setCapture] in E.
  assert (Tail : forall fa s9,
            optionForall isWord fa = true ->
            matcher total (Plus true isWhiteSpace) s9 [Some t; Some a; fa; None; None]
              (fun s1 c1 =>
               matcher total (Lit (str_of "to")) s1 c1
                 (fun s0 c0 =>
                  matcher total (Plus true isWhiteSpace) s0 c0
                    (fun s10 c2 =>
                     matcher total (Plus true isWordChar) s10 c2
                       (fun s11 c3 =>
                        matcher total opt5 s11
                          (setCapture 3 (firstn (length s10 - length s11) s10) c3)
                          (fun s12 c4 =>
                           starGreedy isWhiteSpace s12 c4
                             (fun s13 c5 =>
                              matcher total (Lit (str_of "}")) s13 c5
                                (fun s14 c6 => Some (s14, c6)))))))) = Some (s1, c1) ->
            exists b fb,
              c1 = [Some t; Some a; fa; Some b; fb] /\
              isWord b = true /\ optionForall isWord fb = true).
  { intros fa s9 Hfa T.
    apply matcher_Plus_inv in T. destruct T as (w4 & s10 & -> & _ & _ & T).
    apply matcher_Lit_inv in T. destruct T as (s11 & -> & T).
    apply matcher_Plus_inv in T. destruct T as (w5 & s12 & -> & _ & _ & T).
    apply matcher_Plus_inv in T. destruct T as (b & s13 & -> & Hb & Hb' & T).
    rewrite (firstn_consumed b s13) in T. cbn [setCapture] in T.
    subst opt5. apply endpoint_field_inv in T.
    destruct T as [(fb & s14 & -> & Hfb & T)|T].
    - cbn [Nat.sub setCapture] in T.
      apply starGreedy_run_inv in T. destruct T as (w6 & s15 & -> & _ & T).
      apply matcher_Lit_inv in T. destruct T as (s16 & -> & T).
      inversion T; subst. exists b, (Some fb).
      split; [reflexivity|]. split; [apply isWord_iff; auto | exact Hfb].
    - apply starGreedy_run_inv in T. destruct T as (w6 & s15 & -> & _ & T).
      apply matcher_Lit_inv in T. destruct T as (s16 & -> & T).
      inversion T; subst. exists b, None.
      split; [reflexivity|]. split; [apply isWord_iff; auto | reflexivity]. }
  assert (Hwa : isWord a = true) by (apply isWord_iff; auto).
  subst opt3. apply endpoint_field_inv in E.
  destruct E as [(fa & s9 & -> & Hfa & E)|E].
  - cbn [Nat.sub setCapture] in E.
    destruct (Tail (Some fa) s9 Hfa E) as (b & fb & -> & Hb & Hfb).
    eexists _, t, a, (Some fa), b, fb. split; [reflexivity|]. auto 10.
  - destruct (Tail None s8 eq_refl E) as (b & fb & -> & Hb & Hfb).
    eexists _, t, a, None, b, fb. split; [reflexivity|]. auto 10.
Qed.

(** X7.  Every relationship of the model has one of the four types
    [OneToOne], [ManyToOne], [OneToMany], [ManyToMany]; the names of its two
    endpoints are non-empty words, and so is the field name of an
    endpoint that has one. *)
Theorem relationships_well_formed jdlContent model r :
  parseJdl jdlContent = Returned model ->
  In r (relationships model) ->
  In (relType r) cardinalities /\
  isWord (endpointName (from r)) = true /\
  optionForall isWord (endpointFieldName (from r)) = true /\
  isWord (endpointName (to r)) = true /\
  optionForall isWord (endpointFieldName (to r)) = true.
Proof.
  rewrite parseJdl_tables. intro H. inversion H; subst model; clear H.
  cbn [relationships]. intro Hin. apply in_map_iff in Hin.
  destruct Hin as (mt & <- & Hd). apply declarationsOf_In in Hd.
  destruct Hd as [Hm _]. apply matchesFrom_at in Hm.
  apply relationshipRegex_shape in Hm.
  destruct Hm as (whole & t & a & fa & b & fb & Hg & Ht & Ha & Hfa & Hb & Hfb).
  unfold relationshipOfMatch, group, groupOpt. rewrite Hg.
  cbn [relType from to endpointName endpointFieldName nth_error]. auto 10.
Qed.

Lemma relationships_well_formed_witness :
  In (relType orderToCustomer) cardinalities /\
  isWord (endpointName (from orderToCustomer)) = true /\
  optionForall isWord (endpointFieldName (from orderToCustomer)) = true /\
  isWord (endpointName (to orderToCustomer)) = true /\
  optionForall isWord (endpointFieldName (to orderToCustomer)) = true.
Proof.
  apply (@relationships_well_formed orderDoc orderModel).
  - vm_compute. reflexivity.
  - left. reflexivity.
Defined.


(** ** [trim] and [split] *)

Lemma trimStart_prefix s :
  exists w, s = w ++ trimStart s /\ forallb isWhiteSpace w = true.
Proof.
  induction s as [|x s IH]; cbn [trimStart].
  - exists []. auto.
  - destruct (isWhiteSpace x) eqn:E.
    + destruct IH as (w & Hw & Hws). exists (x :: w). cbn [app forallb].
      rewrite E, Hws. split; [now f_equal | reflexivity].
    + exists []. auto.
Qed.

Lemma trimStart_stops s : stopsAt isWhiteSpace (trimStart s) = true.
Proof.
  induction s as [|x s IH]; cbn [trimStart]; [reflexivity|].
  destruct (isWhiteSpace x) eqn:E; [exact IH|]. cbn [stopsAt]. now rewrite E.
Qed.

Lemma trimStart_fixed s : stopsAt isWhiteSpace s = true -> trimStart s = s.
Proof.
  destruct s as [|x s]; cbn [stopsAt trimStart]; [reflexivity|].
  intro H. apply negb_true_iff in H. now rewrite H.
Qed.

Lemma trimStart_spaces w : forallb isWhiteSpace w = true -> trimStart w = [].
Proof.
  induction w as [|x w IH]; cbn [forallb trimStart]; [reflexivity|].
  intro H. apply andb_true_iff in H. destruct H as [H1 H2]. rewrite H1. now apply IH.
Qed.

Lemma forallb_rev (A : Type) (p : A -> bool) l : forallb p (rev l) = forallb p l.
Proof.
  induction l as [|x l IH]; [reflexivity|]. cbn [rev forallb].
  rewrite forallb_app, IH. cbn [forallb]. rewrite andb_true_r. apply andb_comm.
Qed.

Lemma trimEnd_suffix s :
  exists w, s = trimEnd s ++ w /\ forallb isWhiteSpace w = true.
Proof.
  unfold trimEnd. destruct (trimStart_prefix (rev s)) as (w & Hw & Hws).
  exists (rev w). split; [|now rewrite forallb_rev].
  rewrite <- rev_app_distr, <- Hw. now rewrite rev_involutive.
Qed.

Lemma trimEnd_stops s : stopsAt isWhiteSpace (rev (trimEnd s)) = true.
Proof. unfold trimEnd. rewrite rev_involutive. apply trimStart_stops. Qed.

Lemma trimEnd_fixed s : stopsAt isWhiteSpace (rev s) = true -> trimEnd s = s.
Proof. intro H. unfold trimEnd. rewrite trimStart_fixed by assumption. apply rev_involutive. Qed.

Lemma trimEnd_spaces s w : forallb isWhiteSpace w = true -> trimEnd (s ++ w) = trimEnd s.
Proof.
  intro H. unfold trimEnd. rewrite rev_app_distr, trimStart_indent; [reflexivity|].
  now rewrite forallb_rev.
Qed.

(** [trimEnd] leaves a first character that is no white space where it
    is. *)
Lemma trimEnd_keeps_head s :
  s <> [] -> stopsAt isWhiteSpace s = true -> stopsAt isWhiteSpace (trimEnd s) = true
                                              /\ trimEnd s <> [].
Proof.
  destruct s as [|x s]; [contradiction|]. intros _ H. cbn [stopsAt] in H.
  apply negb_true_iff in H.
  destruct (trimEnd_suffix (x :: s)) as (w & Hw & Hws).
  destruct (trimEnd (x :: s)) as [|y t] eqn:E.
  - cbn [app] in Hw. subst w. cbn [forallb] in Hws. rewrite H in Hws. discriminate.
  - cbn [app] in Hw. inversion Hw; subst y. cbn [stopsAt]. rewrite H.
    split; [reflexivity | discriminate].
Qed.

Lemma trim_decompose s :
  exists l r, s = l ++ trim s ++ r /\
              forallb isWhiteSpace l = true /\ forallb isWhiteSpace r = true.
Proof.
  destruct (trimStart_prefix s) as (l & Hl & Hls).
  destruct (trimEnd_suffix (trimStart s)) as (r & Hr & Hrs).
  exists l, r. unfold trim. rewrite <- Hr. auto.
Qed.

Lemma trim_In s x : In x (trim s) -> In x s.
Proof.
  destruct (trim_decompose s) as (l & r & Hs & _). intro H. rewrite Hs.
  apply in_or_app. right. apply in_or_app. now left.
Qed.

Lemma trim_forallb (p : cu -> bool) s : forallb p s = true -> forallb p (trim s) = true.
Proof.
  intro H. apply forallb_forall. intros x Hx.
  rewrite forallb_forall in H. now apply H, trim_In.
Qed.

Lemma trim_ends s : trimmedEnds (trim s).
Proof.
  unfold trimmedEnds, trim. split; [|apply trimEnd_stops].
  destruct (trimStart s) as [|x t] eqn:E; [reflexivity|].
  apply trimEnd_keeps_head; [discriminate|]. rewrite <- E. apply trimStart_stops.
Qed.

Lemma trimmedEnds_trim s : trimmedEnds s -> trim s = s.
Proof.
  intros [H1 H2]. unfold trim. rewrite (trimStart_fixed _ H1). now apply trimEnd_fixed.
Qed.

Lemma isTrimmed_iff s : isTrimmed s = true <-> trimmedEnds s.
Proof.
  unfold isTrimmed. rewrite str_eqb_eq. split.
  - intro H. rewrite <- H. apply trim_ends.
  - apply trimmedEnds_trim.
Qed.

Lemma trim_idempotent s : trim (trim s) = trim s.
Proof. apply trimmedEnds_trim, trim_ends. Qed.

(** A trimmed string between white space. *)
Lemma trim_padded l t r :
  forallb isWhiteSpace l = true ->
  forallb isWhiteSpace r = true ->
  trimmedEnds t ->
  trim (l ++ t ++ r) = t.
Proof.
  intros Hl Hr [H1 H2]. unfold trim. rewrite trimStart_indent by assumption.
  destruct t as [|x t].
  - cbn [app]. now rewrite trimStart_spaces.
  - rewrite trimStart_fixed.
    + rewrite trimEnd_spaces by assumption. now apply trimEnd_fixed.
    + exact H1.
Qed.

Lemma splitChar_nonempty c s : splitChar c s <> [].
Proof.
  destruct s as [|x s]; cbn [splitChar]; [discriminate|].
  destruct (cu_eqb x c); [discriminate|]. destruct (splitChar c s); discriminate.
Qed.

Lemma splitChar_pieces c s p :
  In p (splitChar c s) -> ~ In c p /\ forall x, In x p -> In x s.
Proof.
  revert p. induction s as [|x s IH]; intros p Hp; cbn [splitChar] in Hp.
  - destruct Hp as [<-|[]]. split; [intros [] | intros y []].
  - destruct (cu_eqb x c) eqn:E.
    + destruct Hp as [<-|Hp]; [split; [intros [] | intros y []]|].
      destruct (IH p Hp) as [H1 H2]. split; [exact H1|]. intros y Hy. right. auto.
    + destruct (splitChar c s) as [|piece rest] eqn:Es.
      * destruct Hp as [<-|[]]. split.
        -- intros [->|[]]. now rewrite cu_eqb_refl in E.
        -- intros y [->|[]]. now left.
      * destruct Hp as [<-|Hp].
        -- destruct (IH piece (or_introl eq_refl)) as [H1 H2]. split.
           ++ intros [->|H]; [now rewrite cu_eqb_refl in E | auto].
           ++ intros y [->|Hy]; [now left | right; auto].
        -- destruct (IH p (or_intror Hp)) as [H1 H2]. split; [exact H1|].
           intros y Hy. right. auto.
Qed.

Lemma splitChar_hd c s :
  ~ In c (hd [] (splitChar c s)) /\ forall x, In x (hd [] (splitChar c s)) -> In x s.
Proof.
  apply splitChar_pieces. destruct (splitChar c s) eqn:E.
  - now apply splitChar_nonempty in E.
  - now left.
Qed.

(** ** The values of an enum *)

Lemma enumValues_In text v :
  In v (enumValues text) ->
  valueName v <> [] /\ isTrimmed (valueName v) = true /\
  ~ In 44%N (valueName v) /\ ~ In 40%N (valueName v) /\
  forall x, In x (valueName v) -> In x text.
Proof.
  unfold enumValues. intro H. apply in_map_iff in H. destruct H as (s & <- & H).
  cbn [valueName]. apply filter_In in H. destruct H as [H Hne].
  apply in_map_iff in H. destruct H as (p & <- & Hp).
  apply splitChar_pieces in Hp. destruct Hp as [Hc Hsub].
  destruct (splitChar_hd 40%N (trim p)) as [Hpar Hsub'].
  split; [|split; [|split; [|split]]].
  - intro E. rewrite E in Hne. discriminate.
  - unfold isTrimmed. rewrite trim_idempotent. apply str_eqb_refl.
  - intro Hin. apply Hc. apply trim_In, Hsub', trim_In, Hin.
  - intro Hin. apply Hpar. apply trim_In, Hin.
  - intros x Hx. apply trim_In, Hsub, trim_In, Hsub', trim_In, Hx.
Qed.

(** X8.  Every value of every enum of the model is a non-empty string
    without white space at either end that contains no comma, no opening
    parenthesis and no closing brace. *)
Theorem enum_values_well_formed jdlContent model en v :
  parseJdl jdlContent = Returned model ->
  In en (enums model) ->
  In v (values en) ->
  valueName v <> [] /\ isTrimmed (valueName v) = true /\
  ~ In 44%N (valueName v) /\ ~ In 40%N (valueName v) /\ ~ In 125%N (valueName v).
Proof.
  intros Hp Hen Hv.
  destruct (@enums_of_model _ _ _ Hp Hen) as (l1 & mt & l2 & Hl & _ & He & _).
  assert (Hd : In mt (declarationsOf enumRegex (stripBlockComments jdlContent)))
    by (rewrite Hl; apply in_elt).
  apply declarationsOf_In in Hd. destruct Hd as [Hm _].
  apply matchesFrom_at in Hm. apply enumRegex_shape in Hm.
  destruct Hm as (ws1 & name & ws2 & body & post & _ & Hshape & _ & _ & Hg).
  assert (H2 : group 2 mt = body) by (unfold group; now rewrite Hg).
  subst en. unfold enumOfMatch in Hv. cbn [values] in Hv. rewrite H2 in Hv.
  apply enumValues_In in Hv. destruct Hv as (V1 & V2 & V3 & V4 & V5).
  repeat (split; [assumption|]).
  intro Hin. apply V5 in Hin.
  destruct Hshape as (_ & _ & _ & _ & _ & _ & Hb).
  rewrite forallb_forall in Hb. specialize (Hb _ Hin). discriminate.
Qed.

Lemma enum_values_well_formed_witness :
  valueName {| valueName := str_of "INACTIVE" |} <> [] /\
  isTrimmed (valueName {| valueName := str_of "INACTIVE" |}) = true /\
  ~ In 44%N (valueName {| valueName := str_of "INACTIVE" |}) /\
  ~ In 40%N (valueName {| valueName := str_of "INACTIVE" |}) /\
  ~ In 125%N (valueName {| valueName := str_of "INACTIVE" |}).
Proof.
  apply (@enum_values_well_formed enumAfterDoc enumAfterModel
           {| enumName := str_of "Status";
              values := [ {| valueName := str_of "ACTIVE" |};
                          {| valueName := str_of "INACTIVE" |} ] |}).
  - vm_compute. reflexivity.
  - left. reflexivity.
  - right. left. reflexivity.
Defined.


(** ** [split(/\s+/).filter(Boolean)] *)

Lemma whitespace_starGreedy s c :
  starGreedy isWhiteSpace s c (fun s1 c1 => Some (s1, c1)) = Some (trimStart s, c).
Proof.
  induction s as [|x s IH]; cbn [starGreedy trimStart]; [reflexivity|].
  destruct (isWhiteSpace x); [now rewrite IH | reflexivity].
Qed.

Lemma whitespace_matchAt total i s :
  matchAt whitespaceRegex total i s =
  match s with
  | x :: t =>
      if isWhiteSpace x
      then Some {| index := i;
                   endIndex := i + (length s - length (trimStart t));
                   groups := [Some (firstn (length s - length (trimStart t)) s)] |}
      else None
  | [] => None
  end.
Proof.
  unfold matchAt. cbn [whitespaceRegex pattern ngroups repeat]. unfold Plus.
  cbn [matcher]. destruct s as [|x t]; [reflexivity|].
  destruct (isWhiteSpace x); [|reflexivity]. now rewrite whitespace_starGreedy.
Qed.

Lemma wordsFrom_trimStart s : wordsFrom [] (trimStart s) = wordsFrom [] s.
Proof.
  induction s as [|x s IH]; cbn [trimStart]; [reflexivity|].
  destruct (isWhiteSpace x) eqn:E; [|reflexivity].
  cbn [wordsFrom]. rewrite E. cbn [isEmpty]. exact IH.
Qed.

Lemma splitLoop_words : forall fuel a cur u,
  length u < fuel ->
  filter (fun v => negb (isEmpty v))
    (splitLoop fuel whitespaceRegex (a ++ cur ++ u) (length a) (length a + length cur))
  = wordsFrom cur u.
Proof.
  induction fuel as [|fuel IH]; intros a cur u Hf; [lia|].
  cbn [splitLoop].
  destruct u as [|x t].
  - assert (E : (length (a ++ cur ++ []) <=? length a + length cur) = true).
    { apply Nat.leb_le. rewrite !length_app. simpl. lia. }
    rewrite E. unfold substringFrom. rewrite skipn_app, skipn_all, Nat.sub_diag.
    cbn [skipn app filter wordsFrom]. rewrite app_nil_r.
    destruct cur; reflexivity.
  - assert (E : (length (a ++ cur ++ x :: t) <=? length a + length cur) = false).
    { apply Nat.leb_gt. rewrite !length_app. simpl. lia. }
    rewrite E.
    assert (Hskip : skipn (length a + length cur) (a ++ cur ++ x :: t) = x :: t).
    { rewrite app_assoc, <- length_app, skipn_app, skipn_all, Nat.sub_diag.
      reflexivity. }
    rewrite Hskip, whitespace_matchAt. cbn [wordsFrom].
    destruct (isWhiteSpace x) eqn:Ex.
    + cbn [endIndex].
      destruct (trimStart_prefix t) as (w & Hw & Hws).
      rewrite <- (wordsFrom_trimStart t).
      set (u := trimStart t) in *.
      assert (Hlen : length (x :: t) - length u = S (length w)).
      { rewrite Hw. simpl length. rewrite length_app. lia. }
      rewrite Hlen.
      assert (En : (length a + length cur + S (length w) =? length a) = false)
        by (apply Nat.eqb_neq; lia).
      rewrite En. rewrite substring_middle.
      assert (Hs : a ++ cur ++ x :: t = (a ++ cur ++ x :: w) ++ [] ++ u).
      { cbn [app]. rewrite <- !app_assoc. cbn [app]. now rewrite <- Hw. }
      assert (Hp : length a + length cur + S (length w)
                   = length (a ++ cur ++ x :: w) + length (@nil N)).
      { rewrite !length_app. simpl length. lia. }
      rewrite Hs, Hp.
      replace (length (a ++ cur ++ x :: w) + length (@nil N))
        with (length (a ++ cur ++ x :: w)) at 1 by (simpl; lia).
      cbn [filter]. rewrite IH.
      * destruct cur; reflexivity.
      * simpl in Hf. rewrite Hw in Hf. rewrite length_app in Hf. lia.
    + replace (a ++ cur ++ x :: t) with (a ++ (cur ++ [x]) ++ t)
        by (rewrite <- !app_assoc; reflexivity).
      replace (S (length a + length cur)) with (length a + length (cur ++ [x]))
        by (rewrite length_app; simpl; lia).
      apply IH. simpl in Hf. lia.
Qed.

Lemma split_filter_words v :
  filter (fun v => negb (isEmpty v)) (splitRegex whitespaceRegex v) = words v.
Proof.
  destruct v as [|x v]; [reflexivity|].
  unfold splitRegex, words.
  exact (@splitLoop_words (2 * S (length (x :: v))) [] [] (x :: v) ltac:(simpl; lia)).
Qed.

Lemma wordsFrom_In cur s w :
  In w (wordsFrom cur s) ->
  forallb (fun c => negb (isWhiteSpace c)) cur = true ->
  w <> [] /\ forallb (fun c => negb (isWhiteSpace c)) w = true /\
  exists a b, cur ++ s = a ++ w ++ b.
Proof.
  revert cur. induction s as [|x s IH]; intros cur Hin Hcur; cbn [wordsFrom] in Hin.
  - destruct cur as [|y cur]; [contradiction|]. destruct Hin as [<-|[]].
    split; [discriminate|]. split; [assumption|]. exists [], []. now rewrite !app_nil_r.
  - destruct (isWhiteSpace x) eqn:Ex.
    + assert (Hrec : In w (wordsFrom [] s) ->
                     w <> [] /\ forallb (fun c => negb (isWhiteSpace c)) w = true /\
                     exists a b, cur ++ x :: s = a ++ w ++ b).
      { intro H. destruct (IH [] H eq_refl) as (H1 & H2 & a & b & Hab).
        split; [assumption|]. split; [assumption|].
        exists (cur ++ x :: a), b. cbn [app] in Hab. rewrite Hab.
        now rewrite <- app_assoc. }
      destruct cur as [|y cur]; [now apply Hrec|].
      destruct Hin as [<-|Hin]; [|now apply Hrec].
      split; [discriminate|]. split; [assumption|]. now exists [], (x :: s).
    + assert (Hc : forallb (fun c => negb (isWhiteSpace c)) (cur ++ [x]) = true).
      { rewrite forallb_app, Hcur. cbn [forallb]. now rewrite Ex. }
      destruct (IH _ Hin Hc) as (H1 & H2 & a & b & Hab).
      split; [assumption|]. split; [assumption|].
      exists a, b. rewrite <- Hab, <- app_assoc. reflexivity.
Qed.

Lemma wordsFrom_word cur r rest :
  forallb (fun c => negb (isWhiteSpace c)) r = true ->
  wordsFrom cur (r ++ rest) = wordsFrom (cur ++ r) rest.
Proof.
  revert cur. induction r as [|x r IH]; intros cur H; cbn [app].
  - now rewrite app_nil_r.
  - cbn [forallb] in H. apply andb_true_iff in H. destruct H as [H1 H2].
    apply negb_true_iff in H1. cbn [wordsFrom]. rewrite H1, IH by assumption.
    now rewrite <- app_assoc.
Qed.

Lemma wordsFrom_spaces cur w :
  forallb isWhiteSpace w = true -> wordsFrom cur w = wordsFrom cur [].
Proof.
  revert cur. induction w as [|x w IH]; intros cur H; [reflexivity|].
  cbn [forallb] in H. apply andb_true_iff in H. destruct H as [H1 H2].
  cbn [wordsFrom]. rewrite H1, (IH [] H2). cbn [wordsFrom isEmpty].
  destruct cur; reflexivity.
Qed.

Lemma wordsFrom_app_spaces s : forall cur w,
  forallb isWhiteSpace w = true -> wordsFrom cur (s ++ w) = wordsFrom cur s.
Proof.
  induction s as [|x s IH]; intros cur w H; cbn [app].
  - now apply wordsFrom_spaces.
  - cbn [wordsFrom]. destruct (isWhiteSpace x); [|now apply IH].
    rewrite (IH [] w H). reflexivity.
Qed.

Lemma words_leading w s :
  forallb isWhiteSpace w = true -> words (w ++ s) = words s.
Proof.
  unfold words. induction w as [|x w IH]; intro H; [reflexivity|].
  cbn [forallb] in H. apply andb_true_iff in H. destruct H as [H1 H2].
  cbn [app wordsFrom]. rewrite H1. cbn [isEmpty]. now apply IH.
Qed.

Lemma words_trim s : words (trim s) = words s.
Proof.
  destruct (trim_decompose s) as (l & r & Hs & Hl & Hr).
  rewrite Hs at 2. rewrite words_leading by assumption.
  unfold words. now rewrite wordsFrom_app_spaces.
Qed.

(** The words of rules written one space apart are the rules. *)
Lemma words_rulesText rules w :
  forallb isRule rules = true ->
  forallb isWhiteSpace w = true ->
  words (rulesText rules ++ w) = rules.
Proof.
  intros H Hw. induction rules as [|r rules IH].
  - cbn [rulesText map concat app]. unfold words. now rewrite wordsFrom_spaces.
  - cbn [forallb] in H. apply andb_true_iff in H. destruct H as [Hr H].
    unfold isRule in Hr. apply andb_true_iff in Hr. destruct Hr as [Hr _].
    apply andb_true_iff in Hr. destruct Hr as [Hne Hr].
    unfold rulesText. cbn [map concat]. fold (rulesText rules).
    rewrite <- !app_assoc. rewrite words_leading by reflexivity.
    unfold words. rewrite wordsFrom_word by assumption. cbn [app].
    specialize (IH H). unfold words in IH.
    destruct rules as [|r' rules].
    + cbn [rulesText map concat app]. rewrite wordsFrom_spaces by assumption.
      cbn [wordsFrom]. destruct r; [discriminate|reflexivity].
    + unfold rulesText in *. cbn [map concat] in *. rewrite <- !app_assoc in *.
      change (str_of " " ++ ?x) with (32%N :: x) in *.
      cbn [wordsFrom] in *. change (isWhiteSpace 32%N) with true in *. cbv iota in *.
      cbn [isEmpty] in IH. destruct r; [discriminate|]. cbn [isEmpty].
      now rewrite IH.
Qed.

(** X9.  [s.split(/\s+/).filter(Boolean)], the expression that reads the
    validation rules of a field, returns the maximal runs of characters
    other than white space of [s], in order: every rule is non-empty and
    free of white space, and rules written one space apart are read back
    as they are. *)
Theorem validation_rules_are_words :
  (forall s,
     filter (fun v => negb (isEmpty v)) (splitRegex whitespaceRegex s) = words s) /\
  (forall s w,
     In w (words s) ->
     w <> [] /\ forallb (fun c => negb (isWhiteSpace c)) w = true /\
     exists a b, s = a ++ w ++ b) /\
  (forall rules,
     forallb isRule rules = true ->
     filter (fun v => negb (isEmpty v)) (splitRegex whitespaceRegex (rulesText rules))
     = rules).
Proof.
  split; [exact split_filter_words|]. split.
  - intros s w H. now apply (@wordsFrom_In [] s w).
  - intros rules H. rewrite split_filter_words.
    rewrite <- (app_nil_r (rulesText rules)). now apply words_rulesText.
Qed.

Lemma validation_rules_are_words_witness :
  filter (fun v => negb (isEmpty v))
    (splitRegex whitespaceRegex (rulesText [str_of "required"; str_of "min(0)"]))
  = [str_of "required"; str_of "min(0)"]
  /\ str_of "min(0)" <> [].
Proof.
  split.
  - apply (proj2 (proj2 validation_rules_are_words)). reflexivity.
  - apply (proj1 (proj2 validation_rules_are_words) (str_of " required  min(0) ")).
    right. left. reflexivity.
Defined.


(** ** Field lines *)

Lemma isLineTerminator_space x : isLineTerminator x = true -> isWhiteSpace x = true.
Proof.
  unfold isLineTerminator, isWhiteSpace. intro H.
  repeat rewrite ?orb_true_iff, ?andb_true_iff, ?N.leb_le, ?N.eqb_eq in *. lia.
Qed.

Lemma notSpace_dotChar s :
  forallb (fun c => negb (isWhiteSpace c)) s = true -> forallb dotChar s = true.
Proof.
  intro H. apply forallb_forall. intros x Hx. rewrite forallb_forall in H.
  specialize (H x Hx). unfold dotChar. destruct (isLineTerminator x) eqn:E; [|reflexivity].
  apply isLineTerminator_space in E. now rewrite E in H.
Qed.

Lemma wordOrAngle_not_space x : wordOrAngle x = true -> isWhiteSpace x = false.
Proof.
  unfold wordOrAngle, isWordChar, isWhiteSpace, cu_eqb. intro H.
  destruct ((9 <=? x)%N && (x <=? 13)%N || (x =? 32)%N || (x =? 160)%N || (x =? 5760)%N
            || (8192 <=? x)%N && (x <=? 8202)%N || (x =? 8232)%N || (x =? 8233)%N
            || (x =? 8239)%N || (x =? 8287)%N || (x =? 12288)%N || (x =? 65279)%N) eqn:E;
    [|reflexivity].
  exfalso.
  repeat rewrite ?orb_true_iff, ?andb_true_iff, ?N.leb_le, ?N.eqb_eq in *. lia.
Qed.

Lemma skipn_In (A : Type) n (l : list A) x : In x (skipn n l) -> In x l.
Proof.
  intro H. rewrite <- (firstn_skipn n l). apply in_or_app. now right.
Qed.

Lemma firstn_In (A : Type) n (l : list A) x : In x (firstn n l) -> In x l.
Proof.
  intro H. rewrite <- (firstn_skipn n l). apply in_or_app. now left.
Qed.

Lemma startsWith_app p s b : startsWith p s = true -> startsWith p (s ++ b) = true.
Proof.
  revert s. induction p as [|x p IH]; intros s H; [reflexivity|].
  destruct s as [|y s]; [discriminate|]. cbn [startsWith app] in *.
  apply andb_true_iff in H. destruct H as [H1 H2]. now rewrite H1, IH.
Qed.

Lemma indexOf_None_app_l p a s : indexOf p (a ++ s) = None -> indexOf p s = None.
Proof.
  induction a as [|x a IH]; [auto|]. cbn [app]. intro H.
  apply IH. now apply indexOf_None_tail with x.
Qed.

Lemma indexOf_None_app_r p s b : indexOf p (s ++ b) = None -> indexOf p s = None.
Proof.
  induction s as [|x s IH]; intro H.
  - cbn [app] in H. apply indexOf_None_startsWith in H.
    destruct p as [|y p]; [discriminate|]. reflexivity.
  - pose proof (indexOf_None_startsWith _ _ H) as Hs.
    cbn [app] in H. pose proof (indexOf_None_tail _ _ _ H) as Ht.
    cbn [indexOf].
    destruct (startsWith p (x :: s)) eqn:E.
    + apply startsWith_app with (b := b) in E. cbn [app] in E, Hs. congruence.
    + now rewrite (IH Ht).
Qed.

Lemma indexOf_firstn p s : forall n,
  p <> [] -> indexOf p s = Some n -> indexOf p (firstn n s) = None.
Proof.
  induction s as [|x s IH]; intros n Hp H.
  - rewrite firstn_nil. destruct p; [contradiction | reflexivity].
  - cbn [indexOf] in H. destruct (startsWith p (x :: s)) eqn:E.
    + inversion H; subst. cbn [firstn]. destruct p; [contradiction | reflexivity].
    + destruct (indexOf p s) as [m|] eqn:Em; [|discriminate].
      inversion H; subst. cbn [firstn indexOf].
      destruct (startsWith p (x :: firstn m s)) eqn:E'.
      * apply startsWith_app with (b := skipn m s) in E'. cbn [app] in E'.
        rewrite firstn_skipn in E'. congruence.
      * now rewrite (IH m Hp eq_refl).
Qed.

Lemma noLineComment_infix a w b :
  noLineComment (a ++ w ++ b) = true -> noLineComment w = true.
Proof.
  unfold noLineComment.
  destruct (indexOf (str_of "//") (a ++ w ++ b)) eqn:E; [discriminate|]. intros _.
  apply indexOf_None_app_l, indexOf_None_app_r in E. now rewrite E.
Qed.

Lemma noLineComment_trim s : noLineComment s = true -> noLineComment (trim s) = true.
Proof.
  destruct (trim_decompose s) as (l & r & Hs & _). intro H. rewrite Hs in H.
  now apply noLineComment_infix in H.
Qed.

Lemma substring_from_start s n : substring s 0 n = firstn n s.
Proof. unfold substring. now rewrite Nat.min_0_l, Nat.max_0_l, Nat.sub_0_r. Qed.

Lemma words_rules validations r :
  noLineComment validations = true ->
  In r (words validations) ->
  isRule r = true /\ forall x, In x r -> In x validations.
Proof.
  intros Hn Hr. apply (@wordsFrom_In [] validations r) in Hr; [|reflexivity].
  destruct Hr as (H1 & H2 & a & b & Hab). cbn [app] in Hab. split.
  - unfold isRule. rewrite H2. rewrite Hab in Hn. apply noLineComment_infix in Hn.
    rewrite Hn. destruct r; [contradiction | reflexivity].
  - intros x Hx. rewrite Hab. apply in_or_app. right. apply in_or_app. now left.
Qed.

Lemma fieldRegex_shape total i s mt :
  matchAt fieldRegex total i s = Some mt ->
  exists name ws type rest post,
    s = name ++ ws ++ type ++ rest ++ post /\
    isWord name = true /\
    ws <> [] /\ forallb isWhiteSpace ws = true /\
    isFieldType type = true /\
    forallb dotChar rest = true /\
    length s = total /\
    groups mt = [Some (name ++ ws ++ type ++ rest); Some name; Some type; Some rest].
Proof.
  unfold matchAt.
  destruct (matcher total (pattern fieldRegex) s (repeat None (ngroups fieldRegex))
              (fun s1 c1 => Some (s1, c1))) as [[s1 c1]|] eqn:E; [|discriminate].
  intro H. inversion H; subst; clear H. cbn [index endIndex groups].
  cbn [fieldRegex pattern ngroups repeat] in E.
  cbn [SeqL] in E. cbn [matcher] in E.
  destruct (length s =? total) eqn:Et; [|discriminate]. apply Nat.eqb_eq in Et.
  apply matcher_Plus_inv in E. destruct E as (name & s2 & -> & Hn & Hn' & E).
  apply matcher_Plus_inv in E. destruct E as (ws & s3 & -> & Hw & Hw' & E).
  apply matcher_Plus_inv in E. destruct E as (type & s4 & -> & Ht & Ht' & E).
  apply starGreedy_run_inv in E. destruct E as (rest & post & -> & Hr & E).
  rewrite (firstn_consumed name), (firstn_consumed type), (firstn_consumed rest) in E.
  cbn [Nat.sub setCapture] in E. inversion E; subst; clear E.
  exists name, ws, type, rest, s1.
  replace (name ++ ws ++ type ++ rest ++ s1) with ((name ++ ws ++ type ++ rest) ++ s1)
    by now rewrite <- !app_assoc.
  rewrite firstn_consumed.
  split; [reflexivity|]. split; [apply isWord_iff; auto|].
  split; [assumption|]. split; [assumption|].
  split; [unfold isFieldType; rewrite Ht'; destruct type; [contradiction|reflexivity]|].
  split; [assumption|]. split; [reflexivity|]. reflexivity.
Qed.

(** What [fieldOfLine] returns is well formed and made of characters of
    the line. *)
Lemma fieldOfLine_wf enums line f :
  fieldOfLine enums line = Some f ->
  wellFormedField f = true /\ forall x, In x (fieldChars f) -> In x line.
Proof.
  unfold fieldOfLine. destruct (regexMatch fieldRegex line) as [mt|] eqn:Em; [|discriminate].
  unfold regexMatch in Em. apply exec_at in Em. apply fieldRegex_shape in Em.
  destruct Em as (name & ws & type & rest & post & Hs & Hname & _ & _ & Htype & Hrest & _ & Hg).
  assert (G1 : group 1 mt = name) by (unfold group; now rewrite Hg).
  assert (G2 : group 2 mt = type) by (unfold group; now rewrite Hg).
  assert (G3 : group 3 mt = rest) by (unfold group; now rewrite Hg).
  rewrite G1, G2, G3.
  assert (Hline : forall x, In x (name ++ type ++ rest) -> In x line).
  { intros x Hx. apply (@skipn_In _ (index mt)). rewrite Hs.
    apply in_app_or in Hx. destruct Hx as [Hx|Hx]; [apply in_or_app; now left|].
    apply in_or_app. right. apply in_or_app. right.
    apply in_app_or in Hx. destruct Hx as [Hx|Hx]; apply in_or_app; [now left|].
    right. apply in_or_app. now left. }
  assert (Hrules : forall validations,
            noLineComment validations = true ->
            (forall x, In x validations -> In x rest) ->
            forallb isRule
              (filter (fun v => negb (isEmpty v)) (splitRegex whitespaceRegex validations))
            = true
            /\ forall x,
                 In x (concat (filter (fun v => negb (isEmpty v))
                                 (splitRegex whitespaceRegex validations))) ->
                 In x rest).
  { intros validations Hn Hsub. rewrite split_filter_words. split.
    - apply forallb_forall. intros r Hr. now apply (words_rules validations).
    - intros x Hx. apply in_concat in Hx. destruct Hx as (r & Hr & Hx).
      apply Hsub. now apply (proj2 (@words_rules validations r Hn Hr)). }
  destruct (indexOf (str_of "//") rest) as [commentIndex|] eqn:Ei.
  - intro H. inversion H; subst f; clear H.
    unfold wellFormedField, fieldChars.
    cbn [fieldName fieldType fieldValidateRules comment optionForall].
    rewrite substring_from_start.
    destruct (Hrules (trim (firstn commentIndex rest))) as [R1 R2].
    { apply noLineComment_trim. unfold noLineComment.
      rewrite (@indexOf_firstn (str_of "//") rest commentIndex); [reflexivity | discriminate | exact Ei]. }
    { intros x Hx. apply trim_In in Hx. now apply firstn_In in Hx. }
    rewrite Hname, Htype, R1. cbn [andb]. split.
    + unfold isComment, isTrimmed. rewrite trim_idempotent, str_eqb_refl. cbn [andb].
      apply trim_forallb. apply forallb_forall. intros x Hx.
      unfold substringFrom in Hx. apply skipn_In in Hx.
      rewrite forallb_forall in Hrest. now apply Hrest.
    + intros x Hx. apply Hline.
      apply in_app_or in Hx. destruct Hx as [Hx|Hx]; [apply in_or_app; now left|].
      apply in_or_app. right.
      apply in_app_or in Hx. destruct Hx as [Hx|Hx]; [apply in_or_app; now left|].
      apply in_or_app. right.
      apply in_app_or in Hx. destruct Hx as [Hx|Hx]; [now apply R2|].
      apply trim_In in Hx. unfold substringFrom in Hx. now apply skipn_In in Hx.
  - intro H. inversion H; subst f; clear H.
    unfold wellFormedField, fieldChars.
    cbn [fieldName fieldType fieldValidateRules comment optionForall].
    destruct (Hrules rest) as [R1 R2].
    { unfold noLineComment. now rewrite Ei. }
    { auto. }
    rewrite Hname, Htype, R1. cbn [andb]. split; [reflexivity|].
    intros x Hx. apply Hline.
    apply in_app_or in Hx. destruct Hx as [Hx|Hx]; [apply in_or_app; now left|].
    apply in_or_app. right.
    apply in_app_or in Hx. destruct Hx as [Hx|Hx]; [apply in_or_app; now left|].
    apply in_or_app. right. rewrite app_nil_r in Hx. now apply R2.
Qed.

Lemma fieldLinesOf_In body line x :
  In line (fieldLinesOf body) -> In x line -> In x body.
Proof.
  unfold fieldLinesOf. intros H Hx. apply filter_In in H. destruct H as [H _].
  apply in_map_iff in H. destruct H as (p & <- & Hp).
  apply splitChar_pieces in Hp. apply Hp. now apply trim_In.
Qed.

(** Where a field of an entity of the model comes from: [AUDIT_FIELDS], or
    a field line of a block without closing brace. *)
Lemma model_field_origin jdlContent model e f :
  parseJdl jdlContent = Returned model ->
  In e (entities model) ->
  In f (fields e) ->
  In f AUDIT_FIELDS \/
  exists body line,
    forallb notCloseBrace body = true /\
    In line (fieldLinesOf body) /\
    fieldOfLine (enumTable (stripBlockComments jdlContent)) line = Some f.
Proof.
  intros Hp He Hf.
  destruct (@entities_of_model _ _ _ Hp He) as (l1 & mt & l2 & Hl & _ & Hv & _).
  assert (Hd : In mt (declarationsOf entityRegex (stripBlockComments jdlContent)))
    by (rewrite Hl; apply in_elt).
  apply declarationsOf_In in Hd. destruct Hd as [Hm _].
  apply matchesFrom_at in Hm. apply entityRegex_shape in Hm.
  destruct Hm as (ann & ws1 & name & ws2 & body & post & _ & _ & Hshape & _ & _ & Hg).
  assert (H2 : group 2 mt = body) by (unfold group; now rewrite Hg).
  subst e. unfold entityOfMatch, entityOf in Hf. cbn [fields] in Hf. rewrite H2 in Hf.
  assert (Hdecl : In f (declaredFields (enumTable (stripBlockComments jdlContent))
                          (fieldLinesOf body)) ->
                  exists body line,
                    forallb notCloseBrace body = true /\
                    In line (fieldLinesOf body) /\
                    fieldOfLine (enumTable (stripBlockComments jdlContent)) line = Some f).
  { intro Hin. apply declaredFields_In in Hin. destruct Hin as (line & Hline & Hfl).
    exists body, line. unfold entityShape in Hshape. tauto. }
  destruct (hasAuditAnnotation mt); [|right; now apply Hdecl].
  apply in_app_or in Hf. destruct Hf as [Hf|Hf]; [right; now apply Hdecl | now left].
Qed.

(** X10.  Every field of every entity of the model is well formed: its name
    is a non-empty word, its type a non-empty run of word characters and
    angle brackets, each of its validation rules a non-empty string free
    of white space and of the line-comment marker, and its comment, when
    it has one, a trimmed string without line terminator.  None of these
    strings contains a closing brace. *)
Theorem fields_well_formed jdlContent model e f :
  parseJdl jdlContent = Returned model ->
  In e (entities model) ->
  In f (fields e) ->
  wellFormedField f = true /\ forallb notCloseBrace (fieldChars f) = true.
Proof.
  intros Hp He Hf.
  destruct (model_field_origin _ _ _ Hp He Hf) as [Ha|(body & line & Hb & Hline & Hfl)].
  - cbn [AUDIT_FIELDS In] in Ha.
    destruct Ha as [<-|[<-|[<-|[<-|[]]]]]; split; vm_compute; reflexivity.
  - apply fieldOfLine_wf in Hfl. destruct Hfl as [Hwf Hsub]. split; [exact Hwf|].
    apply forallb_forall. intros x Hx. rewrite forallb_forall in Hb.
    apply Hb. apply (fieldLinesOf_In body line); auto.
Qed.

Lemma fields_well_formed_witness :
  wellFormedField totalField = true /\ forallb notCloseBrace (fieldChars totalField) = true.
Proof.
  apply (@fields_well_formed orderDoc orderModel orderEntity totalField).
  - vm_compute. reflexivity.
  - left. reflexivity.
  - left. reflexivity.
Defined.


(** ** Reading back the line of a field *)

Lemma execFrom_here re total i s mt :
  matchAt re total i s = Some mt -> execFrom re total i s = Some mt.
Proof. intro H. destruct s; cbn [execFrom]; now rewrite H. Qed.

Lemma noMarker_app a b :
  indexOf (str_of "//") a = None ->
  indexOf (str_of "//") b = None ->
  startsWith [47%N] b = false ->
  indexOf (str_of "//") (a ++ b) = None.
Proof.
  intros Ha Hb Hs. induction a as [|x a IH]; [exact Hb|].
  pose proof (indexOf_None_startsWith _ _ Ha) as Hx.
  pose proof (indexOf_None_tail _ _ _ Ha) as Ht.
  cbn [app indexOf].
  change (str_of "//") with [47%N; 47%N] in *.
  rewrite startsWith2_app.
  destruct a as [|y a].
  - rewrite Hs, andb_false_r. cbn [app]. now rewrite Hb.
  - rewrite Hx. now rewrite (IH Ht).
Qed.

Lemma marker_after_space a b :
  indexOf (str_of "//") a = None ->
  indexOf (str_of "//") (a ++ str_of " " ++ str_of "//" ++ b) = Some (length a + 1).
Proof.
  intro Ha. induction a as [|x a IH]; [reflexivity|].
  pose proof (indexOf_None_startsWith _ _ Ha) as Hx.
  pose proof (indexOf_None_tail _ _ _ Ha) as Ht.
  cbn [app indexOf length].
  change (str_of "//") with [47%N; 47%N] in *.
  rewrite startsWith2_app.
  destruct a as [|y a].
  - change (str_of " " ++ 47%N :: 47%N :: b) with (32%N :: 47%N :: 47%N :: b).
    cbn [app startsWith]. change (cu_eqb 47%N 32%N) with false.
    cbn [andb]. rewrite andb_false_r. reflexivity.
  - rewrite Hx. now rewrite (IH Ht).
Qed.

Lemma rulesText_noMarker rules :
  forallb isRule rules = true ->
  indexOf (str_of "//") (rulesText rules) = None /\
  startsWith [47%N] (rulesText rules) = false.
Proof.
  induction rules as [|r rules IH]; intro H; [split; reflexivity|].
  cbn [forallb] in H. apply andb_true_iff in H. destruct H as [Hr H].
  destruct (IH H) as [IH1 IH2]. split; [|reflexivity].
  unfold rulesText. cbn [map concat]. fold (rulesText rules).
  apply noMarker_app; [|assumption|assumption].
  unfold isRule, noLineComment in Hr. apply andb_true_iff in Hr. destruct Hr as [_ Hr].
  destruct (indexOf (str_of "//") r) eqn:E; [discriminate|].
  change (str_of " " ++ r) with (32%N :: r). cbn [indexOf].
  change (startsWith (str_of "//") (32%N :: r)) with false. cbv iota. now rewrite E.
Qed.

Lemma rulesText_dotChar rules :
  forallb isRule rules = true -> forallb dotChar (rulesText rules) = true.
Proof.
  induction rules as [|r rules IH]; intro H; [reflexivity|].
  cbn [forallb] in H. apply andb_true_iff in H. destruct H as [Hr H].
  unfold rulesText. cbn [map concat]. fold (rulesText rules).
  rewrite !forallb_app, (IH H), andb_true_r.
  unfold isRule in Hr. apply andb_true_iff in Hr. destruct Hr as [Hr _].
  apply andb_true_iff in Hr. destruct Hr as [_ Hr].
  now rewrite (notSpace_dotChar _ Hr).
Qed.

Lemma fieldLine_matchAt f :
  wellFormedField f = true ->
  matchAt fieldRegex (length (fieldLine f)) 0 (fieldLine f) =
  Some {| index := 0;
          endIndex := length (fieldLine f);
          groups := [Some (fieldLine f); Some (fieldName f); Some (fieldType f);
                     Some (rulesText (fieldValidateRules f) ++ commentText (comment f))] |}.
Proof.
  unfold wellFormedField. intro H.
  apply andb_true_iff in H. destruct H as [H Hc].
  apply andb_true_iff in H. destruct H as [H Hr].
  apply andb_true_iff in H. destruct H as [Hn Ht].
  apply isWord_iff in Hn. destruct Hn as [Hn Hn'].
  unfold isFieldType in Ht. apply andb_true_iff in Ht. destruct Ht as [Ht Ht'].
  set (rest := rulesText (fieldValidateRules f) ++ commentText (comment f)).
  assert (Hline : fieldLine f = fieldName f ++ str_of " " ++ fieldType f ++ rest ++ [])
    by (unfold fieldLine, rest; now rewrite app_nil_r).
  assert (Hstop : stopsAt wordOrAngle (rest ++ []) = true).
  { rewrite app_nil_r. unfold rest.
    destruct (fieldValidateRules f) as [|r rules]; [|reflexivity].
    cbn [rulesText map concat app]. destruct (comment f); reflexivity. }
  assert (Hdot : forallb dotChar rest = true).
  { unfold rest. rewrite forallb_app, (rulesText_dotChar _ Hr). cbn [andb].
    destruct (comment f) as [c|]; [|reflexivity]. cbn [commentText optionForall] in *.
    unfold isComment in Hc. apply andb_true_iff in Hc. destruct Hc as [_ Hc].
    rewrite forallb_app. cbn [forallb str_of]. cbn [andb].
    destruct c as [|y c]; [reflexivity|]. cbn [isEmpty]. rewrite forallb_app, Hc.
    reflexivity. }
  assert (E : matcher (length (fieldLine f)) (pattern fieldRegex) (fieldLine f)
                (repeat None (ngroups fieldRegex)) (fun s1 c1 => Some (s1, c1))
              = Some ([], [Some (fieldName f); Some (fieldType f); Some rest])).
  { cbn [fieldRegex pattern ngroups repeat]. cbn [SeqL]. cbn [matcher].
    rewrite Nat.eqb_refl. rewrite Hline.
    apply matcher_Plus_run; [assumption | assumption | reflexivity |].
    cbv beta. apply matcher_Plus_run; [discriminate | reflexivity | |].
    { destruct (fieldType f) as [|x t]; [discriminate|].
      cbn [forallb] in Ht'. apply andb_true_iff in Ht'. destruct Ht' as [Hx _].
      cbn [app stopsAt]. now rewrite (wordOrAngle_not_space _ Hx). }
    cbv beta. apply matcher_Plus_run;
      [destruct (fieldType f); [discriminate | discriminate] | assumption | assumption |].
    cbv beta. apply starGreedy_run; [assumption | reflexivity |].
    cbv beta. rewrite (firstn_consumed rest []).
    rewrite (firstn_consumed (fieldType f) (rest ++ [])).
    rewrite (firstn_consumed (fieldName f)). reflexivity. }
  unfold matchAt. rewrite E. cbn [length]. rewrite Nat.sub_0_r, firstn_all. reflexivity.
Qed.

(** The field grammar reads the line of a well-formed field back. *)
Lemma fieldOfLine_fieldLine enums f :
  wellFormedField f = true ->
  fieldTypeIsEnum f = objTruthy enumProps enums (fieldType f) ->
  fieldOfLine enums (fieldLine f) = Some f.
Proof.
  intros Hwf Hflag. pose proof (fieldLine_matchAt f Hwf) as Hm.
  unfold fieldOfLine, regexMatch, exec. cbn [length Nat.ltb Nat.leb skipn].
  rewrite (execFrom_here _ _ _ _ Hm). unfold group. cbn [groups nth_error].
  unfold wellFormedField in Hwf.
  apply andb_true_iff in Hwf. destruct Hwf as [Hwf Hc].
  apply andb_true_iff in Hwf. destruct Hwf as [_ Hr].
  destruct (rulesText_noMarker _ Hr) as [Hnone Hslash].
  destruct f as [name type flag rules com].
  cbn [fieldName fieldType fieldTypeIsEnum fieldValidateRules comment] in *.
  destruct com as [c|]; cbn [commentText optionForall] in *.
  - change (str_of " //" ++ ?x) with (str_of " " ++ str_of "//" ++ x).
    rewrite (marker_after_space _ _ Hnone). rewrite substring_from_start.
    set (ct := if isEmpty c then [] else str_of " " ++ c).
    assert (E1 : firstn (length (rulesText rules) + 1)
                   (rulesText rules ++ str_of " " ++ str_of "//" ++ ct)
                 = rulesText rules ++ str_of " ").
    { replace (rulesText rules ++ str_of " " ++ str_of "//" ++ ct)
        with ((rulesText rules ++ str_of " ") ++ str_of "//" ++ ct)
        by now rewrite <- app_assoc.
      replace (length (rulesText rules) + 1) with (length (rulesText rules ++ str_of " "))
        by (rewrite length_app; reflexivity).
      apply firstn_app_length. }
    assert (E2 : substringFrom (rulesText rules ++ str_of " " ++ str_of "//" ++ ct)
                   (length (rulesText rules) + 1 + 2) = ct).
    { unfold substringFrom.
      replace (rulesText rules ++ str_of " " ++ str_of "//" ++ ct)
        with ((rulesText rules ++ str_of " ") ++ str_of "//" ++ ct)
        by now rewrite <- app_assoc.
      replace (length (rulesText rules) + 1) with (length (rulesText rules ++ str_of " "))
        by (rewrite length_app; reflexivity).
      rewrite skipn_app_length. reflexivity. }
    rewrite E1, E2, split_filter_words, words_trim.
    rewrite (words_rulesText _ _ Hr) by reflexivity.
    assert (E3 : trim ct = c).
    { unfold isComment in Hc. apply andb_true_iff in Hc. destruct Hc as [Hc _].
      apply isTrimmed_iff in Hc. subst ct. destruct c as [|y c]; [reflexivity|].
      cbn [isEmpty]. rewrite <- (app_nil_r (y :: c)) at 1.
      now apply trim_padded. }
    rewrite E3, <- Hflag. reflexivity.
  - rewrite app_nil_r, Hnone, split_filter_words.
    rewrite <- (app_nil_r (rulesText rules)), (words_rulesText _ _ Hr) by reflexivity.
    rewrite <- Hflag. reflexivity.
Qed.

(** X11.  A well-formed field written as a line (name, type, validation
    rules and comment, one space apart) is read back by the field grammar
    as the same field, provided its enum flag is what the enum table says
    of its type. *)
Theorem field_line_round_trip enums f :
  wellFormedField f = true ->
  fieldTypeIsEnum f = objTruthy enumProps enums (fieldType f) ->
  fieldOfLine enums (fieldLine f) = Some f.
Proof. intros Hwf Hflag. exact (fieldOfLine_fieldLine enums f Hwf Hflag). Qed.

Lemma field_line_round_trip_witness :
  fieldOfLine (emptyObject EnumDef) (fieldLine totalField) = Some totalField.
Proof. apply field_line_round_trip; reflexivity. Defined.


(** ** Reading back the values of an enum *)

Lemma stopsAt_app (p : cu -> bool) a b : a <> [] -> stopsAt p (a ++ b) = stopsAt p a.
Proof. destruct a; [contradiction | reflexivity]. Qed.

Lemma stopsAt_rev_app (p : cu -> bool) a b :
  b <> [] -> stopsAt p (rev (a ++ b)) = stopsAt p (rev b).
Proof.
  intro H. rewrite rev_app_distr. apply stopsAt_app.
  intro E. apply H. apply (f_equal (@rev _)) in E. now rewrite rev_involutive in E.
Qed.

Lemma isEnumValue_iff v :
  isEnumValue v = true <->
  v <> [] /\ trimmedEnds v /\ ~ In 44%N v /\ ~ In 40%N v.
Proof.
  unfold isEnumValue. rewrite !andb_true_iff, negb_true_iff, isTrimmed_iff.
  rewrite forallb_forall. split.
  - intros [[H1 H2] H3]. split; [destruct v; [discriminate H1 | discriminate]|].
    split; [assumption|]. split; intro Hin; specialize (H3 _ Hin);
      cbn [cu_eqb] in H3; unfold cu_eqb in H3; simpl in H3; discriminate.
  - intros (H1 & H2 & H3 & H4). split; [split|].
    + destruct v; [contradiction | reflexivity].
    + assumption.
    + intros x Hx. apply negb_true_iff, orb_false_iff. split.
      * destruct (cu_eqb x 44%N) eqn:E; [|reflexivity].
        apply cu_eqb_eq in E. subst. contradiction.
      * destruct (cu_eqb x 40%N) eqn:E; [|reflexivity].
        apply cu_eqb_eq in E. subst. contradiction.
Qed.

Lemma noComma_iff s : noComma s = true <-> ~ In 44%N s.
Proof.
  unfold noComma. rewrite forallb_forall. split.
  - intros H Hin. specialize (H _ Hin). now rewrite cu_eqb_refl in H.
  - intros H x Hx. apply negb_true_iff. destruct (cu_eqb x 44%N) eqn:E; [|reflexivity].
    apply cu_eqb_eq in E. subst. contradiction.
Qed.

Lemma enumValueText_facts it :
  isEnumItem it = true ->
  enumValueText it <> [] /\ trimmedEnds (enumValueText it) /\ ~ In 44%N (enumValueText it).
Proof.
  destruct it as [name lit]. unfold isEnumItem, enumValueText. cbn [fst snd].
  rewrite andb_true_iff, isEnumValue_iff. intros [(H1 & [H2 H2'] & H3 & H4) Hl].
  split; [destruct name; [contradiction | discriminate]|]. split; [split|].
  - now rewrite stopsAt_app.
  - destruct lit as [lit|]; [|now rewrite app_nil_r].
    replace (name ++ str_of " (" ++ lit ++ str_of ")")
      with ((name ++ str_of " (" ++ lit) ++ str_of ")") by now rewrite <- !app_assoc.
    rewrite stopsAt_rev_app by discriminate. reflexivity.
  - intro Hin. apply in_app_or in Hin. destruct Hin as [Hin|Hin]; [contradiction|].
    destruct lit as [lit|]; [|contradiction]. cbn [optionForall] in Hl.
    apply noComma_iff in Hl.
    apply in_app_or in Hin. destruct Hin as [Hin|Hin].
    { cbn in Hin. intuition discriminate. }
    apply in_app_or in Hin. destruct Hin as [Hin|Hin]; [contradiction|].
    cbn in Hin. intuition discriminate.
Qed.

Lemma joinWith_facts sep pieces :
  pieces <> [] ->
  (forall p, In p pieces -> p <> [] /\ trimmedEnds p) ->
  joinWith sep pieces <> [] /\ trimmedEnds (joinWith sep pieces).
Proof.
  induction pieces as [|x pieces IH]; [contradiction|]. intros _ H.
  destruct (H x (or_introl eq_refl)) as [Hx [Hx1 Hx2]].
  destruct pieces as [|y pieces]; [cbn [joinWith]; split; [assumption | now split]|].
  destruct IH as [IH1 [IH2 IH3]]; [discriminate | intros p Hp; apply H; now right |].
  change (joinWith sep (x :: y :: pieces)) with (x ++ sep ++ joinWith sep (y :: pieces)).
  split; [destruct x; [contradiction | discriminate]|]. split.
  - now rewrite stopsAt_app.
  - rewrite app_assoc, stopsAt_rev_app; assumption.
Qed.

Lemma splitChar_joinWith gap pieces : forall pre y,
  ~ In 44%N pre ->
  (forall p, In p (y :: pieces) -> ~ In 44%N p) ->
  ~ In 44%N gap ->
  splitChar 44%N (pre ++ joinWith (44%N :: gap) (y :: pieces))
  = (pre ++ y) :: map (fun p => gap ++ p) pieces.
Proof.
  induction pieces as [|z pieces IH]; intros pre y Hpre Hp Hgap.
  - cbn [joinWith map]. apply splitChar_single. intro Hin.
    apply in_app_or in Hin. destruct Hin; [contradiction|]. apply (Hp y); [now left | assumption].
  - change (joinWith (44%N :: gap) (y :: z :: pieces))
      with (y ++ (44%N :: gap) ++ joinWith (44%N :: gap) (z :: pieces)).
    replace (pre ++ y ++ (44%N :: gap) ++ joinWith (44%N :: gap) (z :: pieces))
      with ((pre ++ y) ++ 44%N :: (gap ++ joinWith (44%N :: gap) (z :: pieces)))
      by (rewrite <- !app_assoc; reflexivity).
    rewrite splitChar_app, splitChar_single.
    + cbn [app map]. f_equal. apply IH; [assumption| |assumption].
      intros p Hin. apply Hp. now right.
    + intro Hin. apply in_app_or in Hin. destruct Hin; [contradiction|].
      apply (Hp y); [now left | assumption].
Qed.

Lemma value_of_piece pad it :
  forallb isWhiteSpace pad = true ->
  isEnumItem it = true ->
  trim (hd [] (splitChar 40%N (trim (pad ++ enumValueText it)))) = fst it.
Proof.
  intros Hpad Hit. destruct (enumValueText_facts it Hit) as (_ & Hends & _).
  rewrite <- (app_nil_r (enumValueText it)). rewrite trim_padded by auto.
  destruct it as [name lit]. unfold isEnumItem in Hit. cbn [fst snd] in *.
  apply andb_true_iff in Hit. destruct Hit as [Hv _].
  apply isEnumValue_iff in Hv. destruct Hv as (H1 & H2 & _ & H4).
  unfold enumValueText. cbn [fst snd]. destruct lit as [lit|].
  - replace (name ++ str_of " (" ++ lit ++ str_of ")")
      with ((name ++ str_of " ") ++ 40%N :: (lit ++ str_of ")"))
      by (rewrite <- !app_assoc; reflexivity).
    rewrite splitChar_app, splitChar_single.
    + cbn [app hd].
      exact (@trim_padded [] name (str_of " ") eq_refl eq_refl H2).
    + intro Hin. apply in_app_or in Hin. destruct Hin as [Hin|Hin]; [contradiction|].
      cbn in Hin. intuition discriminate.
  - rewrite app_nil_r, splitChar_single by assumption. cbn [hd].
    now apply trimmedEnds_trim.
Qed.

(** The enum loop reads a comma-separated list of well-formed items back. *)
Lemma enumValues_joinWith lead gap trail items :
  forallb isWhiteSpace lead = true ->
  forallb isWhiteSpace gap = true ->
  forallb isWhiteSpace trail = true ->
  forallb isEnumItem items = true ->
  enumValues (lead ++ joinWith (44%N :: gap) (map enumValueText items) ++ trail)
  = map (fun it => {| valueName := fst it |}) items.
Proof.
  intros Hlead Hgap Htrail Hitems. rewrite forallb_forall in Hitems.
  destruct items as [|it items].
  - cbn [map joinWith app]. unfold enumValues.
    assert (E : trim (lead ++ trail) = []).
    { unfold trim. rewrite trimStart_spaces; [reflexivity|].
      rewrite forallb_app, Hlead, Htrail. reflexivity. }
    rewrite E. reflexivity.
  - set (pieces := map enumValueText (it :: items)).
    assert (Hp : forall p, In p pieces -> p <> [] /\ trimmedEnds p /\ ~ In 44%N p).
    { intros p Hin. apply in_map_iff in Hin. destruct Hin as (i & <- & Hi).
      apply enumValueText_facts, Hitems, Hi. }
    assert (Hj : trimmedEnds (joinWith (44%N :: gap) pieces)).
    { apply joinWith_facts; [discriminate|]. intros p Hin. split; apply Hp, Hin. }
    unfold enumValues. rewrite trim_padded by assumption.
    assert (Hg : ~ In 44%N gap).
    { intro Hin. rewrite forallb_forall in Hgap. specialize (Hgap _ Hin). discriminate. }
    subst pieces. cbn [map].
    rewrite <- (app_nil_l (joinWith _ _)).
    rewrite splitChar_joinWith; [| intros [] | | assumption].
    + cbn [app map]. rewrite <- (app_nil_l (enumValueText it)).
      rewrite value_of_piece; [|reflexivity | apply Hitems; now left].
      rewrite !map_map.
      assert (Hrest : map (fun x => trim (hd [] (splitChar 40%N (trim (gap ++ enumValueText x)))))
                        items = map fst items).
      { apply map_ext_in. intros x Hx. apply value_of_piece; [assumption|].
        apply Hitems. now right. }
      rewrite Hrest.
      assert (Hf : forall l : list (str * option str),
                (forall x, In x l -> isEnumItem x = true) ->
                map (fun v => {| valueName := v |})
                  (filter (fun v => negb (isEmpty v)) (map fst l))
                = map (fun x => {| valueName := fst x |}) l).
      { induction l as [|x l IH]; intro H; [reflexivity|]. cbn [map filter].
        assert (Hx : negb (isEmpty (fst x)) = true).
        { specialize (H x (or_introl eq_refl)). unfold isEnumItem, isEnumValue in H.
          repeat (apply andb_true_iff in H; destruct H as [H ?]). assumption. }
        rewrite Hx. cbn [map]. f_equal. apply IH. intros y Hy. apply H. now right. }
      exact (Hf (it :: items) Hitems).
    + intros p Hin. apply (Hp p). exact Hin.
Qed.

(** X12.  A list of enum values written as text (the names separated by
    commas, each followed or not by a literal between parentheses, with any
    white space before the list, after each comma and after the list) is
    read back by the enum loop as the list of the names, in order and with
    its repetitions. *)
Theorem enumValues_round_trip lead gap trail items :
  forallb isWhiteSpace lead = true ->
  forallb isWhiteSpace gap = true ->
  forallb isWhiteSpace trail = true ->
  forallb isEnumItem items = true ->
  enumValues (lead ++ joinWith (44%N :: gap) (map enumValueText items) ++ trail)
  = map (fun it => {| valueName := fst it |}) items.
Proof. intros Hlead Hgap Htrail Hitems. now apply enumValues_joinWith. Qed.

Lemma enumValues_round_trip_witness :
  enumValues (nl ++ joinWith (44%N :: str_of " ")
                      (map enumValueText
                         [ (str_of "ACTIVE", None);
                           (str_of "CLOSED", Some (str_of "closed (for good)"));
                           (str_of "ACTIVE", None) ])
              ++ str_of " ")
  = [ {| valueName := str_of "ACTIVE" |}; {| valueName := str_of "CLOSED" |};
      {| valueName := str_of "ACTIVE" |} ].
Proof.
  apply (@enumValues_round_trip nl (str_of " ") (str_of " ")
           [ (str_of "ACTIVE", None);
             (str_of "CLOSED", Some (str_of "closed (for good)"));
             (str_of "ACTIVE", None) ]); reflexivity.
Defined.


(** ** Matching a declaration written as text *)

Lemma matcher_Lit_fail total l : forall s c k,
  startsWith l s = false -> matcher total (Lit l) s c k = None.
Proof.
  induction l as [|x l IH]; intros s c k H; [discriminate|].
  destruct l as [|y l].
  - cbn [Lit matcher]. destruct s as [|x' s]; [reflexivity|].
    cbn [startsWith] in H. rewrite andb_true_r in H. now rewrite H.
  - change (Lit (x :: y :: l)) with (Seq (Class (cu_eqb x)) (Lit (y :: l))).
    cbn [matcher]. destruct s as [|x' s]; [reflexivity|].
    cbn [startsWith] in H. destruct (cu_eqb x x'); [|reflexivity].
    cbn [andb] in H. now apply IH.
Qed.

Lemma keyword_block_matches total kw ws1 name ws2 body post c k z :
  entityShape ws1 name ws2 body ->
  k post (setCapture 1 body (setCapture 0 name c)) = Some z ->
  matcher total
    (SeqL [Lit kw; Plus true isWhiteSpace;
           Group 1 (Plus true isWordChar); Star true isWhiteSpace;
           Lit (str_of "{"); Group 2 (Plus true notCloseBrace);
           Lit (str_of "}")])
    (kw ++ ws1 ++ name ++ ws2 ++ str_of "{" ++ body ++ str_of "}" ++ post) c k = Some z.
Proof.
  intros (H1 & H2 & H3 & H4 & H5 & H6 & H7) Hk.
  cbn [SeqL]. cbn [matcher]. rewrite matcher_Lit.
  apply matcher_Plus_run; auto.
  { apply stopsAt_space_word; auto. }
  cbv beta. apply matcher_Plus_run; auto.
  { apply stopsAt_word_space; auto. }
  cbv beta. apply starGreedy_run; auto.
  cbv beta. rewrite matcher_Lit.
  apply matcher_Plus_run; auto.
  cbv beta. rewrite matcher_Lit.
  cbn [Nat.sub].
  rewrite (firstn_consumed body (str_of "}" ++ post)).
  rewrite (firstn_consumed name (ws2 ++ str_of "{" ++ body ++ str_of "}" ++ post)).
  exact Hk.
Qed.

Lemma matchAt_of_matcher re total i d post c1 :
  matcher total (pattern re) (d ++ post) (repeat None (ngroups re))
    (fun s1 c1 => Some (s1, c1)) = Some (post, c1) ->
  matchAt re total i (d ++ post) =
  Some {| index := i; endIndex := i + length d; groups := Some d :: c1 |}.
Proof.
  intro E. unfold matchAt. rewrite E, firstn_consumed.
  rewrite length_app. f_equal. f_equal. lia.
Qed.

(** An enum declaration *)

Lemma enumDeclaration_matchAt total i name items post :
  isWord name = true ->
  forallb notCloseBrace (enumValuesText items) = true ->
  matchAt enumRegex total i (enumDeclaration name items ++ post) =
  Some {| index := i;
          endIndex := i + length (enumDeclaration name items);
          groups := [Some (enumDeclaration name items); Some name;
                     Some (enumValuesText items)] |}.
Proof.
  intros Hn Hb. apply isWord_iff in Hn. destruct Hn as [Hn Hn'].
  apply matchAt_of_matcher.
  cbn [enumRegex pattern ngroups repeat].
  replace (enumDeclaration name items ++ post)
    with (str_of "enum" ++ str_of " " ++ name ++ str_of " " ++ str_of "{"
          ++ enumValuesText items ++ str_of "}" ++ post)
    by (unfold enumDeclaration; rewrite <- !app_assoc; reflexivity).
  apply keyword_block_matches; [|reflexivity].
  unfold entityShape. repeat split; try assumption; discriminate.
Qed.

Lemma matcher_Seq_Opt_skip total r rest s c k :
  (forall k', matcher total r s c k' = None) ->
  matcher total (Seq (Opt r) rest) s c k = matcher total rest s c k.
Proof. intro H. cbn [matcher]. now rewrite H. Qed.

(** An entity declaration *)

Lemma entityDeclaration_matchAt total i audited name declared post :
  isWord name = true ->
  forallb notCloseBrace (fieldsText declared) = true ->
  matchAt entityRegex total i (entityDeclaration audited name declared ++ post) =
  Some {| index := i;
          endIndex := i + length (entityDeclaration audited name declared);
          groups := [Some (entityDeclaration audited name declared); Some name;
                     Some (fieldsText declared)] |}.
Proof.
  intros Hn Hb. apply isWord_iff in Hn. destruct Hn as [Hn Hn'].
  assert (Hshape : entityShape (str_of " ") name (str_of " ") (fieldsText declared)).
  { unfold entityShape. repeat split; try assumption; try discriminate.
    unfold fieldsText. intro E. apply app_eq_nil in E. destruct E as [_ E]. discriminate. }
  apply matchAt_of_matcher.
  cbn [entityRegex pattern ngroups repeat].
  change (SeqL (Opt (Seq (Lit (str_of "@EnableAudit")) (Plus true isWhiteSpace))
                :: ?l))
    with (Seq (Opt (Seq (Lit (str_of "@EnableAudit")) (Plus true isWhiteSpace)))
              (SeqL l)).
  assert (Htext : forall pre,
            (pre ++ str_of "entity " ++ name ++ str_of " {" ++ fieldsText declared
             ++ str_of "}") ++ post
            = pre ++ str_of "entity" ++ str_of " " ++ name ++ str_of " " ++ str_of "{"
              ++ fieldsText declared ++ str_of "}" ++ post)
    by (intro pre; rewrite <- !app_assoc; reflexivity).
  unfold entityDeclaration. rewrite Htext. destruct audited.
  - apply matcher_Seq_Opt. cbn [matcher]. rewrite <- app_assoc. rewrite matcher_Lit.
    apply matcher_Plus_run; [discriminate | reflexivity | reflexivity |].
    cbv beta.
    match goal with
    | |- (if ?b then _ else _) = _ => replace b with false
    end.
    + now apply keyword_block_matches.
    + symmetry. apply Nat.eqb_neq. rewrite !length_app. simpl length. lia.
  - cbn [app]. rewrite matcher_Seq_Opt_skip.
    + now apply keyword_block_matches.
    + intro k'. cbn [matcher]. apply matcher_Lit_fail. reflexivity.
Qed.

Lemma fieldLine_dotChar f :
  wellFormedField f = true -> forallb dotChar (fieldLine f) = true.
Proof.
  intro H. pose proof (fieldLine_matchAt f H) as Hm.
  apply fieldRegex_shape in Hm.
  destruct Hm as (name & ws & type & rest & post & Hs & Hn & Hw & Hw' & Ht & Hr & _ & Hg).
  inversion Hg as [[Hwhole Hname Htype Hrest]].
  unfold wellFormedField in H.
  apply andb_true_iff in H. destruct H as [H _].
  apply andb_true_iff in H. destruct H as [H _].
  apply andb_true_iff in H. destruct H as [H1 H2].
  unfold fieldLine. rewrite <- Hrest in Hr. do 3 rewrite forallb_app. rewrite Hr.
  apply isWord_iff in H1. destruct H1 as [_ H1].
  unfold isFieldType in H2. apply andb_true_iff in H2. destruct H2 as [_ H2].
  assert (Hword : forall s, forallb isWordChar s = true -> forallb dotChar s = true).
  { intros s Hs'. apply notSpace_dotChar. apply forallb_forall. intros x Hx.
    rewrite forallb_forall in Hs'. specialize (Hs' x Hx).
    destruct (isWhiteSpace x) eqn:E; [|reflexivity].
    apply isWhiteSpace_not_word in E. congruence. }
  assert (Htype' : forallb dotChar (fieldType f) = true).
  { apply notSpace_dotChar. apply forallb_forall. intros x Hx.
    rewrite forallb_forall in H2. specialize (H2 x Hx).
    now rewrite (wordOrAngle_not_space _ H2). }
  rewrite (Hword _ H1), Htype'. reflexivity.
Qed.

Lemma fieldLine_facts f :
  wellFormedField f = true ->
  fieldLine f <> [] /\ trimmedEnds (fieldLine f) /\
  startsWith (str_of "//") (fieldLine f) = false /\ ~ In 10%N (fieldLine f).
Proof.
  intro H. pose proof (fieldLine_dotChar f H) as Hdot.
  unfold wellFormedField in H.
  apply andb_true_iff in H. destruct H as [H Hc].
  apply andb_true_iff in H. destruct H as [H Hr].
  apply andb_true_iff in H. destruct H as [Hn Ht].
  apply isWord_iff in Hn. destruct Hn as [Hn Hn'].
  unfold isFieldType in Ht. apply andb_true_iff in Ht. destruct Ht as [Ht Ht'].
  destruct (fieldName f) as [|x name] eqn:En; [contradiction|].
  cbn [forallb] in Hn'. apply andb_true_iff in Hn'. destruct Hn' as [Hx _].
  assert (Hxs : isWhiteSpace x = false).
  { destruct (isWhiteSpace x) eqn:E; [|reflexivity].
    apply isWhiteSpace_not_word in E. congruence. }
  split; [unfold fieldLine; rewrite En; discriminate|]. split; [split|split].
  - unfold fieldLine. rewrite En. cbn [app stopsAt]. now rewrite Hxs.
  - unfold fieldLine.
    destruct (comment f) as [c|] eqn:Ec; cbn [commentText optionForall] in *.
    + rewrite !app_assoc.
      destruct c as [|y c]; cbn [isEmpty].
      * rewrite app_nil_r, stopsAt_rev_app by discriminate. reflexivity.
      * rewrite !app_assoc, stopsAt_rev_app by discriminate.
        unfold isComment in Hc. apply andb_true_iff in Hc. destruct Hc as [Hc _].
        apply isTrimmed_iff in Hc. apply Hc.
    + rewrite app_nil_r.
      destruct (fieldValidateRules f) as [|r rules] eqn:Er using rev_ind.
      * cbn [rulesText map concat]. rewrite app_nil_r, !app_assoc.
        assert (Hty : fieldType f <> []) by (destruct (fieldType f); [discriminate|discriminate]).
        rewrite stopsAt_rev_app by assumption.
        destruct (fieldType f) as [|y t] using rev_ind; [contradiction|].
        rewrite rev_app_distr. cbn [rev app stopsAt].
        rewrite forallb_app in Ht'. apply andb_true_iff in Ht'. destruct Ht' as [_ Hy].
        cbn [forallb] in Hy. rewrite andb_true_r in Hy.
        now rewrite (wordOrAngle_not_space _ Hy).
      * clear IHrules. unfold rulesText. rewrite map_app, concat_app. cbn [map concat].
        rewrite app_nil_r. rewrite forallb_app in Hr.
        apply andb_true_iff in Hr. destruct Hr as [_ Hr]. cbn [forallb] in Hr.
        rewrite andb_true_r in Hr. unfold isRule in Hr.
        apply andb_true_iff in Hr. destruct Hr as [Hr _].
        apply andb_true_iff in Hr. destruct Hr as [Hne Hr].
        assert (Hrn : r <> []) by (destruct r; [discriminate | discriminate]).
        rewrite !app_assoc, stopsAt_rev_app by assumption.
        destruct r as [|y t] using rev_ind; [contradiction|].
        rewrite rev_app_distr. cbn [rev app stopsAt].
        rewrite forallb_app in Hr. apply andb_true_iff in Hr. destruct Hr as [_ Hy].
        cbn [forallb] in Hy. rewrite andb_true_r in Hy. exact Hy.
  - unfold fieldLine. rewrite En.
    change (str_of "//") with [47%N; 47%N]. cbn [app startsWith].
    destruct (cu_eqb 47%N x) eqn:E; [|reflexivity].
    apply cu_eqb_eq in E. subst x. discriminate.
  - intro Hin. rewrite forallb_forall in Hdot. specialize (Hdot _ Hin). discriminate.
Qed.

(** ** Reading back the block of an entity *)

Lemma splitChar_fieldsText declared : forall pre,
  ~ In 10%N pre ->
  (forall f, In f declared -> ~ In 10%N (fieldLine f)) ->
  splitChar 10%N (pre ++ fieldsText declared)
  = (pre :: map (fun f => str_of "  " ++ fieldLine f) declared) ++ [[]].
Proof.
  unfold fieldsText. induction declared as [|f declared IH]; intros pre Hpre Hl.
  - cbn [map concat app]. change (pre ++ nl) with (pre ++ 10%N :: []).
    rewrite splitChar_app, splitChar_single by assumption. reflexivity.
  - cbn [map concat].
    replace (pre ++ ((nl ++ str_of "  " ++ fieldLine f)
                     ++ concat (map (fun f0 => nl ++ str_of "  " ++ fieldLine f0) declared))
                 ++ nl)
      with (pre ++ 10%N :: ((str_of "  " ++ fieldLine f)
                            ++ concat (map (fun f0 => nl ++ str_of "  " ++ fieldLine f0)
                                         declared) ++ nl))
      by (unfold nl; rewrite <- !app_assoc; reflexivity).
    rewrite splitChar_app, splitChar_single by assumption.
    rewrite IH.
    + reflexivity.
    + intro Hin. apply in_app_or in Hin. destruct Hin as [Hin|Hin].
      * cbn in Hin. intuition discriminate.
      * apply (Hl f); [now left | assumption].
    + intros g Hg. apply Hl. now right.
Qed.

Lemma fieldLinesOf_fieldsText declared :
  forallb wellFormedField declared = true ->
  fieldLinesOf (fieldsText declared) = map fieldLine declared.
Proof.
  intro H. rewrite forallb_forall in H. unfold fieldLinesOf.
  rewrite <- (app_nil_l (fieldsText declared)).
  rewrite splitChar_fieldsText; [|intros [] | intros f Hf; apply fieldLine_facts, H, Hf].
  rewrite map_app. cbn [map app]. rewrite map_map.
  change (trim []) with (@nil N). cbn [filter isEmpty negb andb].
  rewrite filter_app. cbn [filter isEmpty negb andb]. rewrite app_nil_r.
  induction declared as [|f declared IH]; [reflexivity|].
  cbn [map filter].
  destruct (fieldLine_facts f (H f (or_introl eq_refl))) as (Hne & Hends & Hs & _).
  assert (Et : trim (str_of "  " ++ fieldLine f) = fieldLine f).
  { rewrite <- (app_nil_r (fieldLine f)) at 1. now apply trim_padded. }
  rewrite Et, Hs.
  destruct (fieldLine f) eqn:E; [contradiction|]. cbn [isEmpty negb andb].
  f_equal. apply IH. intros g Hg. apply H. now right.
Qed.

Lemma declaredFields_fieldLines enums declared :
  (forall f, In f declared ->
     wellFormedField f = true /\
     fieldTypeIsEnum f = objTruthy enumProps enums (fieldType f)) ->
  declaredFields enums (map fieldLine declared) = declared.
Proof.
  intro H. rewrite declaredFields_flat_map.
  induction declared as [|f declared IH]; [reflexivity|].
  cbn [map flat_map].
  destruct (H f (or_introl eq_refl)) as [H1 H2].
  rewrite (fieldOfLine_fieldLine enums f H1 H2). cbn [app]. f_equal.
  apply IH. intros g Hg. apply H. now right.
Qed.

Lemma rulesText_forallb (p : cu -> bool) rules :
  p 32%N = true -> forallb p (rulesText rules) = forallb p (concat rules).
Proof.
  intro H. induction rules as [|r rules IH]; [reflexivity|].
  unfold rulesText in *. cbn [map concat]. rewrite !forallb_app, IH.
  cbn [forallb str_of map list_ascii_of_string]. change (N_of_ascii " ") with 32%N.
  now rewrite H.
Qed.

Lemma fieldLine_forallb (p : cu -> bool) f :
  p 32%N = true -> p 47%N = true ->
  forallb p (fieldChars f) = true ->
  forallb p (fieldLine f) = true.
Proof.
  intros H32 H47. unfold fieldChars, fieldLine. rewrite !forallb_app.
  rewrite (rulesText_forallb p) by assumption.
  intro H. repeat (apply andb_true_iff in H; destruct H as [? H]).
  assert (Hsp : forallb p (str_of " ") = true) by (cbn; now rewrite H32).
  assert (Hmk : forallb p (str_of " //") = true) by (cbn; now rewrite H32, H47).
  repeat (apply andb_true_iff; split); try assumption; try reflexivity.
  destruct (comment f) as [c|]; [|reflexivity]. cbn [commentText].
  rewrite forallb_app, Hmk. destruct c; [reflexivity|]. cbn [isEmpty].
  now rewrite forallb_app, H, Hsp.
Qed.

Lemma fieldsText_forallb (p : cu -> bool) declared :
  p 32%N = true -> p 47%N = true -> p 10%N = true ->
  (forall f, In f declared -> forallb p (fieldChars f) = true) ->
  forallb p (fieldsText declared) = true.
Proof.
  intros H32 H47 H10 H. unfold fieldsText. rewrite forallb_app.
  apply andb_true_iff. split; [|cbn [nl forallb]; now rewrite H10].
  induction declared as [|f declared IH]; [reflexivity|].
  cbn [map concat]. rewrite !forallb_app.
  rewrite (fieldLine_forallb p f) by (auto; apply H; now left).
  rewrite IH by (intros g Hg; apply H; now right).
  assert (Hin : forallb p (str_of "  ") = true) by (cbn; now rewrite H32).
  rewrite Hin. cbn [nl forallb]. now rewrite H10.
Qed.

Lemma fieldsText_notCloseBrace declared :
  (forall f, In f declared -> forallb notCloseBrace (fieldChars f) = true) ->
  forallb notCloseBrace (fieldsText declared) = true.
Proof. now apply fieldsText_forallb. Qed.

Lemma entityDeclaration_audit audited name declared mt :
  groups mt = [Some (entityDeclaration audited name declared); Some name;
               Some (fieldsText declared)] ->
  hasAuditAnnotation mt = audited.
Proof.
  intro Hg. unfold hasAuditAnnotation, group. rewrite Hg. cbn [nth_error].
  rewrite trimmedEnds_trim.
  - unfold entityDeclaration. destruct audited.
    + rewrite <- app_assoc. apply startsWith_prefix.
    + reflexivity.
  - split.
    + unfold entityDeclaration. destruct audited; reflexivity.
    + unfold entityDeclaration. rewrite !app_assoc.
      rewrite stopsAt_rev_app by discriminate. reflexivity.
Qed.

(** X13.  An entity written as text ([@EnableAudit] on a line of its own
    or not, [entity], the name, and between braces one line for each
    well-formed field without closing brace) is matched by the entity
    pattern from its first to its last character, whatever follows, and
    the body of the entity loop stores under its name the entity with
    these fields, followed by the four audit fields when the annotation is
    there. *)
Theorem entity_declaration_round_trip enums audited name declared
    (total i : nat) post entities :
  isWord name = true ->
  (forall f, In f declared ->
     wellFormedField f = true /\
     forallb notCloseBrace (fieldChars f) = true /\
     fieldTypeIsEnum f = objTruthy enumProps enums (fieldType f)) ->
  exists mt,
    matchAt entityRegex total i (entityDeclaration audited name declared ++ post)
    = Some mt /\
    index mt = i /\
    endIndex mt = i + length (entityDeclaration audited name declared) /\
    entityBody enums mt entities =
    Returned (objSet entities name
                {| entityName := name;
                   fields := declared ++ (if audited then AUDIT_FIELDS else []) |}).
Proof.
  intros Hn Hf.
  assert (Hb : forallb notCloseBrace (fieldsText declared) = true)
    by (apply fieldsText_notCloseBrace; intros f Hin; apply Hf, Hin).
  pose proof (entityDeclaration_matchAt total i audited name declared post Hn Hb) as Hm.
  set (mt := {| index := i;
                endIndex := i + length (entityDeclaration audited name declared);
                groups := [Some (entityDeclaration audited name declared); Some name;
                           Some (fieldsText declared)] |}) in *.
  exists mt. split; [exact Hm|]. split; [reflexivity|]. split; [reflexivity|].
  unfold entityBody, groupObject, groupOpt, entityOf, group.
  rewrite (@entityDeclaration_audit audited name declared mt eq_refl).
  cbn [mt groups nth_error bind].
  rewrite fieldLinesOf_fieldsText.
  - rewrite declaredFields_fieldLines by (intros f Hin; split; apply Hf, Hin).
    destruct audited; [reflexivity | now rewrite app_nil_r].
  - apply forallb_forall. intros f Hin. apply Hf, Hin.
Qed.

Lemma entity_declaration_round_trip_witness :
  exists mt,
    matchAt entityRegex 100 7
      (entityDeclaration true (str_of "Order") [totalField] ++ str_of " and more")
    = Some mt /\
    index mt = 7 /\
    endIndex mt = 7 + length (entityDeclaration true (str_of "Order") [totalField]) /\
    entityBody (emptyObject EnumDef) mt (emptyObject Entity) =
    Returned (objSet (emptyObject Entity) (str_of "Order")
                {| entityName := str_of "Order";
                   fields := [totalField] ++ AUDIT_FIELDS |}).
Proof.
  apply (@entity_declaration_round_trip (emptyObject EnumDef) true (str_of "Order")
           [totalField] 100 7 (str_of " and more") (emptyObject Entity)).
  - reflexivity.
  - intros f [<-|[]]. repeat split; reflexivity.
Defined.


(** ** Reading back a relationship *)

Lemma cardinality_matches total t rest c k z :
  In t cardinalities ->
  k rest c = Some z ->
  matcher total
    (Alt (Lit (str_of "OneToOne"))
       (Alt (Lit (str_of "ManyToOne"))
          (Alt (Lit (str_of "OneToMany")) (Lit (str_of "ManyToMany")))))
    (t ++ rest) c k = Some z.
Proof.
  intros Ht Hk. cbn [matcher].
  destruct Ht as [<-|[<-|[<-|[<-|[]]]]].
  - now rewrite matcher_Lit, Hk.
  - rewrite (matcher_Lit_fail total (str_of "OneToOne")) by reflexivity.
    now rewrite matcher_Lit, Hk.
  - rewrite (matcher_Lit_fail total (str_of "OneToOne")) by reflexivity.
    rewrite (matcher_Lit_fail total (str_of "ManyToOne")) by reflexivity.
    now rewrite matcher_Lit, Hk.
  - rewrite (matcher_Lit_fail total (str_of "OneToOne")) by reflexivity.
    rewrite (matcher_Lit_fail total (str_of "ManyToOne")) by reflexivity.
    rewrite (matcher_Lit_fail total (str_of "OneToMany")) by reflexivity.
    now rewrite matcher_Lit.
Qed.

Lemma endpoint_field_matches total n fo rest c k z :
  optionForall isWord fo = true ->
  startsWith (str_of "(") rest = false ->
  k rest (match fo with Some f => setCapture (n - 1) f c | None => c end) = Some z ->
  matcher total
    (Opt (SeqL [Lit (str_of "("); Group n (Plus true isWordChar); Lit (str_of ")")]))
    (match fo with Some f => str_of "(" ++ f ++ str_of ")" | None => [] end ++ rest)
    c k = Some z.
Proof.
  intros Hf Hr Hk. cbn [SeqL]. cbn [matcher]. destruct fo as [f|].
  - cbn [optionForall] in Hf. apply isWord_iff in Hf. destruct Hf as [Hf Hf'].
    rewrite <- !app_assoc. rewrite matcher_Lit.
    rewrite (@matcher_Plus_run total isWordChar f (str_of ")" ++ rest) c _ z);
      [reflexivity | assumption | assumption | reflexivity |].
    cbv beta. rewrite matcher_Lit.
    match goal with
    | |- (if ?b then _ else _) = _ => replace b with false
    end.
    + rewrite (firstn_consumed f (str_of ")" ++ rest)). exact Hk.
    + symmetry. apply Nat.eqb_neq. rewrite !length_app. simpl length. lia.
  - cbn [app]. rewrite matcher_Lit_fail by assumption. exact Hk.
Qed.

Lemma wellFormedRelationship_iff r :
  wellFormedRelationship r = true <->
  In (relType r) cardinalities /\
  isWord (endpointName (from r)) = true /\
  optionForall isWord (endpointFieldName (from r)) = true /\
  isWord (endpointName (to r)) = true /\
  optionForall isWord (endpointFieldName (to r)) = true.
Proof.
  unfold wellFormedRelationship, wellFormedEndpoint.
  rewrite !andb_true_iff, existsb_exists. split.
  - intros [[(t & Ht & Et) [H1 H2]] [H3 H4]]. apply str_eqb_eq in Et. subst t. auto.
  - intros (H0 & H1 & H2 & H3 & H4). repeat split; try assumption.
    exists (relType r). split; [assumption | apply str_eqb_refl].
Qed.

Lemma stopsAt_word_endpoint fo rest :
  stopsAt isWordChar rest = true ->
  stopsAt isWordChar
    (match fo with Some f => str_of "(" ++ f ++ str_of ")" | None => [] end ++ rest) = true.
Proof. destruct fo; [reflexivity | auto]. Qed.

Lemma relationshipDeclaration_matchAt total i r post :
  wellFormedRelationship r = true ->
  matchAt relationshipRegex total i (relationshipDeclaration r ++ post) =
  Some {| index := i;
          endIndex := i + length (relationshipDeclaration r);
          groups := [Some (relationshipDeclaration r); Some (relType r);
                     Some (endpointName (from r)); endpointFieldName (from r);
                     Some (endpointName (to r)); endpointFieldName (to r)] |}.
Proof.
  intro H. apply wellFormedRelationship_iff in H.
  destruct H as (Ht & Ha & Hfa & Hb & Hfb).
  apply isWord_iff in Ha. destruct Ha as [Ha Ha'].
  apply isWord_iff in Hb. destruct Hb as [Hb Hb'].
  apply matchAt_of_matcher.
  destruct r as [t [a fa] [b fb]].
  cbn [relType from to endpointName endpointFieldName] in *.
  unfold relationshipDeclaration, endpointText.
  cbn [relType from to endpointName endpointFieldName].
  set (ta := match fa with Some f => str_of "(" ++ f ++ str_of ")" | None => [] end).
  set (tb := match fb with Some f => str_of "(" ++ f ++ str_of ")" | None => [] end).
  replace ((str_of "relationship " ++ t ++ str_of " { " ++ (a ++ ta) ++ str_of " to "
            ++ (b ++ tb) ++ str_of " }") ++ post)
    with (str_of "relationship" ++ str_of " " ++ t ++ str_of " " ++ str_of "{"
          ++ str_of " " ++ a ++ ta ++ str_of " " ++ str_of "to" ++ str_of " " ++ b
          ++ tb ++ str_of " " ++ str_of "}" ++ post)
    by (rewrite <- !app_assoc; reflexivity).
  cbn [relationshipRegex pattern ngroups repeat].
  remember (Alt (Lit (str_of "OneToOne"))
              (Alt (Lit (str_of "ManyToOne"))
                 (Alt (Lit (str_of "OneToMany")) (Lit (str_of "ManyToMany"))))) as card.
  remember (Opt (SeqL [Lit (str_of "("); Group 3 (Plus true isWordChar);
                       Lit (str_of ")")])) as opt3.
  remember (Opt (SeqL [Lit (str_of "("); Group 5 (Plus true isWordChar);
                       Lit (str_of ")")])) as opt5.
  cbn [SeqL]. cbn [matcher]. rewrite matcher_Lit.
  apply matcher_Plus_run; [discriminate | reflexivity | |].
  { destruct Ht as [<-|[<-|[<-|[<-|[]]]]]; reflexivity. }
  cbv beta. subst card. apply cardinality_matches; [assumption|].
  apply starGreedy_run; [reflexivity | reflexivity |].
  cbv beta. rewrite matcher_Lit.
  apply starGreedy_run; [reflexivity | now apply stopsAt_space_word |].
  cbv beta. apply matcher_Plus_run; [assumption | assumption | |].
  { apply stopsAt_word_endpoint. reflexivity. }
  cbv beta. subst opt3 ta. apply endpoint_field_matches; [assumption | reflexivity |].
  apply matcher_Plus_run; [discriminate | reflexivity | reflexivity |].
  cbv beta. rewrite matcher_Lit.
  apply matcher_Plus_run; [discriminate | reflexivity | now apply stopsAt_space_word |].
  cbv beta. apply matcher_Plus_run; [assumption | assumption | |].
  { apply stopsAt_word_endpoint. reflexivity. }
  cbv beta. subst opt5 tb. apply endpoint_field_matches; [assumption | reflexivity |].
  apply starGreedy_run; [reflexivity | reflexivity |].
  cbv beta. rewrite matcher_Lit.
  rewrite (firstn_consumed t), (firstn_consumed a), (firstn_consumed b).
  destruct fa, fb; reflexivity.
Qed.

(** ** Scanning a document made of declarations *)

Lemma exec_here re content e mt :
  e <= length content ->
  matchAt re (length content) e (skipn e content) = Some mt ->
  exec re content e = Some mt.
Proof.
  intros He Hm. unfold exec.
  assert (E : (length content <? e) = false) by (apply Nat.ltb_ge; lia).
  rewrite E. now apply execFrom_here.
Qed.

Lemma exec_skip re content e :
  e < length content ->
  matchAt re (length content) e (skipn e content) = None ->
  exec re content e = exec re content (S e).
Proof.
  intros He Hm. unfold exec.
  assert (E1 : (length content <? e) = false) by (apply Nat.ltb_ge; lia).
  assert (E2 : (length content <? S e) = false) by (apply Nat.ltb_ge; lia).
  rewrite E1, E2.
  destruct (skipn e content) as [|x t] eqn:Es.
  - apply (f_equal (@length _)) in Es. rewrite length_skipn in Es. simpl in Es. lia.
  - cbn [execFrom]. rewrite Hm. now rewrite (skipn_step _ _ Es).
Qed.

Lemma exec_skip_block re content e : forall n,
  e + n <= length content ->
  (forall j, j < n ->
     matchAt re (length content) (e + j) (skipn (e + j) content) = None) ->
  exec re content e = exec re content (e + n).
Proof.
  induction n as [|n IH]; intros Hn H.
  - now rewrite Nat.add_0_r.
  - rewrite IH; [|lia | intros j Hj; apply H; lia].
    rewrite exec_skip; [f_equal; lia | lia | apply H; lia].
Qed.

Lemma matchesFrom_exec re content fuel a b :
  exec re content a = exec re content b ->
  matchesFrom re content fuel a = matchesFrom re content fuel b.
Proof. intro H. destruct fuel; [reflexivity|]. cbn [matchesFrom]. now rewrite H. Qed.

Lemma skipn_app_exact (A : Type) (a s : list A) : skipn (length a) (a ++ s) = s.
Proof. now rewrite skipn_app, skipn_all, Nat.sub_diag. Qed.

Lemma skipn_app_inside (A : Type) (a d s : list A) j :
  j <= length d ->
  skipn (length a + j) (a ++ d ++ s) = skipn j d ++ s.
Proof.
  intro Hj. rewrite skipn_app_length, skipn_app.
  replace (j - length d) with 0 by lia. reflexivity.
Qed.

Section Scan.

Variable re : RegExp.

Hypothesis re_consumes : consumes (pattern re) = true.

(** No match of the pattern starts at a line feed. *)
Hypothesis re_line_feed :
  forall total i post, matchAt re total i (nl ++ post) = None.

Lemma matchAt_end total i : matchAt re total i [] = None.
Proof.
  destruct (matchAt re total i []) as [mt|] eqn:E; [|reflexivity].
  apply matchAt_bounds in E. destruct E as (_ & _ & H1 & H2).
  specialize (H2 re_consumes). simpl in H1. lia.
Qed.

Lemma scan_blocks : forall blocks pre fuel,
  pre = [] \/ (exists b, pre = b ++ [10%N]) ->
  length (documentOf (map fst blocks)) < fuel ->
  (forall block, In block blocks -> blockRead re block) ->
  let content := pre ++ documentOf (map fst blocks) in
  map groups
    (filter (fun mt => negb (isCommented content (index mt)))
       (matchesFrom re content fuel (length pre)))
  = flat_map (fun block => match snd block with Some gs => [gs] | None => [] end)
      blocks.
Proof.
  induction blocks as [|[d v] blocks IH]; intros pre fuel Hpre Hfuel Hread content.
  - subst content. cbn [map documentOf concat flat_map]. rewrite app_nil_r.
    destruct fuel as [|fuel]; [reflexivity|]. cbn [matchesFrom].
    unfold exec. rewrite Nat.ltb_irrefl, skipn_all. cbn [execFrom].
    now rewrite matchAt_end.
  - assert (Hdoc : documentOf (map fst ((d, v) :: blocks))
                   = d ++ nl ++ documentOf (map fst blocks)).
    { unfold documentOf. cbn [map concat fst]. now rewrite <- app_assoc. }
    assert (Hcontent : content = (pre ++ d ++ nl) ++ documentOf (map fst blocks)).
    { subst content. rewrite Hdoc. now rewrite <- !app_assoc. }
    assert (Hpre' : (pre ++ d ++ nl) = [] \/ (exists b, pre ++ d ++ nl = b ++ [10%N])).
    { right. exists (pre ++ d). now rewrite <- app_assoc. }
    rewrite Hdoc in Hfuel. rewrite !length_app in Hfuel. simpl length in Hfuel.
    assert (Hlen : length content = length pre + length d + 1
                                    + length (documentOf (map fst blocks))).
    { rewrite Hcontent. rewrite !length_app. simpl length. lia. }
    assert (Hnl : matchAt re (length content) (length pre + length d)
                    (skipn (length pre + length d) content) = None).
    { subst content. rewrite Hdoc. rewrite skipn_app_inside by lia.
      rewrite skipn_all. cbn [app]. apply re_line_feed. }
    pose proof (Hread (d, v) (or_introl eq_refl)) as Hb. unfold blockRead in Hb.
    cbn [fst snd] in Hb. cbn [flat_map snd].
    specialize (IH (pre ++ d ++ nl)).
    assert (Hnext : length (pre ++ d ++ nl) = S (length pre + length d))
      by (rewrite !length_app; simpl length; lia).
    destruct v as [gs|].
    + destruct fuel as [|fuel]; [lia|]. cbn [matchesFrom].
      assert (Hm : matchAt re (length content) (length pre) (skipn (length pre) content)
                   = Some {| index := length pre; endIndex := length pre + length d;
                             groups := gs |}).
      { subst content. rewrite Hdoc, skipn_app_exact. apply Hb. }
      assert (Hle : length pre <= length content) by lia.
      rewrite (@exec_here re content (length pre) _ Hle Hm). cbn [filter index endIndex].
      assert (Hc : isCommented content (length pre) = false).
      { subst content. rewrite Hdoc.
        pose proof (@isCommented_line pre [] (d ++ nl ++ documentOf (map fst blocks)))
          as Hl.
        cbn [app length] in Hl. rewrite Nat.add_0_r in Hl.
        rewrite Hl; [reflexivity | assumption | intros [] |].
        destruct d as [|x d].
        - exfalso. specialize (Hb 0 0 (nl ++ [])).
          cbn [app] in Hb. change [10%N] with (nl ++ []) in Hb.
          rewrite re_line_feed in Hb. discriminate.
        - cbn [app startsWith]. rewrite andb_true_r.
          destruct (cu_eqb 10%N x) eqn:E; [|reflexivity].
          apply cu_eqb_eq in E. subst x. exfalso.
          specialize (Hb 0 0 []). rewrite app_nil_r in Hb.
          change (10%N :: d) with (nl ++ d) in Hb.
          rewrite re_line_feed in Hb. discriminate. }
      rewrite Hc. cbn [negb map groups app]. f_equal.
      rewrite (@matchesFrom_exec re content fuel (length pre + length d)
                 (length (pre ++ d ++ nl))).
      * rewrite Hcontent. apply IH; [assumption | lia |].
        intros block Hin. apply Hread. now right.
      * rewrite Hnext. apply exec_skip; [lia | exact Hnl].
    + rewrite (@matchesFrom_exec re content fuel (length pre)
                 (length (pre ++ d ++ nl))).
      * rewrite Hcontent. apply IH; [assumption | lia |].
        intros block Hin. apply Hread. now right.
      * rewrite Hnext. replace (S (length pre + length d))
          with (length pre + S (length d)) by lia.
        apply exec_skip_block; [lia|].
        intros j Hj. destruct (Nat.eq_dec j (length d)) as [->|Hne]; [exact Hnl|].
        subst content. rewrite Hdoc. rewrite skipn_app_inside by lia.
        apply Hb. lia.
Qed.

End Scan.

(** ** Where a match can start in a document made of declarations *)

Lemma first_split (p : cu -> bool) : forall a b x y r r',
  forallb (fun c => negb (p c)) a = true ->
  forallb (fun c => negb (p c)) b = true ->
  p x = true -> p y = true ->
  a ++ x :: r = b ++ y :: r' ->
  a = b /\ x = y /\ r = r'.
Proof.
  induction a as [|a0 a IH]; intros b x y r r' Ha Hb Hx Hy E.
  - destruct b as [|b0 b]; cbn [app] in E.
    + inversion E. auto.
    + inversion E; subst. cbn [forallb] in Hb. rewrite Hx in Hb. discriminate.
  - destruct b as [|b0 b]; cbn [app] in E.
    + inversion E; subst. cbn [forallb] in Ha. rewrite Hy in Ha. discriminate.
    + inversion E; subst. cbn [forallb] in Ha, Hb.
      apply andb_true_iff in Ha. destruct Ha as [_ Ha].
      apply andb_true_iff in Hb. destruct Hb as [_ Hb].
      destruct (IH b x y r r' Ha Hb Hx Hy H1) as (-> & -> & ->). auto.
Qed.

Lemma forallb_skipn (A : Type) (p : A -> bool) n l :
  forallb p l = true -> forallb p (skipn n l) = true.
Proof.
  intro H. apply forallb_forall. intros x Hx. rewrite forallb_forall in H.
  apply H. now apply skipn_In in Hx.
Qed.

Lemma keywordHeader_last kw name s2 j :
  noSpace name = true -> noSpace kw = true -> isWhiteSpace s2 = true ->
  ~ keywordHeader kw (skipn j (name ++ [s2])).
Proof.
  intros Hn Hk Hs (w & c & rest & E & Hw).
  destruct (Nat.le_gt_cases j (length name)) as [Hj|Hj].
  - rewrite skipn_app in E. replace (j - length name) with 0 in E by lia.
    cbn [skipn] in E.
    apply (first_split isWhiteSpace) in E; auto.
    + destruct E as (_ & _ & E). discriminate.
    + now apply forallb_skipn.
  - rewrite skipn_all2 in E by (rewrite length_app; simpl; lia).
    destruct kw; discriminate.
Qed.

Lemma keywordHeader_prefixed kw token s0 header j :
  noSpace token = true -> noSpace kw = true -> isWhiteSpace s0 = true ->
  (forall n, skipn n token <> kw) ->
  (forall n, ~ keywordHeader kw (skipn n header)) ->
  ~ keywordHeader kw (skipn j (token ++ s0 :: header)).
Proof.
  intros Ht Hk Hs Hsuf Hh (w & c & rest & E & Hw).
  destruct (Nat.le_gt_cases j (length token)) as [Hj|Hj].
  - rewrite skipn_app in E. replace (j - length token) with 0 in E by lia.
    cbn [skipn] in E.
    apply (first_split isWhiteSpace) in E; auto.
    + destruct E as (E & _). now apply Hsuf in E.
    + now apply forallb_skipn.
  - rewrite skipn_app in E. rewrite skipn_all2 in E by lia. cbn [app] in E.
    destruct (j - length token) as [|n] eqn:En; [lia|]. cbn [skipn] in E.
    apply (Hh n). now exists w, c, rest.
Qed.

Lemma no_suffix token kw :
  forallb (fun n => negb (str_eqb (skipn n token) kw)) (seq 0 (S (length token))) = true ->
  forall n, skipn n token <> kw.
Proof.
  intros H n E. rewrite forallb_forall in H.
  destruct (Nat.le_gt_cases n (length token)) as [Hn|Hn].
  - specialize (H n). rewrite E, str_eqb_refl in H.
    assert (Hin : In n (seq 0 (S (length token)))) by (apply in_seq; lia).
    specialize (H Hin). discriminate.
  - specialize (H (length token)). rewrite skipn_all in H.
    rewrite skipn_all2 in E by lia. rewrite <- E, str_eqb_refl in H.
    assert (Hin : In (length token) (seq 0 (S (length token)))) by (apply in_seq; lia).
    specialize (H Hin). discriminate.
Qed.

Lemma space_braceFree w : forallb isWhiteSpace w = true -> braceFree w = true.
Proof.
  intro H. apply forallb_forall. intros x Hx. rewrite forallb_forall in H.
  specialize (H x Hx). unfold isBrace, cu_eqb.
  destruct ((x =? 123)%N) eqn:E1; [apply N.eqb_eq in E1; subst; discriminate|].
  destruct ((x =? 125)%N) eqn:E2; [apply N.eqb_eq in E2; subst; discriminate|].
  reflexivity.
Qed.

Lemma word_braceFree w : forallb isWordChar w = true -> braceFree w = true.
Proof.
  intro H. apply forallb_forall. intros x Hx. rewrite forallb_forall in H.
  specialize (H x Hx). unfold isBrace, cu_eqb.
  destruct ((x =? 123)%N) eqn:E1; [apply N.eqb_eq in E1; subst; discriminate|].
  destruct ((x =? 125)%N) eqn:E2; [apply N.eqb_eq in E2; subst; discriminate|].
  reflexivity.
Qed.

Lemma braceFree_app a b : braceFree (a ++ b) = braceFree a && braceFree b.
Proof. apply forallb_app. Qed.

Lemma keyword_shape_header kw ws1 name ws2 :
  entityShape ws1 name ws2 [] \/ (ws1 <> [] /\ forallb isWhiteSpace ws1 = true /\
                                   name <> [] /\ forallb isWordChar name = true /\
                                   forallb isWhiteSpace ws2 = true) ->
  braceFree kw = true ->
  braceFree (kw ++ ws1 ++ name ++ ws2) = true /\
  keywordHeader kw (kw ++ ws1 ++ name ++ ws2).
Proof.
  intros H Hk.
  assert (H' : ws1 <> [] /\ forallb isWhiteSpace ws1 = true /\
               name <> [] /\ forallb isWordChar name = true /\
               forallb isWhiteSpace ws2 = true).
  { destruct H as [H|H]; [|exact H]. unfold entityShape in H. tauto. }
  destruct H' as (H1 & H2 & H3 & H4 & H5). split.
  - rewrite !braceFree_app, Hk, (space_braceFree _ H2), (word_braceFree _ H4),
      (space_braceFree _ H5). reflexivity.
  - destruct ws1 as [|w ws1]; [contradiction|]. destruct name as [|c name]; [contradiction|].
    cbn [forallb] in H2. apply andb_true_iff in H2. destruct H2 as [Hw _].
    destruct ws1 as [|w' ws1].
    + exists w, c, (name ++ ws2). split; [reflexivity | exact Hw].
    + exists w, w', (ws1 ++ (c :: name) ++ ws2). split; [reflexivity | exact Hw].
Qed.

Lemma enumRegex_header total i s mt :
  matchAt enumRegex total i s = Some mt -> headerOfMatch [str_of "enum"] s.
Proof.
  intro H. apply enumRegex_shape in H.
  destruct H as (ws1 & name & ws2 & body & post & -> & Hshape & _).
  destruct (@keyword_shape_header (str_of "enum") ws1 name ws2) as [Hb Hk];
    [right; unfold entityShape in Hshape; tauto | reflexivity |].
  exists (str_of "enum" ++ ws1 ++ name ++ ws2), (body ++ str_of "}" ++ post), (str_of "enum").
  split; [now left|]. split; [|split; assumption].
  unfold enumText. now rewrite <- !app_assoc.
Qed.

Lemma entityRegex_header total i s mt :
  matchAt entityRegex total i s = Some mt ->
  headerOfMatch [str_of "entity"; str_of "@EnableAudit"] s.
Proof.
  intro H. apply entityRegex_shape in H.
  destruct H as (ann & ws1 & name & ws2 & body & post & -> & Ha & Hshape & _).
  destruct (@keyword_shape_header (str_of "entity") ws1 name ws2) as [Hb Hk];
    [right; unfold entityShape in Hshape; tauto | reflexivity |].
  destruct Ha as [->|(ws & -> & Hne & Hws)].
  - exists (str_of "entity" ++ ws1 ++ name ++ ws2), (body ++ str_of "}" ++ post),
      (str_of "entity").
    split; [now left|]. split; [|split; assumption].
    unfold entityText. cbn [app]. now rewrite <- !app_assoc.
  - exists ((str_of "@EnableAudit" ++ ws) ++ str_of "entity" ++ ws1 ++ name ++ ws2),
      (body ++ str_of "}" ++ post), (str_of "@EnableAudit").
    split; [right; now left|]. split; [|split].
    + unfold entityText. now rewrite <- !app_assoc.
    + rewrite braceFree_app, Hb, braceFree_app, (space_braceFree _ Hws). reflexivity.
    + destruct ws as [|w ws]; [contradiction|].
      cbn [forallb] in Hws. apply andb_true_iff in Hws. destruct Hws as [Hw _].
      destruct ws as [|w' ws].
      * exists w, 101%N, (str_of "ntity" ++ ws1 ++ name ++ ws2).
        split; [now rewrite <- !app_assoc | exact Hw].
      * exists w, w', (ws ++ str_of "entity" ++ ws1 ++ name ++ ws2).
        split; [now rewrite <- !app_assoc | exact Hw].
Qed.

Lemma relationshipRegex_header total i s mt :
  matchAt relationshipRegex total i s = Some mt ->
  headerOfMatch [str_of "relationship"] s.
Proof.
  unfold matchAt.
  destruct (matcher total (pattern relationshipRegex) s
              (repeat None (ngroups relationshipRegex))
              (fun s1 c1 => Some (s1, c1))) as [[s1 c1]|] eqn:E; [|discriminate].
  intros _.
  cbn [relationshipRegex pattern ngroups repeat] in E.
  remember (Alt (Lit (str_of "OneToOne"))
              (Alt (Lit (str_of "ManyToOne"))
                 (Alt (Lit (str_of "OneToMany")) (Lit (str_of "ManyToMany"))))) as card.
  remember (Opt (SeqL [Lit (str_of "("); Group 3 (Plus true isWordChar);
                       Lit (str_of ")")])) as opt3.
  remember (Opt (SeqL [Lit (str_of "("); Group 5 (Plus true isWordChar);
                       Lit (str_of ")")])) as opt5.
  cbn [SeqL] in E. cbn [matcher] in E.
  apply matcher_Lit_inv in E. destruct E as (s2 & -> & E).
  apply matcher_Plus_inv in E. destruct E as (w1 & s3 & -> & Hw1 & Hw1' & E).
  subst card. apply cardinality_inv in E. destruct E as (t & s4 & Ht & -> & E).
  apply starGreedy_run_inv in E. destruct E as (w2 & s5 & -> & Hw2 & E).
  apply matcher_Lit_inv in E. destruct E as (s6 & -> & E).
  exists (str_of "relationship" ++ w1 ++ t ++ w2), s6, (str_of "relationship").
  split; [now left|]. split; [now rewrite <- !app_assoc|]. split.
  - rewrite !braceFree_app, (space_braceFree _ Hw1'), (space_braceFree _ Hw2).
    destruct Ht as [<-|[<-|[<-|[<-|[]]]]]; reflexivity.
  - destruct w1 as [|w w1]; [contradiction|].
    cbn [forallb] in Hw1'. apply andb_true_iff in Hw1'. destruct Hw1' as [Hw _].
    destruct w1 as [|w' w1].
    + destruct Ht as [<-|[<-|[<-|[<-|[]]]]];
        eexists w, _, _; (split; [reflexivity | exact Hw]).
    + exists w, w', (w1 ++ t ++ w2). split; [reflexivity | exact Hw].
Qed.

(** No match starts in a block whose header begins with none of the
    keywords of the pattern. *)
Lemma inert_block re kws header body :
  (forall total i s mt, matchAt re total i s = Some mt -> headerOfMatch kws s) ->
  braceFree header = true ->
  braceFree body = true ->
  (forall kw n, In kw kws -> ~ keywordHeader kw (skipn n header)) ->
  blockRead re (header ++ str_of "{" ++ body ++ str_of "}", None).
Proof.
  intros Hre Hh Hb Hkw. unfold blockRead. cbn [fst snd].
  intros total i post j Hj.
  destruct (matchAt re total i
              (skipn j (header ++ str_of "{" ++ body ++ str_of "}") ++ post))
    as [mt|] eqn:E; [|reflexivity].
  exfalso. apply Hre in E. destruct E as (hr & rest & kw & Hin & Es & Hbf & Hk).
  destruct (Nat.le_gt_cases j (length header)) as [Hle|Hgt].
  - rewrite skipn_app in Es. replace (j - length header) with 0 in Es by lia.
    cbn [skipn] in Es. rewrite <- app_assoc in Es. cbn [app str_of] in Es.
    change (map N_of_ascii (list_ascii_of_string "{")) with [123%N] in Es.
    cbn [app] in Es.
    apply (first_split isBrace) in Es; auto.
    + destruct Es as (Es & _). apply (Hkw kw j Hin). now rewrite Es.
    + now apply forallb_skipn.
  - rewrite skipn_app in Es. rewrite skipn_all2 in Es by lia. cbn [app] in Es.
    destruct (j - length header) as [|n] eqn:En; [lia|].
    change (str_of "{" ++ body ++ str_of "}") with (123%N :: body ++ [125%N]) in Es.
    cbn [skipn] in Es.
    assert (Hn : n <= length body).
    { rewrite !length_app in Hj. simpl length in Hj. lia. }
    rewrite skipn_app in Es. replace (n - length body) with 0 in Es by lia.
    cbn [skipn] in Es. rewrite <- app_assoc in Es. cbn [app] in Es.
    apply (first_split isBrace) in Es; auto.
    + destruct Es as (_ & Es & _). discriminate.
    + now apply forallb_skipn.
Qed.

(** ** Reading back a whole document *)

Lemma declarationText_split d :
  declarationText d
  = declarationHeader d ++ str_of "{" ++ declarationBlock d ++ str_of "}".
Proof.
  destruct d as [name items|audited name declared|r]; cbn [declarationText
    declarationHeader declarationBlock].
  - unfold enumDeclaration. now rewrite <- !app_assoc.
  - unfold entityDeclaration. now rewrite <- !app_assoc.
  - unfold relationshipDeclaration. now rewrite <- !app_assoc.
Qed.

Lemma word_noSpace s : forallb isWordChar s = true -> noSpace s = true.
Proof.
  intro H. apply forallb_forall. intros x Hx. rewrite forallb_forall in H.
  specialize (H x Hx). destruct (isWhiteSpace x) eqn:E; [|reflexivity].
  apply isWhiteSpace_not_word in E. congruence.
Qed.

Lemma braceFree_notCloseBrace s : braceFree s = true -> forallb notCloseBrace s = true.
Proof.
  intro H. apply forallb_forall. intros x Hx. unfold braceFree in H.
  rewrite forallb_forall in H. specialize (H x Hx). unfold isBrace in H.
  unfold notCloseBrace. destruct (cu_eqb x 125%N); [|reflexivity].
  now rewrite orb_true_r in H.
Qed.

Lemma isPlainName_iff name :
  isPlainName name = true <->
  isWord name = true /\ name <> protoKey /\ arrayIndex name = None.
Proof.
  unfold isPlainName, isIndexName.
  rewrite !andb_true_iff, !negb_true_iff, str_eqb_neq.
  destruct (arrayIndex name); intuition congruence.
Qed.

Lemma cardinality_facts t :
  In t cardinalities -> noSpace t = true /\ braceFree t = true.
Proof. intros [<-|[<-|[<-|[<-|[]]]]]; split; reflexivity. Qed.

Lemma endpointText_braceFree e :
  wellFormedEndpoint e = true -> braceFree (endpointText e) = true.
Proof.
  unfold wellFormedEndpoint, endpointText. intro H.
  apply andb_true_iff in H. destruct H as [H1 H2].
  apply isWord_iff in H1. destruct H1 as [_ H1].
  rewrite braceFree_app, (word_braceFree _ H1).
  destruct (endpointFieldName e) as [f|]; [|reflexivity].
  cbn [optionForall] in H2. apply isWord_iff in H2. destruct H2 as [_ H2].
  rewrite !braceFree_app, (word_braceFree _ H2). reflexivity.
Qed.

Lemma wellFormedFieldIn_iff names f :
  wellFormedFieldIn names f = true <->
  wellFormedField f = true /\ braceFree (fieldChars f) = true /\
  fieldTypeIsEnum f = isEnumTypeName names (fieldType f).
Proof.
  unfold wellFormedFieldIn. rewrite !andb_true_iff, Bool.eqb_true_iff. tauto.
Qed.

(** Header and block of a well-formed declaration hold no brace. *)
Lemma declaration_braceFree names d :
  wellFormedDeclaration names d = true ->
  braceFree (declarationHeader d) = true /\ braceFree (declarationBlock d) = true.
Proof.
  destruct d as [name items|audited name declared|r];
    cbn [wellFormedDeclaration declarationHeader declarationBlock]; intro H.
  - apply andb_true_iff in H. destruct H as [H Hb].
    apply andb_true_iff in H. destruct H as [Hn _].
    apply isPlainName_iff in Hn. destruct Hn as (Hn & _).
    apply isWord_iff in Hn. destruct Hn as [_ Hn].
    split; [|exact Hb]. rewrite !braceFree_app, (word_braceFree _ Hn). reflexivity.
  - apply andb_true_iff in H. destruct H as [Hn Hf].
    apply isPlainName_iff in Hn. destruct Hn as (Hn & _).
    apply isWord_iff in Hn. destruct Hn as [_ Hn]. split.
    + rewrite !braceFree_app, (word_braceFree _ Hn). destruct audited; reflexivity.
    + apply fieldsText_forallb; try reflexivity.
      intros f Hin. rewrite forallb_forall in Hf. specialize (Hf f Hin).
      apply wellFormedFieldIn_iff in Hf. apply Hf.
  - unfold wellFormedRelationship in H.
    apply andb_true_iff in H. destruct H as [H Hto].
    apply andb_true_iff in H. destruct H as [Ht Hfrom].
    apply existsb_exists in Ht. destruct Ht as (t & Ht & Et).
    apply str_eqb_eq in Et. subst t. split.
    + rewrite !braceFree_app, (proj2 (cardinality_facts Ht)). reflexivity.
    + rewrite !braceFree_app, (endpointText_braceFree _ Hfrom),
        (endpointText_braceFree _ Hto). reflexivity.
Qed.

Lemma two_token_foreign kw token name n :
  noSpace token = true -> noSpace kw = true ->
  forallb (fun n => negb (str_eqb (skipn n token) kw)) (seq 0 (S (length token))) = true ->
  noSpace name = true ->
  ~ keywordHeader kw (skipn n (token ++ 32%N :: (name ++ [32%N]))).
Proof.
  intros Ht Hk Hs Hn. apply keywordHeader_prefixed; auto.
  - now apply no_suffix.
  - intro m. now apply keywordHeader_last.
Qed.

Lemma three_token_foreign kw first token name n :
  noSpace first = true -> noSpace token = true -> noSpace kw = true ->
  forallb (fun n => negb (str_eqb (skipn n first) kw)) (seq 0 (S (length first))) = true ->
  forallb (fun n => negb (str_eqb (skipn n token) kw)) (seq 0 (S (length token))) = true ->
  noSpace name = true ->
  ~ keywordHeader kw (skipn n (first ++ 10%N :: (token ++ 32%N :: (name ++ [32%N])))).
Proof.
  intros Hf Ht Hk Hs1 Hs2 Hn. apply keywordHeader_prefixed; auto.
  - now apply no_suffix.
  - intro m. now apply two_token_foreign.
Qed.

(** The header of a declaration, and what is left of it from any
    position on, begins with no keyword of another kind of
    declaration. *)
Lemma foreign_keyword names d kw n :
  wellFormedDeclaration names d = true ->
  In kw [str_of "enum"; str_of "entity"; str_of "@EnableAudit"; str_of "relationship"] ->
  ~ In kw (declarationKeywords d) ->
  ~ keywordHeader kw (skipn n (declarationHeader d)).
Proof.
  intros Hwf Hkw Hown.
  destruct d as [name items|audited name declared|r];
    cbn [wellFormedDeclaration declarationHeader declarationKeywords] in *.
  - apply andb_true_iff in Hwf. destruct Hwf as [Hwf _].
    apply andb_true_iff in Hwf. destruct Hwf as [Hn _].
    apply isPlainName_iff in Hn. destruct Hn as (Hn & _).
    apply isWord_iff in Hn. destruct Hn as [_ Hn]. apply word_noSpace in Hn.
    change (str_of "enum " ++ name ++ str_of " ")
      with (str_of "enum" ++ 32%N :: (name ++ [32%N])).
    destruct Hkw as [<-|[<-|[<-|[<-|[]]]]].
    + exfalso. apply Hown. now left.
    + now apply two_token_foreign.
    + now apply two_token_foreign.
    + now apply two_token_foreign.
  - apply andb_true_iff in Hwf. destruct Hwf as [Hn _].
    apply isPlainName_iff in Hn. destruct Hn as (Hn & _).
    apply isWord_iff in Hn. destruct Hn as [_ Hn]. apply word_noSpace in Hn.
    destruct audited.
    + change ((str_of "@EnableAudit" ++ nl) ++ str_of "entity " ++ name ++ str_of " ")
        with (str_of "@EnableAudit" ++ 10%N :: (str_of "entity" ++ 32%N :: (name ++ [32%N]))).
      destruct Hkw as [<-|[<-|[<-|[<-|[]]]]].
      * now apply three_token_foreign.
      * exfalso. apply Hown. now left.
      * exfalso. apply Hown. right. now left.
      * now apply three_token_foreign.
    + change ([] ++ str_of "entity " ++ name ++ str_of " ")
        with (str_of "entity" ++ 32%N :: (name ++ [32%N])).
      destruct Hkw as [<-|[<-|[<-|[<-|[]]]]].
      * now apply two_token_foreign.
      * exfalso. apply Hown. now left.
      * exfalso. apply Hown. right. now left.
      * now apply two_token_foreign.
  - unfold wellFormedRelationship in Hwf.
    apply andb_true_iff in Hwf. destruct Hwf as [Hwf _].
    apply andb_true_iff in Hwf. destruct Hwf as [Ht _].
    apply existsb_exists in Ht. destruct Ht as (t & Ht & Et).
    apply str_eqb_eq in Et. subst t.
    apply cardinality_facts in Ht. destruct Ht as [Ht _].
    change (str_of "relationship " ++ relType r ++ str_of " ")
      with (str_of "relationship" ++ 32%N :: (relType r ++ [32%N])).
    destruct Hkw as [<-|[<-|[<-|[<-|[]]]]].
    + now apply two_token_foreign.
    + now apply two_token_foreign.
    + now apply two_token_foreign.
    + exfalso. apply Hown. now left.
Qed.

Lemma declaration_inert re kws names d :
  (forall total i s mt, matchAt re total i s = Some mt -> headerOfMatch kws s) ->
  wellFormedDeclaration names d = true ->
  (forall kw, In kw kws ->
     In kw [str_of "enum"; str_of "entity"; str_of "@EnableAudit"; str_of "relationship"]
     /\ ~ In kw (declarationKeywords d)) ->
  blockRead re (declarationText d, None).
Proof.
  intros Hre Hwf Hkws. rewrite declarationText_split.
  destruct (declaration_braceFree names d Hwf) as [Hh Hb].
  apply (@inert_block re kws); auto.
  intros kw n Hin. destruct (Hkws kw Hin) as [H1 H2].
  now apply (@foreign_keyword names d kw n).
Qed.

Lemma no_match_at_line_feed re kws :
  (forall total i s mt, matchAt re total i s = Some mt -> headerOfMatch kws s) ->
  (forall kw, In kw kws -> exists c rest, kw = c :: rest /\ c <> 10%N) ->
  forall total i post, matchAt re total i (nl ++ post) = None.
Proof.
  intros Hre Hk total i post.
  destruct (matchAt re total i (nl ++ post)) as [mt|] eqn:E; [|reflexivity].
  exfalso. apply Hre in E.
  destruct E as (header & rest & kw & Hin & Es & _ & (w & c & r & -> & _)).
  destruct (Hk kw Hin) as (c0 & rest0 & -> & Hc).
  cbn [nl app] in Es. inversion Es. congruence.
Qed.

Lemma enum_line_feed total i post : matchAt enumRegex total i (nl ++ post) = None.
Proof.
  apply (@no_match_at_line_feed enumRegex [str_of "enum"] enumRegex_header).
  intros kw [<-|[]]. eexists _, _. split; [reflexivity | discriminate].
Qed.

Lemma entity_line_feed total i post : matchAt entityRegex total i (nl ++ post) = None.
Proof.
  apply (@no_match_at_line_feed entityRegex [str_of "entity"; str_of "@EnableAudit"]
           entityRegex_header).
  intros kw [<-|[<-|[]]]; eexists _, _; (split; [reflexivity | discriminate]).
Qed.

Lemma relationship_line_feed total i post :
  matchAt relationshipRegex total i (nl ++ post) = None.
Proof.
  apply (@no_match_at_line_feed relationshipRegex [str_of "relationship"]
           relationshipRegex_header).
  intros kw [<-|[]]. eexists _, _. split; [reflexivity | discriminate].
Qed.

Lemma enum_blockRead names d :
  wellFormedDeclaration names d = true ->
  blockRead enumRegex (declarationText d, enumGroups d).
Proof.
  intro Hwf. destruct d as [name items|audited name declared|r].
  - cbn [wellFormedDeclaration] in Hwf.
    apply andb_true_iff in Hwf. destruct Hwf as [Hwf Hb].
    apply andb_true_iff in Hwf. destruct Hwf as [Hn _].
    apply isPlainName_iff in Hn. destruct Hn as (Hn & _).
    unfold blockRead. cbn [fst snd declarationText enumGroups]. intros total i post.
    apply enumDeclaration_matchAt; [assumption | now apply braceFree_notCloseBrace].
  - apply (@declaration_inert enumRegex [str_of "enum"] names); auto.
    + exact enumRegex_header.
    + intros kw [<-|[]]. split; [now left|].
      cbn [declarationKeywords In]. intros [E|[E|[]]]; discriminate.
  - apply (@declaration_inert enumRegex [str_of "enum"] names); auto.
    + exact enumRegex_header.
    + intros kw [<-|[]]. split; [now left|].
      cbn [declarationKeywords In]. intros [E|[]]; discriminate.
Qed.

Lemma entity_blockRead names d :
  wellFormedDeclaration names d = true ->
  blockRead entityRegex (declarationText d, entityGroups d).
Proof.
  intro Hwf. destruct d as [name items|audited name declared|r].
  - apply (@declaration_inert entityRegex [str_of "entity"; str_of "@EnableAudit"] names);
      auto.
    + exact entityRegex_header.
    + intros kw [<-|[<-|[]]]; (split; [cbn [In]; tauto|]);
        cbn [declarationKeywords In]; intros [E|[]]; discriminate.
  - pose proof (declaration_braceFree names _ Hwf) as [_ Hb].
    cbn [wellFormedDeclaration] in Hwf.
    apply andb_true_iff in Hwf. destruct Hwf as [Hn _].
    apply isPlainName_iff in Hn. destruct Hn as (Hn & _).
    unfold blockRead. cbn [fst snd declarationText entityGroups]. intros total i post.
    apply entityDeclaration_matchAt; [assumption | now apply braceFree_notCloseBrace].
  - apply (@declaration_inert entityRegex [str_of "entity"; str_of "@EnableAudit"] names);
      auto.
    + exact entityRegex_header.
    + intros kw [<-|[<-|[]]]; (split; [cbn [In]; tauto|]);
        cbn [declarationKeywords In]; intros [E|[]]; discriminate.
Qed.

Lemma relationship_blockRead names d :
  wellFormedDeclaration names d = true ->
  blockRead relationshipRegex (declarationText d, relationshipGroups d).
Proof.
  intro Hwf. destruct d as [name items|audited name declared|r].
  - apply (@declaration_inert relationshipRegex [str_of "relationship"] names); auto.
    + exact relationshipRegex_header.
    + intros kw [<-|[]]. split; [cbn [In]; tauto|].
      cbn [declarationKeywords In]. intros [E|[]]; discriminate.
  - apply (@declaration_inert relationshipRegex [str_of "relationship"] names); auto.
    + exact relationshipRegex_header.
    + intros kw [<-|[]]. split; [cbn [In]; tauto|].
      cbn [declarationKeywords In]. intros [E|[E|[]]]; discriminate.
  - unfold blockRead. cbn [fst snd declarationText relationshipGroups].
    intros total i post. now apply relationshipDeclaration_matchAt.
Qed.

Lemma scan_document re (verdict : Declaration -> option (list (option str))) declarations :
  consumes (pattern re) = true ->
  (forall total i post, matchAt re total i (nl ++ post) = None) ->
  (forall d, In d declarations -> blockRead re (declarationText d, verdict d)) ->
  map groups (declarationsOf re (documentOf (map declarationText declarations)))
  = flat_map (fun d => match verdict d with Some gs => [gs] | None => [] end)
      declarations.
Proof.
  intros Hc Hnl Hread.
  pose proof (@scan_blocks re Hc Hnl
                (map (fun d => (declarationText d, verdict d)) declarations) []
                (loopFuel (documentOf (map declarationText declarations)))) as H.
  replace (map fst (map (fun d => (declarationText d, verdict d)) declarations))
    with (map declarationText declarations) in H
    by (rewrite map_map; apply map_ext; reflexivity).
  cbn [app length] in H.
  unfold declarationsOf. rewrite H.
  - clear H. induction declarations as [|d declarations IH]; [reflexivity|].
    cbn [map flat_map snd]. f_equal. apply IH. intros d' Hd'. apply Hread. now right.
  - now left.
  - unfold loopFuel. lia.
  - intros block Hin. apply in_map_iff in Hin. destruct Hin as (d & <- & Hd).
    now apply Hread.
Qed.

Lemma table_proto_none (M V : Type) (key : M -> str) (val : M -> V) l :
  (forall m, In m l -> key m <> protoKey) ->
  proto (fold_left (fun o m => objSet o (key m) (val m)) l (emptyObject V)) = None.
Proof.
  induction l as [|m l IH] using rev_ind; intro Hk; [reflexivity|].
  rewrite fold_left_app. cbn [fold_left]. unfold objSet at 1.
  assert (E : str_eqb (key m) protoKey = false).
  { apply str_eqb_neq, Hk, in_or_app. right. now left. }
  rewrite E. cbn [proto]. apply IH. intros m' Hm'. apply Hk, in_or_app. now left.
Qed.

(** [!!enums[t]] on a table of enums with distinct names other than
    [__proto__]. *)
Lemma objTruthy_table (M : Type) (key : M -> str) (val : M -> EnumDef) l t :
  NoDup (map key l) ->
  (forall m, In m l -> key m <> protoKey) ->
  objTruthy enumProps
    (fold_left (fun o m => objSet o (key m) (val m)) l (emptyObject EnumDef)) t
  = isEnumTypeName (map key l) t.
Proof.
  intros Hnd Hk. unfold objTruthy, isEnumTypeName.
  rewrite (table_own_distinct key val l Hnd Hk), (table_proto_none key val l Hk).
  destruct (assocGet (map (fun m => (key m, val m)) l) t) as [v|] eqn:E.
  - apply assocGet_In in E. apply in_map_iff in E. destruct E as (m & Em & Hm).
    inversion Em; subst.
    assert (Hex : existsb (str_eqb (key m)) (map key l) = true).
    { apply existsb_exists. exists (key m). split; [now apply in_map | apply str_eqb_refl]. }
    now rewrite Hex.
  - assert (Hex : existsb (str_eqb t) (map key l) = false).
    { destruct (existsb (str_eqb t) (map key l)) eqn:Ex; [|reflexivity].
      apply existsb_exists in Ex. destruct Ex as (k & Hin & Ek).
      apply str_eqb_eq in Ek. subst k. apply in_map_iff in Hin.
      destruct Hin as (m & <- & Hm).
      assert (Hin : In (key m, val m) (map (fun m => (key m, val m)) l))
        by (apply in_map_iff; now exists m).
      apply In_assocGet in Hin.
      - congruence.
      - rewrite map_map. cbn [fst]. exact Hnd. }
    rewrite Hex. cbn [orb].
    destruct (str_eqb t protoKey) eqn:Ep; [|reflexivity].
    apply str_eqb_eq in Ep. subst t. reflexivity.
Qed.

Lemma enums_of_groups declarations names :
  forallb (wellFormedDeclaration names) declarations = true ->
  map (groupOf 1)
    (flat_map (fun d => match enumGroups d with Some gs => [gs] | None => [] end)
       declarations)
  = map enumName (enumsOf declarations)
  /\ map (fun gs => enumOfMatch (matchOfGroups gs))
       (flat_map (fun d => match enumGroups d with Some gs => [gs] | None => [] end)
          declarations)
     = enumsOf declarations.
Proof.
  induction declarations as [|d declarations IH]; intro H; [split; reflexivity|].
  cbn [forallb] in H. apply andb_true_iff in H. destruct H as [Hd H].
  destruct (IH H) as [IH1 IH2]. unfold enumsOf in *. cbn [flat_map].
  destruct d as [name items|audited name declared|r]; cbn [enumGroups app];
    [|split; assumption | split; assumption].
  cbn [map]. rewrite IH1, IH2. split; [reflexivity|].
  f_equal. unfold enumOfMatch, group, matchOfGroups. cbn [groups nth_error].
  cbn [wellFormedDeclaration] in Hd.
  apply andb_true_iff in Hd. destruct Hd as [Hd _].
  apply andb_true_iff in Hd. destruct Hd as [_ Hi].
  unfold enumValuesText. rewrite (app_assoc nl (str_of "  ")).
  rewrite (@enumValues_joinWith (nl ++ str_of "  ") (nl ++ str_of "  ") nl items); auto.
Qed.

Lemma entityOf_declaration enums audited name declared :
  (forall f, In f declared ->
     wellFormedField f = true /\
     fieldTypeIsEnum f = objTruthy enumProps enums (fieldType f)) ->
  entityOfMatch enums
    (matchOfGroups [Some (entityDeclaration audited name declared); Some name;
                    Some (fieldsText declared)])
  = {| entityName := name;
       fields := declared ++ (if audited then AUDIT_FIELDS else []) |}.
Proof.
  intro Hf. unfold entityOfMatch, entityOf.
  rewrite (@entityDeclaration_audit audited name declared
             (matchOfGroups [Some (entityDeclaration audited name declared); Some name;
                             Some (fieldsText declared)]) eq_refl).
  unfold group, matchOfGroups. cbn [groups nth_error].
  rewrite fieldLinesOf_fieldsText
    by (apply forallb_forall; intros f Hin; apply Hf, Hin).
  rewrite declaredFields_fieldLines by assumption.
  destruct audited; [reflexivity | now rewrite app_nil_r].
Qed.

Lemma entities_of_groups enums declarations names :
  forallb (wellFormedDeclaration names) declarations = true ->
  (forall t, objTruthy enumProps enums t = isEnumTypeName names t) ->
  map (groupOf 1)
    (flat_map (fun d => match entityGroups d with Some gs => [gs] | None => [] end)
       declarations)
  = map entityName (entitiesOf declarations)
  /\ map (fun gs => entityOfMatch enums (matchOfGroups gs))
       (flat_map (fun d => match entityGroups d with Some gs => [gs] | None => [] end)
          declarations)
     = entitiesOf declarations.
Proof.
  intros H Hflag. induction declarations as [|d declarations IH]; [split; reflexivity|].
  cbn [forallb] in H. apply andb_true_iff in H. destruct H as [Hd H].
  destruct (IH H) as [IH1 IH2]. unfold entitiesOf in *. cbn [flat_map].
  destruct d as [name items|audited name declared|r]; cbn [entityGroups app];
    [split; assumption | | split; assumption].
  cbn [map]. rewrite IH1, IH2. split; [reflexivity|].
  f_equal. apply entityOf_declaration.
  cbn [wellFormedDeclaration] in Hd.
  apply andb_true_iff in Hd. destruct Hd as [_ Hd]. rewrite forallb_forall in Hd.
  intros f Hin. specialize (Hd f Hin). apply wellFormedFieldIn_iff in Hd.
  rewrite Hflag. tauto.
Qed.

Lemma relationships_of_groups declarations :
  map (fun gs => relationshipOfMatch (matchOfGroups gs))
    (flat_map (fun d => match relationshipGroups d with Some gs => [gs] | None => [] end)
       declarations)
  = relationshipsOf declarations.
Proof.
  induction declarations as [|d declarations IH]; [reflexivity|].
  unfold relationshipsOf in *. cbn [flat_map].
  destruct d as [name items|audited name declared|r]; cbn [relationshipGroups app];
    [assumption | assumption |].
  cbn [map]. rewrite IH. f_equal. destruct r as [t [a fa] [b fb]]. reflexivity.
Qed.

Lemma plain_names names declarations :
  forallb (wellFormedDeclaration names) declarations = true ->
  (forall n, In n (map enumName (enumsOf declarations)) ->
     n <> protoKey /\ arrayIndex n = None) /\
  (forall n, In n (map entityName (entitiesOf declarations)) ->
     n <> protoKey /\ arrayIndex n = None).
Proof.
  induction declarations as [|d declarations IH]; intro H; [split; intros n []|].
  cbn [forallb] in H. apply andb_true_iff in H. destruct H as [Hd H].
  destruct (IH H) as [IH1 IH2]. unfold enumsOf, entitiesOf in *. cbn [flat_map].
  destruct d as [name items|audited name declared|r]; cbn [app map enumName entityName];
    cbn [wellFormedDeclaration] in Hd.
  - split; [|assumption]. intros n [<-|Hn]; [|now apply IH1].
    apply andb_true_iff in Hd. destruct Hd as [Hd _].
    apply andb_true_iff in Hd. destruct Hd as [Hd _].
    apply isPlainName_iff in Hd. tauto.
  - split; [assumption|]. intros n [<-|Hn]; [|now apply IH2].
    apply andb_true_iff in Hd. destruct Hd as [Hd _].
    apply isPlainName_iff in Hd. tauto.
  - split; assumption.
Qed.

(** X14.  A document made of well-formed declarations (enums, entities
    with or without audit annotation, relationships, in any order, each
    written as text and followed by a line feed), in which no name is
    declared twice, is read back by [parseJdl] as the model of these
    declarations: its entities, its enums and its relationships, each
    list in the order of the document. *)
Theorem parseJdl_round_trip declarations :
  let document := documentOf (map declarationText declarations) in
  hasBlockComment document = false ->
  forallb (wellFormedDeclaration (map enumName (enumsOf declarations))) declarations
  = true ->
  NoDup (map enumName (enumsOf declarations)) ->
  NoDup (map entityName (entitiesOf declarations)) ->
  parseJdl document =
  Returned {| entities := entitiesOf declarations;
              enums := enumsOf declarations;
              relationships := relationshipsOf declarations |}.
Proof.
  intros document Hnc Hwf Hnd1 Hnd2.
  set (names := map enumName (enumsOf declarations)) in *.
  assert (Hwf' : forall d, In d declarations -> wellFormedDeclaration names d = true)
    by (now apply forallb_forall).
  rewrite parseJdl_tables, (strip_no_comment _ Hnc). fold document.
  pose proof (@scan_document enumRegex enumGroups declarations consumes_enumRegex
                enum_line_feed
                (fun d Hd => @enum_blockRead names d (Hwf' d Hd))) as Senum.
  pose proof (@scan_document entityRegex entityGroups declarations consumes_entityRegex
                entity_line_feed
                (fun d Hd => @entity_blockRead names d (Hwf' d Hd))) as Sentity.
  pose proof (@scan_document relationshipRegex relationshipGroups declarations
                consumes_relationshipRegex relationship_line_feed
                (fun d Hd => @relationship_blockRead names d (Hwf' d Hd))) as Srel.
  fold document in Senum, Sentity, Srel.
  destruct (enums_of_groups declarations names Hwf) as [Ek Ev].
  destruct (plain_names names declarations Hwf) as [Pk1 Pk2].
  assert (Hkeys : map (group 1) (declarationsOf enumRegex document) = names).
  { unfold names. rewrite <- Ek, <- Senum, map_map. reflexivity. }
  assert (Hplain : forall mt, In mt (declarationsOf enumRegex document) ->
                              group 1 mt <> protoKey /\ arrayIndex (group 1 mt) = None).
  { intros mt Hin. apply Pk1. fold names. rewrite <- Hkeys. now apply in_map. }
  assert (Henums : objValues (enumTable document) = enumsOf declarations).
  { unfold enumTable. rewrite table_values_distinct.
    - rewrite <- Ev, <- Senum, map_map. reflexivity.
    - now rewrite Hkeys.
    - exact Hplain. }
  assert (Hflag : forall t, objTruthy enumProps (enumTable document) t
                            = isEnumTypeName names t).
  { intro t. unfold enumTable. rewrite objTruthy_table.
    - now rewrite Hkeys.
    - now rewrite Hkeys.
    - intros mt Hin. apply Hplain, Hin. }
  destruct (entities_of_groups (enumTable document) declarations names Hwf Hflag)
    as [Ek' Ev'].
  assert (Hkeys' : map (group 1) (declarationsOf entityRegex document)
                   = map entityName (entitiesOf declarations)).
  { rewrite <- Ek', <- Sentity, map_map. reflexivity. }
  assert (Hentities : objValues (entityTable document) = entitiesOf declarations).
  { unfold entityTable. rewrite table_values_distinct.
    - rewrite <- Ev', <- Sentity, map_map. reflexivity.
    - now rewrite Hkeys'.
    - intros mt Hin. apply Pk2. rewrite <- Hkeys'. now apply in_map. }
  rewrite Henums, Hentities.
  rewrite <- (relationships_of_groups declarations), <- Srel, map_map.
  reflexivity.
Qed.

Lemma parseJdl_round_trip_witness :
  parseJdl (documentOf (map declarationText shopDeclarations)) =
  Returned {| entities := entitiesOf shopDeclarations;
              enums := enumsOf shopDeclarations;
              relationships := relationshipsOf shopDeclarations |}.
Proof.
  apply parseJdl_round_trip.
  - vm_compute. reflexivity.
  - vm_compute. reflexivity.
  - assert (E : map enumName (enumsOf shopDeclarations) = [str_of "Status"])
      by reflexivity.
    rewrite E. constructor; [intros [] | constructor].
  - assert (E : map entityName (entitiesOf shopDeclarations)
                = [str_of "Order"; str_of "Customer"]) by reflexivity.
    rewrite E. constructor; [|constructor; [intros [] | constructor]].
    intros [H|[]]. discriminate H.
Defined.


(** ** [isCommented] at the ends of a line *)

Lemma isCommented_at_line_feed a b :
  isCommented (a ++ nl ++ b) (length a) = false.
Proof.
  unfold isCommented, lastIndexOf.
  change (a ++ nl ++ b) with (a ++ 10%N :: b).
  rewrite (@lastIndexOf_newline a b (length a) 0 None) by (simpl; lia).
  cbn [Nat.add].
  assert (E : lastIndexOfFrom [10%N] b (S (length a)) (length a) (Some (length a))
              = Some (length a)).
  { destruct b; cbn [lastIndexOfFrom];
      now rewrite (proj2 (Nat.ltb_lt (length a) (S (length a))) (Nat.lt_succ_diag_r _)). }
  rewrite E. unfold substring.
  rewrite Nat.min_r, Nat.max_l by lia.
  replace (length a + 1 - length a) with 1 by lia.
  rewrite skipn_app_exact. reflexivity.
Qed.

(** X15.  [isCommented] looks at the text between the last line feed
    before the index and the index, and answers whether that text, once
    trimmed, begins with the line-comment marker.  So a position that
    follows, on its line, anything else than white space and the marker
    is not flagged, even when a marker stands further on the line; and a
    position that holds a line feed is never flagged. *)
Theorem isCommented_reads_line :
  (forall before line rest,
     before = [] \/ (exists b, before = b ++ [10%N]) ->
     ~ In 10%N line ->
     startsWith [10%N] rest = false ->
     isCommented (before ++ line ++ rest) (length before + length line)
     = startsWith (str_of "//") (trim line)) /\
  (forall before indent c text rest,
     before = [] \/ (exists b, before = b ++ [10%N]) ->
     forallb isWhiteSpace indent = true ->
     isWhiteSpace c = false -> c <> 47%N ->
     ~ In 10%N (indent ++ c :: text) ->
     startsWith [10%N] rest = false ->
     isCommented (before ++ (indent ++ c :: text) ++ rest)
       (length before + length (indent ++ c :: text)) = false) /\
  (forall a b, isCommented (a ++ nl ++ b) (length a) = false).
Proof.
  split; [exact isCommented_line|]. split; [|exact isCommented_at_line_feed].
  intros before indent c text rest Hb Hi Hc Hs Hl Hr.
  rewrite isCommented_line by assumption.
  unfold trim. rewrite trimStart_indent by assumption.
  cbn [trimStart]. rewrite Hc.
  assert (Hne : c :: text <> []) by discriminate.
  destruct (@trimEnd_keeps_head (c :: text) Hne) as [_ Hne'].
  { cbn [stopsAt]. now rewrite Hc. }
  destruct (trimEnd_suffix (c :: text)) as (w & Hw & _).
  destruct (trimEnd (c :: text)) as [|y t] eqn:E; [contradiction|].
  cbn [app] in Hw. inversion Hw; subst y.
  change (str_of "//") with [47%N; 47%N]. cbn [startsWith].
  destruct (cu_eqb 47%N c) eqn:Ec; [|reflexivity].
  apply cu_eqb_eq in Ec. congruence.
Qed.

Lemma isCommented_reads_line_witness :
  isCommented ((str_of "enum E { A }" ++ [10%N]) ++ str_of "  // "
               ++ str_of "entity Ghost { x String }")
    (length (str_of "enum E { A }" ++ [10%N]) + length (str_of "  // ")) = true
  /\ isCommented ([] ++ (str_of " " ++ 120%N :: str_of " String // ")
                  ++ str_of "entity B { }")
       (length (@nil N) + length (str_of " " ++ 120%N :: str_of " String // ")) = false.
Proof.
  split.
  - rewrite (proj1 isCommented_reads_line); [reflexivity | | |reflexivity].
    + right. now exists (str_of "enum E { A }").
    + simpl. intuition discriminate.
  - apply (proj1 (proj2 isCommented_reads_line)); try reflexivity.
    + now left.
    + discriminate.
    + simpl. intuition discriminate.
Defined.


(** ** The stripper only deletes *)

Lemma Subsequence_refl s : Subsequence s s.
Proof. induction s; constructor; assumption. Qed.

Lemma Subsequence_app_keep p a b : Subsequence a b -> Subsequence (p ++ a) (p ++ b).
Proof. intro H. induction p; [assumption|]. cbn [app]. now constructor. Qed.

Lemma Subsequence_app_drop p a b : Subsequence a b -> Subsequence a (p ++ b).
Proof. intro H. induction p; [assumption|]. cbn [app]. now constructor. Qed.

Lemma Subsequence_length a b : Subsequence a b -> length a <= length b.
Proof. induction 1; simpl; lia. Qed.

Lemma afterClose_first t : forall post,
  afterClose t = Some post ->
  exists body, t = body ++ str_of "*/" ++ post /\ indexOf (str_of "*/") body = None.
Proof.
  induction t as [|x t IH]; intros post H.
  - cbn [afterClose startsWith str_of] in H. discriminate.
  - cbn [afterClose] in H. destruct (startsWith (str_of "*/") (x :: t)) eqn:E.
    + inversion H; subst. exists []. split; [|reflexivity].
      exact (startsWith_split _ _ E).
    + destruct (IH post H) as (body & -> & Hb). exists (x :: body).
      split; [reflexivity|]. cbn [indexOf].
      destruct (startsWith (str_of "*/") (x :: body)) eqn:E'.
      * apply startsWith_app with (b := str_of "*/" ++ post) in E'. cbn [app] in E', E.
        congruence.
      * now rewrite Hb.
Qed.

Lemma first_comment s :
  hasBlockComment s = true ->
  exists pre body post,
    s = pre ++ str_of "/*" ++ body ++ str_of "*/" ++ post /\
    indexOf (str_of "/*") pre = None /\
    indexOf (str_of "*/") body = None.
Proof.
  induction s as [|x s IH]; [discriminate|]. cbn [hasBlockComment]. intro H.
  destruct (startsWith (str_of "/*") (x :: s)) eqn:Es.
  - destruct (afterClose (skipn 2 (x :: s))) as [post|] eqn:Ea.
    + apply afterClose_first in Ea. destruct Ea as (body & Eb & Hb).
      exists [], body, post. split; [|split; [reflexivity | assumption]].
      cbn [app]. rewrite <- Eb. now apply startsWith_split in Es.
    + cbn [andb orb] in H. destruct (IH H) as (pre & body & post & -> & _ & _).
      exfalso. destruct pre as [|y pre].
      * assert (E2 : skipn 2 (x :: [] ++ str_of "/*" ++ body ++ str_of "*/" ++ post)
                     = (42%N :: body) ++ str_of "*/" ++ post) by reflexivity.
        rewrite E2 in Ea. now apply afterClose_app in Ea.
      * assert (E2 : skipn 2 (x :: (y :: pre) ++ str_of "/*" ++ body ++ str_of "*/" ++ post)
                     = (pre ++ str_of "/*" ++ body) ++ str_of "*/" ++ post)
          by (rewrite <- !app_assoc; reflexivity).
        rewrite E2 in Ea. now apply afterClose_app in Ea.
  - cbn [andb orb] in H. destruct (IH H) as (pre & body & post & -> & Hp & Hb).
    exists (x :: pre), body, post. split; [reflexivity|]. split; [|assumption].
    cbn [indexOf]. destruct (startsWith (str_of "/*") (x :: pre)) eqn:E'.
    + apply startsWith_app with (b := str_of "/*" ++ body ++ str_of "*/" ++ post) in E'.
      cbn [app] in E', Es. congruence.
    + now rewrite Hp.
Qed.

(** X16.  The comment stripper only deletes: its result is the document
    with some of its characters left out, in the same order, and is never
    longer than the document. *)
Theorem strip_only_deletes jdlContent :
  Subsequence (stripBlockComments jdlContent) jdlContent /\
  length (stripBlockComments jdlContent) <= length jdlContent.
Proof.
  assert (H : forall n s, length s <= n -> Subsequence (stripBlockComments s) s).
  { induction n as [|n IH]; intros s Hn.
    - destruct s; [|simpl in Hn; lia]. rewrite strip_no_comment by reflexivity.
      constructor.
    - destruct (hasBlockComment s) eqn:E.
      + apply first_comment in E. destruct E as (pre & body & post & -> & Hp & Hb).
        rewrite strip_first_comment by assumption.
        apply Subsequence_app_keep.
        apply (Subsequence_app_drop (str_of "/*")).
        apply (Subsequence_app_drop body).
        apply (Subsequence_app_drop (str_of "*/")).
        apply IH. rewrite !length_app in Hn. simpl length in Hn. lia.
      + rewrite strip_no_comment by assumption. apply Subsequence_refl. }
  assert (Hs := H (length jdlContent) jdlContent (le_n _)).
  split; [exact Hs | now apply Subsequence_length].
Qed.

(** ** The TypeScript type of a field *)

Lemma getTsType_truthy v : truthy v = true -> truthy (getTsType v) = true.
Proof.
  intro H. unfold getTsType.
  destruct (typeMappingsGet (toPropertyKey v)) as [w|]; [|assumption].
  destruct (truthy w) eqn:E; assumption.
Qed.

Lemma typeMappings_values k ts : assocGet typeMappings k = Some ts -> ts <> [].
Proof.
  intro H. apply assocGet_In in H. cbn in H.
  repeat (destruct H as [H|H]; [inversion H; discriminate|]). contradiction.
Qed.

Section TypedContext.

Variable camelCase : str -> str.
Variable upperFirst : str -> str.
Variable toLowerCase : str -> str.

(** X17.  The render context of an entity of the model lists the fields
    of the entity in their order, each with a TypeScript type that is
    never empty or undefined; whenever the JDL type of the field is not
    a key of [Object.prototype], that type is a non-empty string: the
    entry of the type table, or the JDL type itself when the table has
    none. *)
Theorem context_fields_typed jdlContent model e allRelationships :
  parseJdl jdlContent = Returned model ->
  In e (entities model) ->
  let ctx := entityConfig camelCase upperFirst toLowerCase e allRelationships in
  map field (configFields ctx) = fields e /\
  forall v, In v (configFields ctx) ->
    truthy (tsType v) = true /\
    (inObjectPrototype (fieldType (field v)) = false ->
     exists ts, tsType v = VString ts /\ ts <> [] /\
                match assocGet typeMappings (fieldType (field v)) with
                | Some t => ts = t
                | None => ts = fieldType (field v)
                end).
Proof.
  intros Hp He ctx. subst ctx. unfold entityConfig. cbn [configFields]. split.
  - rewrite map_map. cbn [field]. apply map_id.
  - intros v Hv. apply in_map_iff in Hv. destruct Hv as (f & <- & Hf).
    cbn [field tsType].
    assert (Hwf : wellFormedField f = true).
    { destruct (model_field_origin _ _ _ Hp He Hf) as [Ha|(body & line & _ & _ & Hfl)].
      - cbn [AUDIT_FIELDS In] in Ha.
        destruct Ha as [<-|[<-|[<-|[<-|[]]]]]; reflexivity.
      - now apply fieldOfLine_wf in Hfl. }
    unfold wellFormedField in Hwf.
    apply andb_true_iff in Hwf. destruct Hwf as [Hwf _].
    apply andb_true_iff in Hwf. destruct Hwf as [Hwf _].
    apply andb_true_iff in Hwf. destruct Hwf as [_ Ht].
    unfold isFieldType in Ht. apply andb_true_iff in Ht. destruct Ht as [Ht _].
    split; [now apply getTsType_truthy|].
    intro Hproto. rewrite (getTsType_table _ Hproto).
    destruct (assocGet typeMappings (fieldType f)) as [t|] eqn:E.
    + exists t. split; [reflexivity|]. split; [|reflexivity].
      now apply typeMappings_values with (fieldType f).
    + exists (fieldType f). split; [reflexivity|]. split; [|reflexivity].
      destruct (fieldType f); [discriminate | discriminate].
Qed.

End TypedContext.

Lemma context_fields_typed_witness :
  let ctx := entityConfig (fun s => s) (fun s => s) toLowerCaseAscii orderEntity [] in
  map field (configFields ctx) = fields orderEntity /\
  forall v, In v (configFields ctx) ->
    truthy (tsType v) = true /\
    (inObjectPrototype (fieldType (field v)) = false ->
     exists ts, tsType v = VString ts /\ ts <> [] /\
                match assocGet typeMappings (fieldType (field v)) with
                | Some t => ts = t
                | None => ts = fieldType (field v)
                end).
Proof.
  apply (@context_fields_typed (fun s => s) (fun s => s) toLowerCaseAscii orderDoc
           orderModel orderEntity []).
  - vm_compute. reflexivity.
  - left. reflexivity.
Defined.


(** X18.  When a name other than [__proto__] is declared several times,
    the model holds under that name the record of the last accepted
    declaration and no other record: for entities and for enums. *)
Theorem last_declaration_wins jdlContent model :
  parseJdl jdlContent = Returned model ->
  let c := stripBlockComments jdlContent in
  (forall l1 mt l2,
     declarationsOf entityRegex c = l1 ++ mt :: l2 ->
     (forall mt', In mt' l2 -> group 1 mt' <> group 1 mt) ->
     group 1 mt <> protoKey ->
     In (entityOfMatch (enumTable c) mt) (entities model) /\
     forall e, In e (entities model) -> entityName e = group 1 mt ->
               e = entityOfMatch (enumTable c) mt) /\
  (forall l1 mt l2,
     declarationsOf enumRegex c = l1 ++ mt :: l2 ->
     (forall mt', In mt' l2 -> group 1 mt' <> group 1 mt) ->
     group 1 mt <> protoKey ->
     In (enumOfMatch mt) (enums model) /\
     forall en, In en (enums model) -> enumName en = group 1 mt -> en = enumOfMatch mt).
Proof.
  intros Hp c. split.
  - intros l1 mt l2 Hl Hlast Hk.
    destruct (@last_entity_declaration_wins _ _ _ _ _ Hp Hl Hlast Hk) as [_ Hin].
    split; [exact Hin|]. intros e He Hn.
    rewrite parseJdl_tables in Hp. inversion Hp; subst model; clear Hp.
    cbn [entities] in *. unfold entityTable in *.
    now apply (@table_value_unique _ _ (group 1) (entityOfMatch (enumTable c)) entityName
                 (declarationsOf entityRegex c) e (entityOfMatch (enumTable c) mt)).
  - intros l1 mt l2 Hl Hlast Hk.
    destruct (@last_enum_declaration_wins _ _ _ _ _ Hp Hl Hlast Hk) as [_ Hin].
    split; [exact Hin|]. intros en Hen Hn.
    rewrite parseJdl_tables in Hp. inversion Hp; subst model; clear Hp.
    cbn [enums] in *. unfold enumTable in *.
    now apply (@table_value_unique _ _ (group 1) enumOfMatch enumName
                 (declarationsOf enumRegex c) en (enumOfMatch mt)).
Qed.

Lemma last_declaration_wins_witness :
  let c := stripBlockComments redeclaredDoc in
  let mt := nth 2 (declarationsOf entityRegex c) (matchOfGroups []) in
  group 1 mt = str_of "A" /\
  In (entityOfMatch (enumTable c) mt) (entities redeclaredModel) /\
  forall e, In e (entities redeclaredModel) -> entityName e = group 1 mt ->
            e = entityOfMatch (enumTable c) mt.
Proof.
  intros c mt. split; [vm_compute; reflexivity|].
  assert (Hp : parseJdl redeclaredDoc = Returned redeclaredModel)
    by (vm_compute; reflexivity).
  apply (proj1 (@last_declaration_wins redeclaredDoc redeclaredModel Hp)
           (firstn 2 (declarationsOf entityRegex c)) mt []).
  - vm_compute. reflexivity.
  - intros mt' [].
  - vm_compute. discriminate.
Defined.

